(** * The zk-auth benchmark harness: a shallow embedding and its properties

    Two JavaScript programs of the repository are embedded here:

    - [bench-mark/bench.js] (module [Bench]): the readiness check, the
      preflight chain register -> proof -> verify, the process lookup, the
      resource monitor, the aggregation of samples and the concurrency sweep;
    - the k6 script of the staged load profile (module [K6]): [postJson] and
      the iteration function exported as [default].

    JavaScript numbers are IEEE 754 binary64 values, which is what Rocq's
    primitive [float] is, so [+], [/] and the truthiness test of [||] are the
    ones JavaScript computes.  The libraries the scripts call (axios,
    autocannon, pidusage, child_process, k6) are outside the repository: what
    they answer is read from an environment record, and what the scripts ask
    of them is written to a trace of events. *)

From Stdlib Require Import List String Ascii ZArith Bool Lia PrimFloat Uint63.
Import ListNotations.
Local Open Scope string_scope.
Local Open Scope list_scope.

(* ================================================================== *)
(** * JavaScript values *)
(* ================================================================== *)

Module Js.

Definition number := float.

(** The integer-valued number for a length or a counter ([n] below 2^53
    converts exactly; array lengths are below 2^32). *)
Definition of_nat (n : nat) : number :=
  PrimFloat.of_uint63 (Uint63.of_Z (Z.of_nat n)).

#[warnings="-register-all"]
Inductive value : Type :=
| VUndefined
| VNull
| VBool (b : bool)
| VNum (x : number)
| VStr (s : string)
| VObj (fields : list (string * value)).

(** ToBoolean on a number: [+0], [-0] and [NaN] are falsy. *)
Definition number_truthy (x : number) : bool :=
  negb (PrimFloat.is_zero x || PrimFloat.is_nan x).

(** ToBoolean. *)
Definition to_boolean (v : value) : bool :=
  match v with
  | VUndefined | VNull => false
  | VBool b => b
  | VNum x => number_truthy x
  | VStr s => negb (String.eqb s EmptyString)
  | VObj _ => true
  end.

(** An optional number: a property that is a number when present and
    [undefined] (here [None]) when absent. *)
Definition opt_truthy (o : option number) : bool :=
  match o with
  | Some x => number_truthy x
  | None => false
  end.

(** [a || b] on optional numbers. *)
Definition or (a b : option number) : option number :=
  if opt_truthy a then a else b.

Fixpoint lookup (key : string) (fields : list (string * value)) : value :=
  match fields with
  | [] => VUndefined
  | (k, v) :: rest => if String.eqb k key then v else lookup key rest
  end.

(** The text [JSON.stringify v], kept symbolic: two texts are compared
    through the values they serialise. *)
Inductive jsonText : Type := JSON_stringify (v : value).

(** An HTTP response as axios presents it. *)
Record response : Type := { status : Z; data : value }.

(** The exceptions of the two scripts.  An [AxiosError] carries the
    response when the server answered and none when the request never
    got one (connection refused, timeout, DNS). *)
Inductive error : Type :=
| TypeError (msg : string)
| Error (msg : string)
| AxiosError (code : string) (resp : option response)
| ExecError
| PidusageError
| AutocannonError
| JsonParseError.

Inductive result (A : Type) : Type :=
| Ret (a : A)
| Throw (e : error).
Arguments Ret {A} a.
Arguments Throw {A} e.

(** Property read [v.key]: a TypeError on [undefined] and [null], the
    property of an object, [undefined] on the other primitives. *)
Definition get (v : value) (key : string) : result value :=
  match v with
  | VUndefined | VNull =>
      Throw (TypeError ("Cannot read properties of undefined or null: " ++ key)%string)
  | VObj fields => Ret (lookup key fields)
  | VBool _ | VNum _ | VStr _ => Ret VUndefined
  end.

End Js.

Import Js.

(* ================================================================== *)
(** * A state and exception monad *)
(* ================================================================== *)

(** A computation reads and writes a world [W] and either returns or throws;
    what was written before a throw stays written. *)
Definition M (W A : Type) : Type := W -> result A * W.

Definition ret {W A} (a : A) : M W A := fun w => (Ret a, w).

Definition throw {W A} (e : error) : M W A := fun w => (Throw e, w).

Definition bind {W A B} (m : M W A) (k : A -> M W B) : M W B :=
  fun w =>
    match m w with
    | (Ret a, w') => k a w'
    | (Throw e, w') => (Throw e, w')
    end.

(** [try { m } catch (e) { h e }]. *)
Definition try_catch {W A} (m : M W A) (h : error -> M W A) : M W A :=
  fun w =>
    match m w with
    | (Ret a, w') => (Ret a, w')
    | (Throw e, w') => h e w'
    end.

Definition lift {W A} (r : result A) : M W A := fun w => (r, w).

Declare Scope js_scope.
Delimit Scope js_scope with js.
Notation "x <- m ;; k" := (bind m (fun x => k))
  (at level 100, m at next level, right associativity) : js_scope.
Notation "m ;;; k" := (bind m (fun _ => k))
  (at level 100, right associativity) : js_scope.
Local Open Scope js_scope.

(** [for (const x of l) body x]. *)
Fixpoint for_of {W A} (l : list A) (body : A -> M W unit) : M W unit :=
  match l with
  | [] => ret tt
  | x :: rest => body x ;;; for_of rest body
  end.

(** A computation started in a world satisfying [P] ends, returning or
    throwing, with a result and a world satisfying [Q]. *)
Definition hoare {W A} (P : W -> Prop) (m : M W A)
           (Q : result A -> W -> Prop) : Prop :=
  forall w, P w -> Q (fst (m w)) (snd (m w)).

(** [I] is kept by [m], however [m] ends. *)
Definition stable {W A} (I : W -> Prop) (m : M W A) : Prop :=
  hoare I m (fun _ w => I w).

(** [P] holds of the world when the computation returns. *)
Definition on_return {W A} (P : W -> Prop) : result A -> W -> Prop :=
  fun r w =>
    match r with
    | Ret _ => P w
    | Throw _ => True
    end.

(* ================================================================== *)
(** * bench-mark/bench.js *)
(* ================================================================== *)

Module Usage.
(** What the script reads of a pidusage result, and the shape of the
    accumulator and of the result of [computeAverages]. *)
Record t : Type := { cpu : number; memory : number }.
End Usage.

Module Latency.
(** [result.latency] of autocannon: [average] is always there; [p50],
    [median] and [mean] are read through a [||] chain because a given
    autocannon may not provide each of them. *)
Record t : Type :=
  { average : number;
    p50 : option number;
    median : option number;
    mean : option number }.
End Latency.

Module AcResult.
Record t : Type :=
  { latency : Latency.t;
    throughput_average : number;
    requests_average : number }.
End AcResult.

Module Summary.
Record t : Type :=
  { endpoint : string;
    concurrency : Z;
    latencyAvg : number;
    latencyP50 : option number;
    throughputAvg : number;
    requestsPerSec : number;
    cpu : option number;
    memory : option number }.
End Summary.

(** ** The resource monitor as a machine

    [startResourceMonitor] creates the array [samples] and a timer whose
    callback is [async () => { try { samples.push(await pidusage(pid)) }
    catch {} }].  A tick of the timer starts a lookup; the lookup settles
    later, with a sample or with an error; [stop] clears the timer. *)
Module Monitor.

Record state : Type :=
  { pid : Z;
    active : bool;          (* the interval timer is set *)
    pending : nat;          (* lookups started and not yet settled *)
    samples : list Usage.t;
    crashed : bool }.       (* a callback ended in an unhandled rejection *)

Inductive event : Type :=
| Tick                                (* the interval elapsed *)
| Settle (o : option Usage.t).        (* a lookup resolved or rejected *)

Definition start (p : Z) : state :=
  {| pid := p; active := true; pending := 0; samples := []; crashed := false |}.

Definition stop (m : state) : state :=
  {| pid := pid m; active := false; pending := pending m;
     samples := samples m; crashed := crashed m |}.

(** [await pidusage(pid)]. *)
Definition await_pidusage (o : option Usage.t) : M (list Usage.t) Usage.t :=
  match o with
  | Some s => ret s
  | None => throw PidusageError
  end.

Definition push (s : Usage.t) : M (list Usage.t) unit :=
  fun arr => (Ret tt, arr ++ [s]).

(** The body of the timer callback, from the settlement of its lookup. *)
Definition callback (o : option Usage.t) : M (list Usage.t) unit :=
  try_catch (s <- await_pidusage o ;; push s) (fun _ => ret tt).

Definition step (m : state) (ev : event) : state :=
  match ev with
  | Tick =>
      if active m
      then {| pid := pid m; active := true; pending := S (pending m);
              samples := samples m; crashed := crashed m |}
      else m
  | Settle o =>
      match pending m with
      | O => m
      | S k =>
          let '(r, arr) := callback o (samples m) in
          {| pid := pid m; active := active m; pending := k;
             samples := arr;
             crashed := match r with Ret _ => crashed m | Throw _ => true end |}
      end
  end.

Definition run (evs : list event) (m : state) : state :=
  fold_left step evs m.

End Monitor.

Module Bench.

(** *** Configuration *)

Definition DEFAULT_BASE_URL : string := "http://localhost:8080".
Definition CONCURRENCY_LEVELS : list Z := [1; 10; 15; 20; 25; 30]%Z.
Definition TEST_DURATION : Z := 15.
Definition SAMPLE_INTERVAL_MS : Z := 250.

(** *** computeAverages *)

Definition computeAverages (samples : list Usage.t) : option Usage.t :=
  if Nat.eqb (List.length samples) 0 then None
  else
    let sum :=
      fold_left
        (fun a s => {| Usage.cpu := (Usage.cpu a + Usage.cpu s)%float;
                       Usage.memory := (Usage.memory a + Usage.memory s)%float |})
        samples
        {| Usage.cpu := 0%float; Usage.memory := 0%float |} in
    let n := Js.of_nat (List.length samples) in
    Some {| Usage.cpu := (Usage.cpu sum / n)%float;
            Usage.memory := (Usage.memory sum / n)%float |}.

(** *** What the script sends and what it is answered *)

(** A console line is the list of its fragments; [LFixed2 x] stands for
    [x.toFixed(2)]. *)
Inductive LogArg : Type :=
| LStr (s : string)
| LInt (z : Z)
| LFixed2 (x : number)
| LErr (e : error).

Module Request.
Record t : Type :=
  { method : string;
    path : string;
    headers : list (string * string);
    body : option jsonText }.
End Request.

Inductive Event : Type :=
| ConsoleLog (args : list LogArg)
| ConsoleWarn (args : list LogArg)
| ConsoleError (args : list LogArg)
| HttpGet (url : string)
| HttpPost (url : string) (body : value)
| SetTimeout (ms : Z)
| Exec (cmd : string)
| SetInterval (ms : Z) (pid : Z)
| ClearInterval
| AutocannonStart (url : string) (connections duration : Z)
| LoadRequest (req : Request.t)
| ProcessExit (code : Z).

Record World : Type :=
  { events : list Event;          (* what the process did, oldest first *)
    summaries : list Summary.t;   (* the array [summaries] of [main] *)
    random_calls : nat;           (* calls of [Math.random] so far *)
    get_calls : nat }.            (* GET requests sent so far *)

Definition initial : World :=
  {| events := []; summaries := []; random_calls := 0; get_calls := 0 |}.

(** [w] after the events [evs]. *)
Definition with_events (w : World) (evs : list Event) : World :=
  {| events := events w ++ evs; summaries := summaries w;
     random_calls := random_calls w; get_calls := get_calls w |}.

Module RequestSpec.
(** An element of [requests]: the literal properties and, when given,
    the function [setupRequest]. *)
Record t : Type :=
  { request : Request.t;
    setupRequest : option (Request.t -> M World Request.t) }.
End RequestSpec.

Module Endpoint.
Record t : Type := { name : string; requests : list RequestSpec.t }.
End Endpoint.

Module AcOpts.
Record t : Type :=
  { url : string;
    connections : Z;
    duration : Z;
    requests : list RequestSpec.t }.
End AcOpts.

(** What one autocannon run does, as far as the script can tell: how many
    requests it sends, which callbacks of the monitor's timer run while
    [main] awaits it, and whether it ends with a result or an error. *)
Module AcRun.
Record t : Type :=
  { issued : nat;
    background : list Monitor.event;
    outcome : option AcResult.t }.
End AcRun.

Module Url.
Record t : Type := { port : string; protocol : string }.
End Url.

(** What a request meets on the wire. *)
Inductive wire : Type :=
| NoResponse (code : string)
| Answer (r : response).

Record Env : Type :=
  { env_BASE_URL : option string;          (* process.env.BASE_URL *)
    math_random_36 : nat -> string;        (* k-th Math.random().toString(36) *)
    http_get : nat -> string -> wire;      (* the k-th GET *)
    http_post : string -> value -> wire;
    new_URL : string -> option Url.t;      (* [None]: the constructor throws *)
    child_exec : string -> option string;  (* stdout, [None]: exec fails *)
    autocannon : AcOpts.t -> AcRun.t }.

(** *** Strings *)

(** [s.slice(start)] for [start >= 0]. *)
Definition slice (start : nat) (s : string) : string :=
  substring start (String.length s - start) s.

(** The white space of [trim] and [parseInt] that fits in a byte. *)
Definition is_white_space (c : ascii) : bool :=
  let n := nat_of_ascii c in
  Nat.eqb n 9 || Nat.eqb n 10 || Nat.eqb n 11 || Nat.eqb n 12
  || Nat.eqb n 13 || Nat.eqb n 32.

Fixpoint trim_start (s : string) : string :=
  match s with
  | String c rest => if is_white_space c then trim_start rest else s
  | EmptyString => EmptyString
  end.

Definition reverse (s : string) : string :=
  string_of_list_ascii (rev (list_ascii_of_string s)).

Definition trim (s : string) : string :=
  reverse (trim_start (reverse (trim_start s))).

Definition digit (c : ascii) : option Z :=
  let n := nat_of_ascii c in
  if Nat.leb 48 n && Nat.leb n 57 then Some (Z.of_nat (n - 48)) else None.

(** The longest prefix of decimal digits, as a number; [acc] is [None]
    until a digit has been read. *)
Fixpoint digits (s : string) (acc : option Z) : option Z :=
  match s with
  | String c rest =>
      match digit c with
      | Some d =>
          digits rest (Some (10 * match acc with Some a => a | None => 0 end + d)%Z)
      | None => acc
      end
  | EmptyString => acc
  end.

(** [parseInt(s, 10)]; [None] is NaN.  JavaScript returns the binary64
    number nearest to the integer read; the model keeps the integer
    itself, which is that number as long as it is at most 2^53 in absolute
    value ([Spec.exact_integer]).  Beyond, the two differ, and what is
    proved of the value returned has this bound as a hypothesis. *)
Definition parseInt (s : string) : option Z :=
  let s1 := trim_start s in
  let '(negative, s2) :=
    match s1 with
    | String "-"%char rest => (true, rest)
    | String "+"%char rest => (false, rest)
    | _ => (false, s1)
    end in
  match digits s2 None with
  | Some v => Some (if negative then (- v)%Z else v)
  | None => None
  end.

Section Script.

Variable env : Env.

(** [process.env.BASE_URL || 'http://localhost:8080'] *)
Definition BASE_URL : string :=
  match env_BASE_URL env with
  | Some s => if String.eqb s EmptyString then DEFAULT_BASE_URL else s
  | None => DEFAULT_BASE_URL
  end.

(** *** Effects *)

Definition emit (e : Event) : M World unit :=
  fun w =>
    (Ret tt,
     {| events := events w ++ [e]; summaries := summaries w;
        random_calls := random_calls w; get_calls := get_calls w |}).

Definition console_log (args : list LogArg) : M World unit :=
  emit (ConsoleLog args).
Definition console_warn (args : list LogArg) : M World unit :=
  emit (ConsoleWarn args).
Definition console_error (args : list LogArg) : M World unit :=
  emit (ConsoleError args).

(** [Math.random().toString(36)] *)
Definition Math_random_toString36 : M World string :=
  fun w =>
    (Ret (math_random_36 env (random_calls w)),
     {| events := events w; summaries := summaries w;
        random_calls := S (random_calls w); get_calls := get_calls w |}).

(** [summaries.push(s)] *)
Definition summaries_push (s : Summary.t) : M World unit :=
  fun w =>
    (Ret tt,
     {| events := events w; summaries := summaries w ++ [s];
        random_calls := random_calls w; get_calls := get_calls w |}).

(** axios resolves on a status from 200 to 299 (its default
    [validateStatus]) and rejects otherwise. *)
Definition validateStatus (st : Z) : bool :=
  (200 <=? st)%Z && (st <? 300)%Z.

Definition settle (x : wire) : result response :=
  match x with
  | NoResponse code => Throw (AxiosError code None)
  | Answer r =>
      if validateStatus (status r) then Ret r
      else Throw (AxiosError "ERR_BAD_RESPONSE" (Some r))
  end.

Definition axios_get (url : string) : M World response :=
  fun w =>
    let w' := {| events := events w ++ [HttpGet url];
                 summaries := summaries w;
                 random_calls := random_calls w;
                 get_calls := S (get_calls w) |} in
    (settle (http_get env (get_calls w) url), w').

Definition axios_post (url : string) (body : value) : M World response :=
  emit (HttpPost url body) ;;;
  lift (settle (http_post env url body)).

(** [await new Promise(r => setTimeout(r, ms))] *)
Definition sleep (ms : Z) : M World unit := emit (SetTimeout ms).

(** *** buildUser *)

(** The object built from [random36], the text
    [Math.random().toString(36)]. *)
Definition user (random36 : string) : value :=
  let rnd := slice 2 random36 in
  VObj [ ("email", VStr ("user-" ++ rnd ++ "@example.com")%string);
         ("name", VStr "Alice Doe");
         ("age", VNum 35%float);
         ("country", VStr "US");
         ("dob", VStr "1989-05-17") ].

Definition buildUser : M World value :=
  r <- Math_random_toString36 ;;
  ret (user r).

(** [{ secret_hex: secretHex, commitment }] *)
Definition proof_payload (secretHex commitment : value) : value :=
  VObj [("secret_hex", secretHex); ("commitment", commitment)].

(** [{ commitment, proof }] *)
Definition verify_payload (commitment proof : value) : value :=
  VObj [("commitment", commitment); ("proof", proof)].

(** *** waitForServer *)

(** [e.response] *)
Definition error_response (e : error) : option response :=
  match e with
  | AxiosError _ r => r
  | _ => None
  end.

(** How one turn of the loop body ends. *)
Inductive turn : Type := Returned | Continue.

(** The [for] loop from attempt [i], with [remaining] turns left before
    [i <= maxAttempts] fails ([i + remaining = maxAttempts + 1]). *)
Fixpoint waitForServer_from (remaining i maxAttempts : nat) (delayMs : Z)
  : M World unit :=
  match remaining with
  | O => ret tt
  | S remaining' =>
      t <- try_catch
             ((* await axios.get(BASE_URL).catch(e => e.response); return; *)
              (try_catch (r <- axios_get BASE_URL ;; ret (Some r))
                         (fun e => ret (error_response e))) ;;;
              ret Returned)
             (fun _ =>
                if Nat.eqb i maxAttempts
                then throw (Error ("Server not reachable at " ++ BASE_URL)%string)
                else sleep delayMs ;;; ret Continue) ;;
      match t with
      | Returned => ret tt
      | Continue => waitForServer_from remaining' (S i) maxAttempts delayMs
      end
  end.

Definition waitForServer (maxAttempts : nat) (delayMs : Z) : M World unit :=
  waitForServer_from maxAttempts 1 maxAttempts delayMs.

(** *** findServerPid *)

Definition execPromise (cmd : string) : M World string :=
  emit (Exec cmd) ;;;
  match child_exec env cmd with
  | Some stdout => ret stdout
  | None => throw ExecError
  end.

(** The result is [None] for [null] and the parsed integer otherwise. *)
Definition findServerPid : M World (option Z) :=
  try_catch
    (url <- match new_URL env BASE_URL with
            | Some u => ret u
            | None => throw (TypeError "Invalid URL")
            end ;;
     let port :=
       if negb (String.eqb (Url.port url) EmptyString) then Url.port url
       else if String.eqb (Url.protocol url) "https:" then "443" else "80" in
     stdout <- execPromise ("lsof -i :" ++ port ++ " -t | head -n1")%string ;;
     let pid := parseInt (trim stdout) in
     ret pid)
    (fun _ => ret None).

(** [if (serverPid)]: [null] and [0] are falsy. *)
Definition pid_truthy (p : option Z) : bool :=
  match p with
  | Some z => negb (Z.eqb z 0)
  | None => false
  end.

(** *** startResourceMonitor *)

Definition startResourceMonitor (pid : Z) : M World Monitor.state :=
  emit (SetInterval SAMPLE_INTERVAL_MS pid) ;;;
  ret (Monitor.start pid).

(** [monitor.stop()] *)
Definition monitor_stop (m : Monitor.state) : M World Monitor.state :=
  emit ClearInterval ;;;
  ret (Monitor.stop m).

(** *** runAutocannon *)

(** autocannon builds each request it sends from its element of
    [requests], calling [setupRequest] when the element has one. *)
Definition resolve (r : RequestSpec.t) : M World Request.t :=
  match RequestSpec.setupRequest r with
  | Some f => f (RequestSpec.request r)
  | None => ret (RequestSpec.request r)
  end.

(** The [n] requests of a run, the [k]-th one built from the element
    [k mod length requests] (every [requests] of this script has one
    element). *)
Fixpoint issue (n k : nat) (requests : list RequestSpec.t) : M World unit :=
  match n with
  | O => ret tt
  | S n' =>
      match nth_error requests (k mod List.length requests) with
      | Some r => (req <- resolve r ;; emit (LoadRequest req))
      | None => ret tt
      end ;;;
      issue n' (S k) requests
  end.

(** [runAutocannon(opts)], with [{ url: BASE_URL, ...opts }].  What
    [autocannon.track] prints by itself is not part of the trace. *)
Definition runAutocannon (connections duration : Z)
           (requests : list RequestSpec.t) : M World AcResult.t :=
  let opts := {| AcOpts.url := BASE_URL;
                 AcOpts.connections := connections;
                 AcOpts.duration := duration;
                 AcOpts.requests := requests |} in
  emit (AutocannonStart BASE_URL connections duration) ;;;
  issue (AcRun.issued (autocannon env opts)) 0 requests ;;;
  match AcRun.outcome (autocannon env opts) with
  | Some r => ret r
  | None => throw AutocannonError
  end.

(** The callbacks of the monitor's timer that run while [main] is
    suspended in [await runAutocannon(...)]. *)
Definition during_run (connections duration : Z)
           (requests : list RequestSpec.t) (m : Monitor.state)
  : Monitor.state :=
  Monitor.run
    (AcRun.background
       (autocannon env {| AcOpts.url := BASE_URL;
                          AcOpts.connections := connections;
                          AcOpts.duration := duration;
                          AcOpts.requests := requests |}))
    m.

(** *** main *)

Definition nl : string := String (ascii_of_nat 10) EmptyString.

(** The [try] block that computes the secret, the commitment and the
    proof, with its [catch]. *)
Definition preflight : M World (value * value * value) :=
  try_catch
    (user <- buildUser ;;
     reg <- axios_post (BASE_URL ++ "/register")%string user ;;
     secretHex <- lift (get (data reg) "secret") ;;
     commitment <- lift (get (data reg) "commitment") ;;
     prf <- axios_post (BASE_URL ++ "/proof")%string
              (proof_payload secretHex commitment) ;;
     proof <- lift (get (data prf) "proof") ;;
     verResp <- axios_post (BASE_URL ++ "/verify")%string
                  (verify_payload commitment proof) ;;
     valid <- lift (get (data verResp) "valid") ;;
     if negb (to_boolean valid)
     then throw (Error "Initial verification failed; proof or commitment invalid")
     else ret (secretHex, commitment, proof))
    (fun e =>
       console_error
         [LStr "❌  Failed to pre‑compute proof / verification payloads"] ;;;
       throw e).

Definition json_headers : list (string * string) :=
  [("Content-Type", "application/json")].

Definition endpoints (secretHex commitment proof : value)
  : list Endpoint.t :=
  [ {| Endpoint.name := "register";
       Endpoint.requests :=
         [ {| RequestSpec.request :=
                {| Request.method := "POST";
                   Request.path := "/register";
                   Request.headers := json_headers;
                   Request.body := None |};
              RequestSpec.setupRequest :=
                Some (fun req =>
                        user <- buildUser ;;
                        ret {| Request.method := Request.method req;
                               Request.path := Request.path req;
                               Request.headers := Request.headers req;
                               Request.body := Some (JSON_stringify user) |}) |} ] |};
    {| Endpoint.name := "generateProof";
       Endpoint.requests :=
         [ {| RequestSpec.request :=
                {| Request.method := "POST";
                   Request.path := "/proof";
                   Request.headers := json_headers;
                   Request.body :=
                     Some (JSON_stringify
                             (proof_payload secretHex commitment)) |};
              RequestSpec.setupRequest := None |} ] |};
    {| Endpoint.name := "verifyProof";
       Endpoint.requests :=
         [ {| RequestSpec.request :=
                {| Request.method := "POST";
                   Request.path := "/verify";
                   Request.headers := json_headers;
                   Request.body :=
                     Some (JSON_stringify
                             (verify_payload commitment proof)) |};
              RequestSpec.setupRequest := None |} ] |} ].

(** [result.latency.p50 || result.latency.median || result.latency.mean] *)
Definition latencyP50 (l : Latency.t) : option number :=
  Js.or (Js.or (Latency.p50 l) (Latency.median l)) (Latency.mean l).

(** The record pushed at the end of a phase. *)
Definition summary (ep : Endpoint.t) (c : Z) (result : AcResult.t)
           (avg : option Usage.t) : Summary.t :=
  {| Summary.endpoint := Endpoint.name ep;
     Summary.concurrency := c;
     Summary.latencyAvg := Latency.average (AcResult.latency result);
     Summary.latencyP50 := latencyP50 (AcResult.latency result);
     Summary.throughputAvg := AcResult.throughput_average result;
     Summary.requestsPerSec := AcResult.requests_average result;
     Summary.cpu := match avg with Some a => Some (Usage.cpu a) | None => None end;
     Summary.memory := match avg with Some a => Some (Usage.memory a) | None => None end |}.

(** The body of the inner loop: one load phase. *)
Definition phase (serverPid : option Z) (ep : Endpoint.t) (c : Z)
  : M World unit :=
  console_log [LStr "   – concurrency "; LInt c; LStr " for ";
               LInt TEST_DURATION; LStr "s"] ;;;
  monitor <- match serverPid with
             | Some p =>
                 if pid_truthy serverPid
                 then (m <- startResourceMonitor p ;; ret (Some m))
                 else ret None
             | None => ret None
             end ;;
  result <- runAutocannon c TEST_DURATION (Endpoint.requests ep) ;;
  let monitor :=
    option_map (during_run c TEST_DURATION (Endpoint.requests ep)) monitor in
  monitor <- match monitor with
             | Some m => (m' <- monitor_stop m ;; ret (Some m'))
             | None => ret None
             end ;;
  let avg := match monitor with
             | Some m => computeAverages (Monitor.samples m)
             | None => None
             end in
  summaries_push (summary ep c result avg).

(** The two nested loops. *)
Definition sweep (serverPid : option Z) (eps : list Endpoint.t)
  : M World unit :=
  for_of eps (fun ep =>
    console_log [LStr nl; LStr "▶  Endpoint: "; LStr (Endpoint.name ep)] ;;;
    for_of CONCURRENCY_LEVELS (fun c => phase serverPid ep c)).

(** [x.toFixed(2)] where [x] may be [undefined]. *)
Definition toFixed2 (x : option number) : M World LogArg :=
  match x with
  | Some v => ret (LFixed2 v)
  | None => throw (TypeError "Cannot read properties of undefined (reading 'toFixed')")
  end.

Definition print_summary (s : Summary.t) : M World unit :=
  console_log [LStr nl; LStr (Summary.endpoint s); LStr "  (concurrency ";
               LInt (Summary.concurrency s); LStr ")"] ;;;
  console_log [LStr "  Avg latency  :"; LFixed2 (Summary.latencyAvg s); LStr "ms"] ;;;
  p50 <- toFixed2 (Summary.latencyP50 s) ;;
  console_log [LStr "  P50 latency  :"; p50; LStr "ms"] ;;;
  console_log [LStr "  Throughput   :";
               LFixed2 (Summary.throughputAvg s / 1024 / 1024)%float;
               LStr "MB/s"] ;;;
  console_log [LStr "  Requests/sec :"; LFixed2 (Summary.requestsPerSec s)] ;;;
  match Summary.cpu s with
  | Some cpu =>
      console_log [LStr "  CPU (avg)    :"; LFixed2 cpu; LStr "%"] ;;;
      console_log [LStr "  Memory (avg) :";
                   LFixed2 (match Summary.memory s with
                            | Some m => m
                            | None => 0 (* null / 1024 *)
                            end / 1024 / 1024)%float;
                   LStr "MB"]
  | None => console_log [LStr "  CPU/memory   : n/a"]
  end.

Definition print_table : M World unit :=
  console_log [LStr nl;
               LStr "====================== Benchmark results ======================"] ;;;
  (fun w => for_of (summaries w) print_summary w) ;;;
  console_log [LStr nl; LStr "Benchmark completed ✅"].

(** "run all benchmarks": the lookup of the server's process and the
    two loops. *)
Definition run_all_benchmarks (eps : list Endpoint.t) : M World unit :=
  serverPid <- findServerPid ;;
  match serverPid with
  | Some p =>
      if pid_truthy serverPid
      then console_log [LStr "Monitoring server PID "; LInt p;
                        LStr " for CPU/memory …"]
      else console_warn [LStr "Server PID not found – CPU/memory stats will be “n/a”."]
  | None =>
      console_warn [LStr "Server PID not found – CPU/memory stats will be “n/a”."]
  end ;;;
  sweep serverPid eps.

(** The statements of [main] before the preflight. *)
Definition startup : M World unit :=
  console_log [LStr "Waiting for "; LStr BASE_URL; LStr " …"] ;;;
  waitForServer 30 1000 ;;;
  console_log [LStr "Server is up, pre‑computing proof/verification payloads …"].

Definition main : M World unit :=
  startup ;;;
  fixture <- preflight ;;
  let '(secretHex, commitment, proof) := fixture in
  run_all_benchmarks (endpoints secretHex commitment proof) ;;;
  print_table.

(** The whole script: [main().catch(err => { console.error(err);
    process.exit(1) })], from the initial world. *)
Definition run : result unit * World :=
  try_catch main
            (fun err => console_error [LErr err] ;;; emit (ProcessExit 1))
            initial.

End Script.

(** *** Observations on a finished run *)

Definition is_exit (e : Event) : bool :=
  match e with ProcessExit _ => true | _ => false end.

(** The exit status: the code given to [process.exit], 0 when the script
    runs to its end. *)
Definition exit_status (w : World) : Z :=
  match find is_exit (events w) with
  | Some (ProcessExit code) => code
  | _ => 0%Z
  end.

Definition is_load (e : Event) : bool :=
  match e with
  | AutocannonStart _ _ _ | LoadRequest _ => true
  | _ => false
  end.

Definition is_monitor_start (e : Event) : bool :=
  match e with SetInterval _ _ => true | _ => false end.

(** The events that neither send a load request, nor touch the monitor's
    timer, nor end the process. *)
Definition plain_event (e : Event) : bool :=
  match e with
  | ConsoleLog _ | ConsoleWarn _ | ConsoleError _
  | HttpGet _ | HttpPost _ _ | SetTimeout _ | Exec _
  | AutocannonStart _ _ _ => true
  | SetInterval _ _ | ClearInterval | LoadRequest _ | ProcessExit _ => false
  end.

(** Every event so far satisfies [okE] and every summary pushed so far
    satisfies [okS]. *)
Definition local (okE : Event -> Prop) (okS : Summary.t -> Prop)
           (w : World) : Prop :=
  Forall okE (events w) /\ Forall okS (summaries w).

Definition is_post (e : Event) : bool :=
  match e with HttpPost _ _ => true | _ => false end.

(** [I] does not depend on the count of random draws. *)
Definition random_free (I : World -> Prop) : Prop :=
  forall w n,
    I w ->
    I {| events := events w; summaries := summaries w;
         random_calls := n; get_calls := get_calls w |}.

End Bench.

(* ================================================================== *)
(** * The k6 script of the staged load profile *)
(* ================================================================== *)

Module K6.

Module Res.
(** What the script reads of a k6 response: [status],
    [timings.duration] and what [json()] does (it throws on a body that
    is not JSON). *)
Record t : Type :=
  { status : Z;
    duration : number;
    json : result value }.
End Res.

Inductive Event : Type :=
| HttpPost (url : string) (body : jsonText) (headers : list (string * string))
| Checked (label : string) (pass : bool)
| TrendAdd (trend : string) (x : number)
| Sleep (seconds : number).

Definition World : Type := list Event.

Record Env : Type :=
  { ENV_PACE_MS : option string;     (* __ENV.PACE_MS *)
    to_number : string -> number;    (* the conversion done by [* 1] *)
    VU : string;                     (* `${__VU}` *)
    Date_now : string;               (* `${Date.now()}` *)
    Math_random : string;            (* `${Math.random()}` *)
    http_post : string -> value -> Res.t }.

(** The names given to [new Trend(...)]. *)
Definition regTrend : string := "register_latency".
Definition proofTrend : string := "proof_latency".
Definition verTrend : string := "verify_latency".

Section Script.

Variable env : Env.

(** [(__ENV.PACE_MS || 100) * 1] *)
Definition PACE_MS : number :=
  match ENV_PACE_MS env with
  | Some s =>
      if String.eqb s EmptyString then (100 * 1)%float
      else (to_number env s * 1)%float
  | None => (100 * 1)%float
  end.

Definition emit (e : Event) : M World unit :=
  fun w => (Ret tt, w ++ [e]).

Definition sleep (seconds : number) : M World unit := emit (Sleep seconds).

(** [null] is [None]. *)
Definition postJson (url : string) (body : value) (trend : option string)
           (label : string) : M World (option Res.t) :=
  emit (HttpPost url (JSON_stringify body)
                 [("Content-Type", "application/json")]) ;;;
  let res := http_post env url body in
  let ok := Z.eqb (Res.status res) 200 in
  emit (Checked label ok) ;;;
  match trend with
  | Some t => emit (TrendAdd t (Res.duration res))
  | None => ret tt
  end ;;;
  ret (if ok then Some res else None).

(** [`${__VU}_${Date.now()}_${Math.random()}`] *)
Definition uid : string :=
  (VU env ++ "_" ++ Date_now env ++ "_" ++ Math_random env)%string.

Definition regBody : value :=
  VObj [ ("email", VStr ("u" ++ uid ++ "@x.io")%string);
         ("name", VStr uid);
         ("age", VNum 30%float);
         ("country", VStr "US");
         ("dob", VStr "1990-01-01") ].

(** The function exported as [default]: one iteration. *)
Definition default : M World unit :=
  regRes <- postJson "http://localhost:8080/register" regBody
              (Some regTrend) "register 200" ;;
  match regRes with
  | None => sleep (PACE_MS / 1000)%float
  | Some regRes =>
      reg <- lift (Res.json regRes) ;;
      secret <- lift (get reg "secret") ;;
      commitment <- lift (get reg "commitment") ;;
      proofRes <- postJson "http://localhost:8080/proof"
                    (VObj [("secret_hex", secret); ("commitment", commitment)])
                    (Some proofTrend) "proof 200" ;;
      match proofRes with
      | None => sleep (PACE_MS / 1000)%float
      | Some proofRes =>
          prf <- lift (Res.json proofRes) ;;
          proof <- lift (get prf "proof") ;;
          postJson "http://localhost:8080/verify"
                   (VObj [("commitment", commitment); ("proof", proof)])
                   (Some verTrend) "verify 200" ;;;
          sleep (PACE_MS / 1000)%float
      end
  end.

End Script.

End K6.

(* ================================================================== *)
(** * Definitions that follow the specification's words *)
(* ================================================================== *)

Module Spec.

(** The sum of a list of numbers, added from left to right. *)
Definition sum (xs : list number) : number :=
  fold_left PrimFloat.add xs 0%float.

(** The arithmetic mean: the sum divided by the number of elements. *)
Definition arithmetic_mean (xs : list number) : number :=
  (sum xs / Js.of_nat (List.length xs))%float.

(** "the 50th percentile, falling back to median or mean if the 50th
    percentile is unavailable": the first of the three that is there. *)
Definition first_available (l : Latency.t) : option number :=
  match Latency.p50 l with
  | Some x => Some x
  | None =>
      match Latency.median l with
      | Some m => Some m
      | None => Latency.mean l
      end
  end.

(** A schedule of the monitor's timer in which the lookup of every tick
    settles before the next tick: [outcomes] are the settlements in
    order. *)
Definition ticks (outcomes : list (option Usage.t)) : list Monitor.event :=
  flat_map (fun o => [Monitor.Tick; Monitor.Settle o]) outcomes.

(** The settlements of a schedule, in order. *)
Fixpoint settlements (evs : list Monitor.event) : list (option Usage.t) :=
  match evs with
  | [] => []
  | Monitor.Tick :: rest => settlements rest
  | Monitor.Settle o :: rest => o :: settlements rest
  end.

(** A schedule that can happen when [pending] lookups are in flight:
    every settlement is that of a lookup started by an earlier tick and
    not yet settled.  Lookups may overlap: a tick may come while earlier
    lookups are still in flight. *)
Fixpoint feasible (pending : nat) (evs : list Monitor.event) : bool :=
  match evs with
  | [] => true
  | Monitor.Tick :: rest => feasible (S pending) rest
  | Monitor.Settle _ :: rest =>
      match pending with
      | O => false
      | S k => feasible k rest
      end
  end.

(** The samples among the settlements. *)
Fixpoint successes (outcomes : list (option Usage.t)) : list Usage.t :=
  match outcomes with
  | [] => []
  | Some s :: rest => s :: successes rest
  | None :: rest => successes rest
  end.

(** The ticks of a schedule. *)
Definition count_ticks (evs : list Monitor.event) : nat :=
  List.length (filter (fun ev => match ev with
                                 | Monitor.Tick => true
                                 | Monitor.Settle _ => false
                                 end) evs).

(** Every lookup of the schedule fails. *)
Definition all_fail (evs : list Monitor.event) : Prop :=
  Forall (fun ev => match ev with
                    | Monitor.Settle (Some _) => False
                    | _ => True
                    end) evs.

(** A summary whose resource fields are [null]. *)
Definition resources_absent (s : Summary.t) : Prop :=
  Summary.cpu s = None /\ Summary.memory s = None.

(** No timer of the monitor was ever set, and no summary carries a
    resource figure. *)
Definition never_sampled : Bench.World -> Prop :=
  Bench.local (fun e => Bench.is_monitor_start e = false) resources_absent.

(** *** The preflight chain, as the environment answers it *)

(** axios rejects: there was no response, or its status is not 2xx. *)
Definition request_failed (x : Bench.wire) : Prop :=
  match x with
  | Bench.NoResponse _ => True
  | Bench.Answer r => Bench.validateStatus (status r) = false
  end.

(** axios resolves with [r]. *)
Definition answered (x : Bench.wire) (r : response) : Prop :=
  x = Bench.Answer r /\ Bench.validateStatus (status r) = true.

(** The request fails, or it is answered with a body that is [null] or
    [undefined], of which no property can be read. *)
Definition step_fault (x : Bench.wire) : Prop :=
  request_failed x
  \/ exists r, answered x r /\ (data r = VUndefined \/ data r = VNull).

(** The registration request of the preflight is the first to draw a
    random number. *)
Definition register_answer (env : Bench.Env) : Bench.wire :=
  Bench.http_post env (Bench.BASE_URL env ++ "/register")%string
                  (Bench.user (Bench.math_random_36 env 0)).

Definition proof_answer (env : Bench.Env) (secret commitment : value)
  : Bench.wire :=
  Bench.http_post env (Bench.BASE_URL env ++ "/proof")%string
                  (Bench.proof_payload secret commitment).

Definition verify_answer (env : Bench.Env) (commitment proof : value)
  : Bench.wire :=
  Bench.http_post env (Bench.BASE_URL env ++ "/verify")%string
                  (Bench.verify_payload commitment proof).

(** The registration is answered and [secret] and [commitment] are what
    the script reads in the answer ([VUndefined] for a property that is
    not there). *)
Definition registered (env : Bench.Env) (secret commitment : value) : Prop :=
  exists reg,
    answered (register_answer env) reg
    /\ get (data reg) "secret" = Ret secret
    /\ get (data reg) "commitment" = Ret commitment.

Definition proved (env : Bench.Env) (secret commitment proof : value) : Prop :=
  registered env secret commitment
  /\ exists prf,
       answered (proof_answer env secret commitment) prf
       /\ get (data prf) "proof" = Ret proof.

(** A step of the chain fails: no response, a status that is not 2xx, a
    body that cannot be read, or a verification whose [valid] is falsy
    ([false], or not there). *)
Inductive preflight_fault (env : Bench.Env) : Prop :=
| fault_register :
    step_fault (register_answer env) -> preflight_fault env
| fault_proof secret commitment :
    registered env secret commitment ->
    step_fault (proof_answer env secret commitment) ->
    preflight_fault env
| fault_verify secret commitment proof :
    proved env secret commitment proof ->
    step_fault (verify_answer env commitment proof) ->
    preflight_fault env
| fault_invalid secret commitment proof ver valid :
    proved env secret commitment proof ->
    answered (verify_answer env commitment proof) ver ->
    get (data ver) "valid" = Ret valid ->
    to_boolean valid = false ->
    preflight_fault env.

(** A 2xx answer lacks a property that the script reads for the next
    request. *)
Inductive missing_field (env : Bench.Env) : Prop :=
| missing_secret commitment :
    registered env VUndefined commitment -> missing_field env
| missing_commitment secret :
    registered env secret VUndefined -> missing_field env
| missing_proof secret commitment :
    proved env secret commitment VUndefined -> missing_field env.

(** The failures of the preflight as the specification lists them:
    "network error, non-success status, missing field, or valid=false". *)
Definition claimed_fault (env : Bench.Env) : Prop :=
  preflight_fault env \/ missing_field env.

Definition preflight_failed_message : string :=
  "❌  Failed to pre‑compute proof / verification payloads".

(** The run was aborted on the error [e]: the two messages and
    [process.exit(1)] end the trace, the exit status is 1, no load was
    generated, no timer of the monitor was set and no summary exists. *)
Definition aborted_on (e : error) (w : Bench.World) : Prop :=
  (exists before,
      Bench.events w
      = before ++ [Bench.ConsoleError [Bench.LStr preflight_failed_message];
                   Bench.ConsoleError [Bench.LErr e];
                   Bench.ProcessExit 1])
  /\ Bench.exit_status w = 1%Z
  /\ existsb Bench.is_load (Bench.events w) = false
  /\ existsb Bench.is_monitor_start (Bench.events w) = false
  /\ Bench.summaries w = [].

(** *** The records of a sweep *)

(** The pair that a summary is about. *)
Definition key (s : Summary.t) : string * Z :=
  (Summary.endpoint s, Summary.concurrency s).

Definition keys (w : Bench.World) : list (string * Z) :=
  map key (Bench.summaries w).

(** The pairs of a sweep over the endpoints [eps], in the order of the two
    loops. *)
Definition pairs (eps : list Bench.Endpoint.t) : list (string * Z) :=
  list_prod (map Bench.Endpoint.name eps) Bench.CONCURRENCY_LEVELS.

(** The process was not ended by [process.exit]. *)
Definition no_exit : Bench.World -> Prop :=
  Bench.local (fun e => Bench.is_exit e = false) (fun _ => True).

(** *** The payloads of the load requests *)


(** The bodies of the load requests sent to [/register], in order. *)
Fixpoint register_loads (evs : list Bench.Event) : list (option jsonText) :=
  match evs with
  | [] => []
  | Bench.LoadRequest r :: rest =>
      if String.eqb (Bench.Request.path r) "/register"
      then Bench.Request.body r :: register_loads rest
      else register_loads rest
  | _ :: rest => register_loads rest
  end.





(** *** The text that lsof prints *)

(** [s] without its trailing white space: the second half of [trim]. *)
Definition trim_end (s : string) : string :=
  Bench.reverse (Bench.trim_start (Bench.reverse s)).

(** The character of a decimal digit. *)
Definition digit_char (d : nat) : ascii := ascii_of_nat (48 + d).

(** The text of a sequence of decimal digits, most significant first. *)
Fixpoint digit_text (ds : list nat) : string :=
  match ds with
  | [] => EmptyString
  | d :: rest => String (digit_char d) (digit_text rest)
  end.

(** The number that a sequence of decimal digits denotes, after [acc]. *)
Fixpoint horner (acc : Z) (ds : list nat) : Z :=
  match ds with
  | [] => acc
  | d :: rest => horner (10 * acc + Z.of_nat d) rest
  end.

(** An integer that a binary64 number holds exactly, whatever its low
    bits: those up to 2^53 in absolute value. *)
Definition exact_integer (z : Z) : Prop := (Z.abs z <= 2 ^ 53)%Z.

(** A text of white space only. *)
Definition white (s : string) : Prop :=
  forallb Bench.is_white_space (list_ascii_of_string s) = true.

(** A text that does not go on with a digit. *)
Definition no_digit_ahead (s : string) : Prop :=
  match s with
  | String c _ => Bench.digit c = None
  | EmptyString => True
  end.

(** [url.port || (url.protocol === 'https:' ? '443' : '80')] *)
Definition lsof_port (url : Bench.Url.t) : string :=
  if negb (String.eqb (Bench.Url.port url) EmptyString) then Bench.Url.port url
  else if String.eqb (Bench.Url.protocol url) "https:" then "443" else "80".

Definition lsof_command (url : Bench.Url.t) : string :=
  ("lsof -i :" ++ lsof_port url ++ " -t | head -n1")%string.

(** *** The order of the phases *)

(** The events that start a load run, or set or clear the monitor's
    timer. *)
Definition is_phase_event (e : Bench.Event) : bool :=
  match e with
  | Bench.SetInterval _ _ | Bench.ClearInterval
  | Bench.AutocannonStart _ _ _ => true
  | _ => false
  end.

Definition phase_events (w : Bench.World) : list Bench.Event :=
  filter is_phase_event (Bench.events w).

(** What a phase at concurrency [c] does to the timer and to autocannon,
    when the lookup of the server's process gave [serverPid]. *)
Definition phase_skeleton (env : Bench.Env) (serverPid : option Z) (c : Z)
  : list Bench.Event :=
  match serverPid with
  | Some p =>
      if Bench.pid_truthy serverPid
      then [Bench.SetInterval Bench.SAMPLE_INTERVAL_MS p;
            Bench.AutocannonStart (Bench.BASE_URL env) c Bench.TEST_DURATION;
            Bench.ClearInterval]
      else [Bench.AutocannonStart (Bench.BASE_URL env) c Bench.TEST_DURATION]
  | None => [Bench.AutocannonStart (Bench.BASE_URL env) c Bench.TEST_DURATION]
  end.

(** The same for a sweep over [n] endpoints. *)
Fixpoint sweep_skeleton (env : Bench.Env) (serverPid : option Z) (n : nat)
  : list Bench.Event :=
  match n with
  | O => []
  | S n' =>
      flat_map (phase_skeleton env serverPid) Bench.CONCURRENCY_LEVELS
      ++ sweep_skeleton env serverPid n'
  end.

(** *** The table *)

(** The record has a number for its P50 latency. *)
Definition has_p50 (s : Summary.t) : bool :=
  match Summary.latencyP50 s with
  | Some _ => true
  | None => false
  end.

(** The lines of a record in the table: five, then two for a record with
    CPU and memory figures, one for a record without. *)
Definition rows (s : Summary.t) : nat :=
  match Summary.cpu s with
  | Some _ => 7
  | None => 6
  end.

(** *** Load *)

(** Some load was started or sent. *)
Definition loaded (w : Bench.World) : Prop :=
  existsb Bench.is_load (Bench.events w) = true.

(** *** The outcome of the load runs *)

(** What [runAutocannon] gives to autocannon in the phase of the endpoint
    [ep] at concurrency [c]. *)
Definition load_opts (env : Bench.Env) (ep : Bench.Endpoint.t) (c : Z)
  : Bench.AcOpts.t :=
  {| Bench.AcOpts.url := Bench.BASE_URL env;
     Bench.AcOpts.connections := c;
     Bench.AcOpts.duration := Bench.TEST_DURATION;
     Bench.AcOpts.requests := Bench.Endpoint.requests ep |}.

(** The result of that run, [None] when autocannon reports an error. *)
Definition load_result (env : Bench.Env) (p : Bench.Endpoint.t * Z)
  : option AcResult.t :=
  Bench.AcRun.outcome (Bench.autocannon env (load_opts env (fst p) (snd p))).

Definition ended (o : option AcResult.t) : bool :=
  match o with
  | Some _ => true
  | None => false
  end.

(** The run ended with a result in which the [||] chain of the P50
    latency finds a number. *)
Definition usable (o : option AcResult.t) : bool :=
  match o with
  | Some r =>
      match Bench.latencyP50 (AcResult.latency r) with
      | Some _ => true
      | None => false
      end
  | None => false
  end.

(** The phases of a sweep, in the order of the two loops. *)
Definition phases (eps : list Bench.Endpoint.t)
  : list (Bench.Endpoint.t * Z) :=
  flat_map (fun ep => map (pair ep) Bench.CONCURRENCY_LEVELS) eps.

Definition all_loads_usable (env : Bench.Env) (eps : list Bench.Endpoint.t)
  : bool :=
  forallb (fun p => usable (load_result env p)) (phases eps).

(** *** The iteration of the k6 script *)

Definition k6_is_post (e : K6.Event) : bool :=
  match e with K6.HttpPost _ _ _ => true | _ => false end.

Definition k6_is_check (e : K6.Event) : bool :=
  match e with K6.Checked _ _ => true | _ => false end.

Definition k6_is_trend (e : K6.Event) : bool :=
  match e with K6.TrendAdd _ _ => true | _ => false end.

Definition k6_is_sleep (e : K6.Event) : bool :=
  match e with K6.Sleep _ => true | _ => false end.

Definition count (p : K6.Event -> bool) (evs : list K6.Event) : nat :=
  List.length (filter p evs).

(** The body of the response cannot be destructured: [json()] throws, or
    gives [null] or [undefined]. *)
Definition unreadable (res : K6.Res.t) : Prop :=
  match K6.Res.json res with
  | Throw _ => True
  | Ret j => j = VUndefined \/ j = VNull
  end.

End Spec.

(* ================================================================== *)
(** * Concrete inputs *)
(* ================================================================== *)

Module Examples.

Definition sample (c m : number) : Usage.t :=
  {| Usage.cpu := c; Usage.memory := m |}.

Definition three_samples : list Usage.t :=
  [sample 10 100; sample 20 200; sample 30 600]%float.

(** A latency whose 50th percentile is there and is 0. *)
Definition zero_p50 : Latency.t :=
  {| Latency.average := 7%float;
     Latency.p50 := Some 0%float;
     Latency.median := Some 5%float;
     Latency.mean := Some 7%float |}.

Definition plain_latency : Latency.t :=
  {| Latency.average := 2.5%float;
     Latency.p50 := Some 2%float;
     Latency.median := None;
     Latency.mean := Some 2.5%float |}.

Definition median_only : Latency.t :=
  {| Latency.average := 2.5%float;
     Latency.p50 := None;
     Latency.median := Some 3%float;
     Latency.mean := Some 2.5%float |}.

Definition mean_only : Latency.t :=
  {| Latency.average := 2.5%float;
     Latency.p50 := None;
     Latency.median := None;
     Latency.mean := Some 2.5%float |}.

(** *** Environments of bench.js *)

Definition ok_result : AcResult.t :=
  {| AcResult.latency := plain_latency;
     AcResult.throughput_average := 1048576%float;
     AcResult.requests_average := 10%float |}.

(** Three ticks of the monitor during a run: one sample, one failed
    lookup and one lookup still in flight when the run ends. *)
Definition some_background : list Monitor.event :=
  [Monitor.Tick; Monitor.Settle (Some (sample 10 100)%float);
   Monitor.Tick; Monitor.Settle None; Monitor.Tick].

Definition two_requests_each (o : Bench.AcOpts.t) : Bench.AcRun.t :=
  {| Bench.AcRun.issued := 2;
     Bench.AcRun.background := some_background;
     Bench.AcRun.outcome := Some ok_result |}.

Definition answer (st : Z) (fields : list (string * value)) : Bench.wire :=
  Bench.Answer {| status := st; data := VObj fields |}.

(** A service that registers, proves and verifies. *)
Definition good_service (url : string) (body : value) : Bench.wire :=
  if String.eqb url "http://localhost:8080/register"
  then answer 200 [("secret", VStr "0xAA"); ("commitment", VStr "123")]
  else if String.eqb url "http://localhost:8080/proof"
       then answer 200 [("proof", VStr "pi")]
       else answer 200 [("valid", VBool true)].

(** A service whose registration answers 200 with neither [secret] nor
    [commitment], and which proves and verifies all the same. *)
Definition forgetful_service (url : string) (body : value) : Bench.wire :=
  if String.eqb url "http://localhost:8080/register"
  then answer 200 []
  else if String.eqb url "http://localhost:8080/proof"
       then answer 200 [("proof", VStr "pi")]
       else answer 200 [("valid", VBool true)].

(** A service whose verification answers [{ valid: false }]. *)
Definition rejecting_service (url : string) (body : value) : Bench.wire :=
  if String.eqb url "http://localhost:8080/verify"
  then answer 200 [("valid", VBool false)]
  else good_service url body.

(** A service whose proof endpoint answers 500. *)
Definition failing_proof_service (url : string) (body : value) : Bench.wire :=
  if String.eqb url "http://localhost:8080/proof"
  then answer 500 [("error", VStr "boom")]
  else good_service url body.

Definition local_url (s : string) : option Bench.Url.t :=
  Some {| Bench.Url.port := "8080"; Bench.Url.protocol := "http:" |}.

(** The k-th random draw: ["0.r"] followed by [k] letters ["x"]. *)
Fixpoint xs (k : nat) : string :=
  match k with
  | O => EmptyString
  | S k' => String "x"%char (xs k')
  end.

Definition draws (k : nat) : string := ("0.r" ++ xs k)%string.

(** The server answers every GET, lsof prints its pid. *)
Definition env_up : Bench.Env :=
  {| Bench.env_BASE_URL := None;
     Bench.math_random_36 := draws;
     Bench.http_get := fun _ _ => answer 404 [];
     Bench.http_post := good_service;
     Bench.new_URL := local_url;
     Bench.child_exec := fun _ => Some ("4242" ++ Bench.nl)%string;
     Bench.autocannon := two_requests_each |}.

(** Nothing listens: no request gets a response, lsof prints nothing. *)
Definition env_down : Bench.Env :=
  {| Bench.env_BASE_URL := None;
     Bench.math_random_36 := draws;
     Bench.http_get := fun _ _ => Bench.NoResponse "ECONNREFUSED";
     Bench.http_post := fun _ _ => Bench.NoResponse "ECONNREFUSED";
     Bench.new_URL := local_url;
     Bench.child_exec := fun _ => Some EmptyString;
     Bench.autocannon := two_requests_each |}.

Definition with_service (post : string -> value -> Bench.wire) : Bench.Env :=
  {| Bench.env_BASE_URL := None;
     Bench.math_random_36 := draws;
     Bench.http_get := fun _ _ => answer 200 [];
     Bench.http_post := post;
     Bench.new_URL := local_url;
     Bench.child_exec := fun _ => Some ("4242" ++ Bench.nl)%string;
     Bench.autocannon := two_requests_each |}.

Definition env_forgetful : Bench.Env := with_service forgetful_service.
Definition env_rejecting : Bench.Env := with_service rejecting_service.
Definition env_failing_proof : Bench.Env := with_service failing_proof_service.

(** The server is up and lsof finds no listening process. *)
Definition env_no_pid : Bench.Env :=
  {| Bench.env_BASE_URL := None;
     Bench.math_random_36 := draws;
     Bench.http_get := fun _ _ => answer 200 [];
     Bench.http_post := good_service;
     Bench.new_URL := local_url;
     Bench.child_exec := fun _ => Some Bench.nl;
     Bench.autocannon := two_requests_each |}.

(** *** Environments of the k6 script *)

Definition k6_response (st : Z) (ms : number) (fields : list (string * value))
  : K6.Res.t :=
  {| K6.Res.status := st; K6.Res.duration := ms;
     K6.Res.json := Ret (VObj fields) |}.

(** A service that answers the three steps with the given statuses. *)
Definition k6_env (reg prf ver : Z) : K6.Env :=
  {| K6.ENV_PACE_MS := None;
     K6.to_number := fun _ => 0%float;
     K6.VU := "7";
     K6.Date_now := "1700000000000";
     K6.Math_random := "0.25";
     K6.http_post := fun url _ =>
       if String.eqb url "http://localhost:8080/register"
       then k6_response reg 12%float [("secret", VStr "0xAA"); ("commitment", VStr "123")]
       else if String.eqb url "http://localhost:8080/proof"
            then k6_response prf 340%float [("proof", VStr "pi")]
            else k6_response ver 25%float [("valid", VBool true)] |}.

(** lsof prints the pid 0. *)
Definition env_pid_zero : Bench.Env :=
  {| Bench.env_BASE_URL := None;
     Bench.math_random_36 := draws;
     Bench.http_get := fun _ _ => answer 200 [];
     Bench.http_post := good_service;
     Bench.new_URL := local_url;
     Bench.child_exec := fun _ => Some ("0" ++ Bench.nl)%string;
     Bench.autocannon := two_requests_each |}.

(** The second endpoint of a run against [env_up]. *)
Definition proof_endpoint : Bench.Endpoint.t :=
  nth 1 (Bench.endpoints env_up (VStr "0xAA") (VStr "123") (VStr "pi"))
      {| Bench.Endpoint.name := EmptyString; Bench.Endpoint.requests := [] |}.

(** *** Environments with a given latency measurement *)

(** A measurement whose 50th percentile is 0, whose median is absent and
    whose mean is 0. *)
Definition zero_p50_zero_mean : Latency.t :=
  {| Latency.average := 0%float;
     Latency.p50 := Some 0%float;
     Latency.median := None;
     Latency.mean := Some 0%float |}.

Definition result_with (l : Latency.t) : AcResult.t :=
  {| AcResult.latency := l;
     AcResult.throughput_average := 1048576%float;
     AcResult.requests_average := 10%float |}.

(** As [env_up], every load run measuring the latency [l]. *)
Definition env_with_latency (l : Latency.t) : Bench.Env :=
  {| Bench.env_BASE_URL := None;
     Bench.math_random_36 := draws;
     Bench.http_get := fun _ _ => answer 404 [];
     Bench.http_post := good_service;
     Bench.new_URL := local_url;
     Bench.child_exec := fun _ => Some ("4242" ++ Bench.nl)%string;
     Bench.autocannon := fun _ =>
       {| Bench.AcRun.issued := 2;
          Bench.AcRun.background := some_background;
          Bench.AcRun.outcome := Some (result_with l) |} |}.

End Examples.

(* ================================================================== *)
(** * Properties *)
(* ================================================================== *)

Import Bench.

(** ** Numbers *)

(** Two values that a boolean test tells apart are different. *)
Lemma told_apart {A : Type} (f : A -> bool) (x y : A) :
  f x <> f y -> x <> y.
Proof. intros Hf Heq. apply Hf. now rewrite Heq. Qed.

Lemma Some_number_inj (x y : number) : Some x = Some y -> x = y.
Proof.
  intros H.
  exact (f_equal (fun o => match o with Some z => z | None => x end) H).
Qed.

(** [x] is the one of the two optional numbers that is [Some x]. *)
Ltac numbers_differ x :=
  apply (told_apart
           (fun o => match o with
                     | Some y => PrimFloat.eqb y x
                     | None => false
                     end));
  vm_compute; discriminate.

(** ** computeAverages *)

Section ComputeAverages.

Let add_usage (a s : Usage.t) : Usage.t :=
  {| Usage.cpu := (Usage.cpu a + Usage.cpu s)%float;
     Usage.memory := (Usage.memory a + Usage.memory s)%float |}.

(** The reduction over records is the pair of the two reductions over
    the fields. *)
Lemma reduce_fields (samples : list Usage.t) (c m : number) :
  fold_left add_usage samples {| Usage.cpu := c; Usage.memory := m |}
  = {| Usage.cpu := fold_left PrimFloat.add (map Usage.cpu samples) c;
       Usage.memory := fold_left PrimFloat.add (map Usage.memory samples) m |}.
Proof.
  revert c m.
  induction samples as [|s samples IH]; intros c m; simpl.
  - reflexivity.
  - apply IH.
Qed.

Lemma computeAverages_nonempty (s : Usage.t) (samples : list Usage.t) :
  computeAverages (s :: samples)
  = Some {| Usage.cpu := Spec.arithmetic_mean (map Usage.cpu (s :: samples));
            Usage.memory := Spec.arithmetic_mean (map Usage.memory (s :: samples)) |}.
Proof.
  unfold computeAverages.
  change (Nat.eqb (List.length (s :: samples)) 0) with false.
  cbv iota.
  change (fun a s0 : Usage.t =>
            {| Usage.cpu := (Usage.cpu a + Usage.cpu s0)%float;
               Usage.memory := (Usage.memory a + Usage.memory s0)%float |})
    with add_usage.
  rewrite reduce_fields.
  unfold Spec.arithmetic_mean, Spec.sum.
  now rewrite !length_map.
Qed.

End ComputeAverages.

(** C3: [computeAverages] returns [null] on the empty list and otherwise
    the record of the arithmetic means of the [cpu] and of the [memory]
    fields; a summary built from the empty list has [null] in both resource
    fields, one built from a non-empty list has the two means.  The result is
    a function of the list alone: the embedding of [computeAverages] takes
    no world and returns none, as the source reads [samples] and writes
    nothing. *)
Theorem C3_computeAverages_is_the_mean :
  forall samples : list Usage.t,
    computeAverages samples
    = match samples with
      | [] => None
      | _ :: _ =>
          Some {| Usage.cpu := Spec.arithmetic_mean (map Usage.cpu samples);
                  Usage.memory := Spec.arithmetic_mean (map Usage.memory samples) |}
      end
    /\ (forall ep c result,
          let s := summary ep c result (computeAverages samples) in
          match samples with
          | [] => Summary.cpu s = None /\ Summary.memory s = None
          | _ :: _ =>
              Summary.cpu s = Some (Spec.arithmetic_mean (map Usage.cpu samples))
              /\ Summary.memory s
                 = Some (Spec.arithmetic_mean (map Usage.memory samples))
          end)
    /\ (forall samples' : list Usage.t,
          samples' = samples -> computeAverages samples' = computeAverages samples).
Proof.
  intros samples. split; [|split].
  - destruct samples as [|s samples].
    + reflexivity.
    + apply computeAverages_nonempty.
  - intros ep c result. destruct samples as [|s samples].
    + split; reflexivity.
    + cbv zeta. rewrite computeAverages_nonempty. split; reflexivity.
  - intros samples' ->. reflexivity.
Qed.

(** The mean of 10, 20, 30 is 20 and that of 100, 200, 600 is 300. *)
Example computeAverages_three :
  computeAverages Examples.three_samples = Some (Examples.sample 20 300)%float.
Proof. reflexivity. Qed.

(** The same list, obtained by reversing it twice, has the same averages. *)
Lemma C3_witness :
  computeAverages (rev (rev Examples.three_samples))
  = Some (Examples.sample 20 300)%float.
Proof.
  rewrite (proj2 (proj2 (C3_computeAverages_is_the_mean Examples.three_samples))
             (rev (rev Examples.three_samples)) eq_refl).
  reflexivity.
Defined.

(** ** The reported 50th percentile *)

Lemma or_truthy (a b : option number) :
  opt_truthy a = true -> Js.or a b = a.
Proof. unfold Js.or. now intros ->. Qed.

Lemma or_falsy (a b : option number) :
  opt_truthy a = false -> Js.or a b = b.
Proof. unfold Js.or. now intros ->. Qed.

(** The [||] chain, case by case. *)
Lemma latencyP50_cases (l : Latency.t) :
  latencyP50 l
  = if opt_truthy (Latency.p50 l) then Latency.p50 l
    else if opt_truthy (Latency.median l) then Latency.median l
         else Latency.mean l.
Proof.
  unfold latencyP50.
  destruct (opt_truthy (Latency.p50 l)) eqn:Hp.
  - rewrite (or_truthy _ _ Hp). now rewrite (or_truthy _ _ Hp).
  - rewrite (or_falsy _ (Latency.median l) Hp).
    destruct (opt_truthy (Latency.median l)) eqn:Hm.
    + now rewrite or_truthy.
    + now rewrite or_falsy.
Qed.

(** Where what is available is neither 0 nor NaN, the chain is the
    specification's "first available". *)
Lemma latencyP50_first_available (l : Latency.t) :
  (forall x, Latency.p50 l = Some x -> number_truthy x = true) ->
  (forall m, Latency.median l = Some m -> number_truthy m = true) ->
  latencyP50 l = Spec.first_available l.
Proof.
  intros Hp Hm. rewrite latencyP50_cases. unfold Spec.first_available.
  destruct (Latency.p50 l) as [x|] eqn:Ep; simpl.
  - now rewrite (Hp x eq_refl).
  - destruct (Latency.median l) as [m|] eqn:Em; simpl.
    + now rewrite (Hm m eq_refl).
    + reflexivity.
Qed.

(** ** The resource monitor *)

Lemma callback_never_throws (o : option Usage.t) (arr : list Usage.t) :
  Monitor.callback o arr
  = (Ret tt, match o with Some s => arr ++ [s] | None => arr end).
Proof. destruct o; reflexivity. Qed.

Lemma step_crashed (m : Monitor.state) (ev : Monitor.event) :
  Monitor.crashed (Monitor.step m ev) = Monitor.crashed m.
Proof.
  destruct ev as [|o]; simpl.
  - now destruct (Monitor.active m).
  - destruct (Monitor.pending m); [reflexivity|].
    now rewrite callback_never_throws.
Qed.

Lemma run_crashed (evs : list Monitor.event) (m : Monitor.state) :
  Monitor.crashed (Monitor.run evs m) = Monitor.crashed m.
Proof.
  unfold Monitor.run. revert m.
  induction evs as [|ev evs IH]; intros m; simpl.
  - reflexivity.
  - now rewrite IH, step_crashed.
Qed.

(** One tick whose lookup settles at once. *)
Lemma tick_then_settle (o : option Usage.t) (m : Monitor.state) :
  Monitor.active m = true ->
  Monitor.step (Monitor.step m Monitor.Tick) (Monitor.Settle o)
  = {| Monitor.pid := Monitor.pid m;
       Monitor.active := true;
       Monitor.pending := Monitor.pending m;
       Monitor.samples :=
         match o with
         | Some s => Monitor.samples m ++ [s]
         | None => Monitor.samples m
         end;
       Monitor.crashed := Monitor.crashed m |}.
Proof.
  intros Hact. unfold Monitor.step at 2. rewrite Hact. simpl.
  now rewrite callback_never_throws.
Qed.

Lemma run_ticks (outcomes : list (option Usage.t)) (m : Monitor.state) :
  Monitor.active m = true ->
  Monitor.run (Spec.ticks outcomes) m
  = {| Monitor.pid := Monitor.pid m;
       Monitor.active := true;
       Monitor.pending := Monitor.pending m;
       Monitor.samples := Monitor.samples m ++ Spec.successes outcomes;
       Monitor.crashed := Monitor.crashed m |}.
Proof.
  revert m.
  induction outcomes as [|o outcomes IH]; intros m Hact.
  - simpl. rewrite app_nil_r. destruct m; simpl in *. now subst.
  - change (Monitor.run (Spec.ticks (o :: outcomes)) m)
      with (Monitor.run (Spec.ticks outcomes)
              (Monitor.step (Monitor.step m Monitor.Tick) (Monitor.Settle o))).
    rewrite (tick_then_settle o m Hact), IH by reflexivity.
    simpl. destruct o as [s|]; simpl.
    + now rewrite <- app_assoc.
    + reflexivity.
Qed.

(** Failed lookups leave the samples as they are. *)
Lemma run_all_fail (evs : list Monitor.event) (m : Monitor.state) :
  Spec.all_fail evs ->
  Monitor.samples (Monitor.run evs m) = Monitor.samples m.
Proof.
  unfold Monitor.run. intros Hall. revert m.
  induction Hall as [|ev evs Hev _ IH]; intros m; simpl.
  - reflexivity.
  - rewrite IH. destruct ev as [|[s|]]; simpl.
    + now destruct (Monitor.active m).
    + contradiction.
    + now destruct (Monitor.pending m).
Qed.

(** Whatever the schedule, a tick gives at most one sample: the samples
    and the lookups in flight are at most the ticks. *)
Lemma run_at_most_one_per_tick (evs : list Monitor.event) (m : Monitor.state) :
  List.length (Monitor.samples (Monitor.run evs m))
  + Monitor.pending (Monitor.run evs m)
  <= List.length (Monitor.samples m) + Monitor.pending m + Spec.count_ticks evs.
Proof.
  unfold Monitor.run, Spec.count_ticks. revert m.
  induction evs as [|ev evs IH]; intros m; simpl.
  - lia.
  - specialize (IH (Monitor.step m ev)).
    assert (Hstep : List.length (Monitor.samples (Monitor.step m ev))
                    + Monitor.pending (Monitor.step m ev)
                    <= List.length (Monitor.samples m) + Monitor.pending m
                       + match ev with Monitor.Tick => 1 | Monitor.Settle _ => 0 end).
    { destruct ev as [|o]; simpl.
      - destruct (Monitor.active m); simpl; lia.
      - destruct (Monitor.pending m) as [|k] eqn:Hk; [rewrite Hk; lia|].
        rewrite callback_never_throws. simpl.
        destruct o as [s|]; [rewrite length_app; simpl|]; lia. }
    destruct ev as [|o]; simpl in *; lia.
Qed.

(** After [stop] the timer starts no lookup. *)
Lemma stopped_ignores_ticks (n : nat) (m : Monitor.state) :
  Monitor.run (repeat Monitor.Tick n) (Monitor.stop m) = Monitor.stop m.
Proof.
  unfold Monitor.run. induction n as [|n IH]; simpl; [reflexivity|exact IH].
Qed.

(** Whatever the overlap of the lookups, every tick of a running monitor
    starts a lookup of its own and every lookup that succeeds pushes its
    sample when it settles. *)
Lemma run_feasible (evs : list Monitor.event) (m : Monitor.state) :
  Monitor.active m = true ->
  Spec.feasible (Monitor.pending m) evs = true ->
  Monitor.samples (Monitor.run evs m)
  = Monitor.samples m ++ Spec.successes (Spec.settlements evs)
  /\ Monitor.pending (Monitor.run evs m) + List.length (Spec.settlements evs)
     = Monitor.pending m + Spec.count_ticks evs.
Proof.
  unfold Monitor.run, Spec.count_ticks. revert m.
  induction evs as [|ev evs IH]; intros m Hact Hok.
  - simpl. rewrite app_nil_r. split; [reflexivity | lia].
  - destruct ev as [|o]; cbn [fold_left Spec.feasible Spec.settlements filter] in *.
    + assert (Hstep : Monitor.step m Monitor.Tick
                      = {| Monitor.pid := Monitor.pid m;
                           Monitor.active := true;
                           Monitor.pending := S (Monitor.pending m);
                           Monitor.samples := Monitor.samples m;
                           Monitor.crashed := Monitor.crashed m |})
        by (simpl; now rewrite Hact).
      rewrite Hstep.
      destruct (IH {| Monitor.pid := Monitor.pid m;
                      Monitor.active := true;
                      Monitor.pending := S (Monitor.pending m);
                      Monitor.samples := Monitor.samples m;
                      Monitor.crashed := Monitor.crashed m |} eq_refl Hok)
        as [Hs Hp].
      cbn [Monitor.samples Monitor.pending] in *.
      split; [exact Hs|]. simpl. lia.
    + destruct (Monitor.pending m) as [|k] eqn:Hk; [discriminate Hok|].
      assert (Hstep : Monitor.step m (Monitor.Settle o)
                      = {| Monitor.pid := Monitor.pid m;
                           Monitor.active := Monitor.active m;
                           Monitor.pending := k;
                           Monitor.samples :=
                             match o with
                             | Some s => Monitor.samples m ++ [s]
                             | None => Monitor.samples m
                             end;
                           Monitor.crashed := Monitor.crashed m |}).
      { simpl. rewrite Hk. now rewrite callback_never_throws. }
      rewrite Hstep.
      destruct (IH {| Monitor.pid := Monitor.pid m;
                      Monitor.active := Monitor.active m;
                      Monitor.pending := k;
                      Monitor.samples :=
                        match o with
                        | Some s => Monitor.samples m ++ [s]
                        | None => Monitor.samples m
                        end;
                      Monitor.crashed := Monitor.crashed m |} Hact Hok)
        as [Hs Hp].
      cbn [Monitor.samples Monitor.pending] in *.
      split.
      * rewrite Hs. destruct o as [s|]; simpl; [now rewrite <- app_assoc | reflexivity].
      * simpl. lia.
Qed.

(** C5: [startResourceMonitor] sets a timer of the fixed interval
    [SAMPLE_INTERVAL_MS] and starts from an empty list; a tick whose lookup
    succeeds appends exactly that sample and a tick whose lookup fails
    appends nothing, so that the list after a schedule of ticks is the list
    of the samples obtained, in order; this holds whatever the overlap of
    the lookups: in every schedule every tick starts a lookup of its own,
    also while earlier lookups are in flight, and the list is that of the
    lookups that have succeeded, in the order in which they settled;
    whatever the schedule, no callback
    ends in an unhandled rejection and there are at most as many samples as
    ticks; [stop] keeps the list as it is and no
    tick after it starts a lookup; when every lookup fails, as with an
    invalid process identifier, the list read after [stop] is empty. *)
Theorem C5_monitor_skips_failed_ticks :
  (forall pid w,
      startResourceMonitor pid w
      = (Ret (Monitor.start pid),
         {| events := events w ++ [SetInterval SAMPLE_INTERVAL_MS pid];
            summaries := summaries w;
            random_calls := random_calls w;
            get_calls := get_calls w |})
      /\ Monitor.samples (Monitor.start pid) = [])
  /\ (forall pid outcomes,
        Monitor.samples (Monitor.run (Spec.ticks outcomes) (Monitor.start pid))
        = Spec.successes outcomes)
  /\ (forall pid evs,
        Spec.feasible 0 evs = true ->
        Monitor.samples (Monitor.run evs (Monitor.start pid))
        = Spec.successes (Spec.settlements evs)
        /\ Monitor.pending (Monitor.run evs (Monitor.start pid))
           + List.length (Spec.settlements evs)
           = Spec.count_ticks evs)
  /\ (forall pid evs,
        Monitor.crashed (Monitor.run evs (Monitor.start pid)) = false
        /\ List.length (Monitor.samples (Monitor.run evs (Monitor.start pid)))
           <= Spec.count_ticks evs)
  /\ (forall m n,
        Monitor.samples (Monitor.stop m) = Monitor.samples m
        /\ Monitor.run (repeat Monitor.Tick n) (Monitor.stop m) = Monitor.stop m)
  /\ (forall pid evs,
        Spec.all_fail evs ->
        Monitor.samples (Monitor.stop (Monitor.run evs (Monitor.start pid))) = []
        /\ Monitor.crashed (Monitor.stop (Monitor.run evs (Monitor.start pid)))
           = false).
Proof.
  split; [|split; [|split; [|split; [|split]]]].
  - intros pid w. split; reflexivity.
  - intros pid outcomes. now rewrite run_ticks.
  - intros pid evs Hok.
    exact (run_feasible evs (Monitor.start pid) eq_refl Hok).
  - intros pid evs. split.
    + now rewrite run_crashed.
    + pose proof (run_at_most_one_per_tick evs (Monitor.start pid)) as H.
      simpl in H. lia.
  - intros m n. split; [reflexivity | apply stopped_ignores_ticks].
  - intros pid evs Hall. split; simpl.
    + now rewrite run_all_fail.
    + now rewrite run_crashed.
Qed.

(** Four ticks in one second, every lookup failing; and two ticks whose
    lookups overlap and both succeed. *)
Lemma C5_witness :
  Monitor.samples
    (Monitor.stop
       (Monitor.run (Spec.ticks [None; None; None; None]) (Monitor.start 999999)))
  = []
  /\ Monitor.samples
       (Monitor.run
          [Monitor.Tick; Monitor.Tick;
           Monitor.Settle (Some (Examples.sample 10 100)%float);
           Monitor.Settle (Some (Examples.sample 20 200)%float)]
          (Monitor.start 4242))
     = [Examples.sample 10 100; Examples.sample 20 200]%float.
Proof.
  split.
  - apply (proj2 (proj2 (proj2 (proj2 (proj2 C5_monitor_skips_failed_ticks))))).
    repeat constructor.
  - exact (proj1 (proj1 (proj2 (proj2 C5_monitor_skips_failed_ticks))
                    4242%Z
                    [Monitor.Tick; Monitor.Tick;
                     Monitor.Settle (Some (Examples.sample 10 100)%float);
                     Monitor.Settle (Some (Examples.sample 20 200)%float)]
                    eq_refl)).
Defined.

Example monitor_one_sample_one_failure :
  Monitor.samples
    (Monitor.stop (Monitor.run Examples.some_background (Monitor.start 4242)))
  = [Examples.sample 10 100]%float.
Proof. reflexivity. Qed.

(** ** waitForServer *)

(** Whatever the GET meets, the promise given to [await] is fulfilled: with
    the response when the server answered, whatever its status, and with
    [undefined] when it did not.  The [catch] clause of the loop is never
    entered. *)
Lemma waitForServer_first_attempt (env : Env) (n : nat) (delayMs : Z) (w : World) :
  waitForServer env (S n) delayMs w
  = (Ret tt,
     {| events := events w ++ [HttpGet (BASE_URL env)];
        summaries := summaries w;
        random_calls := random_calls w;
        get_calls := S (get_calls w) |}).
Proof.
  unfold waitForServer. simpl.
  unfold bind, try_catch, axios_get.
  destruct (settle (http_get env (get_calls w) (BASE_URL env))); reflexivity.
Qed.

(** C2: with nothing listening on the target address, so that no GET ever
    gets a response, [waitForServer] sends one GET, does not wait, does not
    retry and returns normally; and so it does in every environment, for
    every positive number of attempts. *)
Theorem C2_unanswered_probe_reports_ready :
  (forall k url, http_get Examples.env_down k url = NoResponse "ECONNREFUSED")
  /\ waitForServer Examples.env_down 30 1000 initial
     = (Ret tt,
        {| events := [HttpGet "http://localhost:8080"];
           summaries := [];
           random_calls := 0;
           get_calls := 1 |})
  /\ (forall env n delayMs w,
        fst (waitForServer env (S n) delayMs w) = Ret tt
        /\ events (snd (waitForServer env (S n) delayMs w))
           = events w ++ [HttpGet (BASE_URL env)]).
Proof.
  split; [reflexivity|]. split; [reflexivity|].
  intros env n delayMs w. now rewrite waitForServer_first_attempt.
Qed.

(** With nothing listening, the script announces that the server is up
    and fails in the preflight, on the error of its first POST. *)
Example server_down_run :
  events (snd (run Examples.env_down))
  = [ConsoleLog [LStr "Waiting for "; LStr "http://localhost:8080"; LStr " …"];
     HttpGet "http://localhost:8080";
     ConsoleLog [LStr "Server is up, pre‑computing proof/verification payloads …"];
     HttpPost "http://localhost:8080/register" (user "0.r");
     ConsoleError [LStr Spec.preflight_failed_message];
     ConsoleError [LErr (AxiosError "ECONNREFUSED" None)];
     ProcessExit 1].
Proof. reflexivity. Qed.

(** ** The iteration of the staged engine *)

Lemma postJson_eq (env : K6.Env) (url : string) (body : value)
      (trend label : string) (w : K6.World) :
  K6.postJson env url body (Some trend) label w
  = (Ret (if Z.eqb (K6.Res.status (K6.http_post env url body)) 200
          then Some (K6.http_post env url body) else None),
     w ++ [K6.HttpPost url (JSON_stringify body)
                       [("Content-Type", "application/json")];
           K6.Checked label (Z.eqb (K6.Res.status (K6.http_post env url body)) 200);
           K6.TrendAdd trend (K6.Res.duration (K6.http_post env url body))]).
Proof.
  unfold K6.postJson, bind, K6.emit, ret. simpl.
  now rewrite <- !app_assoc.
Qed.

(** C6: when the register response is not a 200, the iteration sends the
    register request only, records the failed check, adds the latency of
    the failed request to the register trend, paces and ends; when the
    proof response is not a 200, the same holds at the proof step and no
    verify request is sent; at the verify step the check and the trend are
    recorded and the iteration paces and ends, whatever the status. *)
Theorem C6_failed_step_ends_iteration :
  forall (env : K6.Env) (w : K6.World),
    let headers := [("Content-Type", "application/json")] in
    let pace := K6.Sleep (K6.PACE_MS env / 1000)%float in
    let reg_url := "http://localhost:8080/register" in
    let proof_url := "http://localhost:8080/proof" in
    let verify_url := "http://localhost:8080/verify" in
    let reg := K6.http_post env reg_url (K6.regBody env) in
    (K6.Res.status reg <> 200%Z ->
     K6.default env w
     = (Ret tt,
        w ++ [K6.HttpPost reg_url (JSON_stringify (K6.regBody env)) headers;
              K6.Checked "register 200" false;
              K6.TrendAdd "register_latency" (K6.Res.duration reg);
              pace]))
    /\ (forall j secret commitment,
          K6.Res.status reg = 200%Z ->
          K6.Res.json reg = Ret j ->
          get j "secret" = Ret secret ->
          get j "commitment" = Ret commitment ->
          let prfBody := VObj [("secret_hex", secret); ("commitment", commitment)] in
          let prf := K6.http_post env proof_url prfBody in
          let registered :=
            [K6.HttpPost reg_url (JSON_stringify (K6.regBody env)) headers;
             K6.Checked "register 200" true;
             K6.TrendAdd "register_latency" (K6.Res.duration reg)] in
          (K6.Res.status prf <> 200%Z ->
           K6.default env w
           = (Ret tt,
              w ++ registered
                ++ [K6.HttpPost proof_url (JSON_stringify prfBody) headers;
                    K6.Checked "proof 200" false;
                    K6.TrendAdd "proof_latency" (K6.Res.duration prf);
                    pace]))
          /\ (forall j' proof,
                K6.Res.status prf = 200%Z ->
                K6.Res.json prf = Ret j' ->
                get j' "proof" = Ret proof ->
                let verBody := VObj [("commitment", commitment); ("proof", proof)] in
                let ver := K6.http_post env verify_url verBody in
                K6.default env w
                = (Ret tt,
                   w ++ registered
                     ++ [K6.HttpPost proof_url (JSON_stringify prfBody) headers;
                         K6.Checked "proof 200" true;
                         K6.TrendAdd "proof_latency" (K6.Res.duration prf)]
                     ++ [K6.HttpPost verify_url (JSON_stringify verBody) headers;
                         K6.Checked "verify 200" (Z.eqb (K6.Res.status ver) 200);
                         K6.TrendAdd "verify_latency" (K6.Res.duration ver);
                         pace]))).
Proof.
  intros env w headers pace reg_url proof_url verify_url reg.
  split.
  - intros Hst. apply Z.eqb_neq in Hst.
    unfold K6.default, bind. rewrite postJson_eq.
    fold reg_url reg. rewrite Hst.
    unfold K6.sleep, K6.emit. now rewrite <- app_assoc.
  - intros j secret commitment Hst Hj Hs Hc prfBody prf registered.
    assert (Hreg : K6.default env w
                   = bind (K6.postJson env proof_url prfBody (Some K6.proofTrend)
                                      "proof 200")
                       (fun proofRes =>
                          match proofRes with
                          | None => K6.sleep (K6.PACE_MS env / 1000)%float
                          | Some proofRes =>
                              bind (lift (K6.Res.json proofRes)) (fun prf0 =>
                              bind (lift (get prf0 "proof")) (fun proof =>
                              bind (K6.postJson env verify_url
                                      (VObj [("commitment", commitment);
                                             ("proof", proof)])
                                      (Some K6.verTrend) "verify 200")
                                   (fun _ => K6.sleep (K6.PACE_MS env / 1000)%float)))
                          end)
                       (w ++ registered)).
    { unfold K6.default. unfold bind at 1. rewrite postJson_eq.
      fold reg_url reg. rewrite Hst. simpl.
      unfold bind at 1. unfold lift at 1. rewrite Hj.
      unfold bind at 1. unfold lift at 1. rewrite Hs.
      unfold bind at 1. unfold lift at 1. rewrite Hc.
      reflexivity. }
    rewrite Hreg. clear Hreg. split.
    + intros Hp. apply Z.eqb_neq in Hp.
      unfold bind. rewrite postJson_eq. fold prf. rewrite Hp.
      unfold K6.sleep, K6.emit. now rewrite <- !app_assoc.
    + intros j' proof Hp Hj' Hproof verBody ver.
      unfold bind at 1. rewrite postJson_eq. fold prf. rewrite Hp. simpl.
      unfold bind at 1. unfold lift at 1. rewrite Hj'.
      unfold bind at 1. unfold lift at 1. rewrite Hproof.
      unfold bind. rewrite postJson_eq. fold verBody ver.
      unfold K6.sleep, K6.emit. now rewrite <- !app_assoc.
Qed.

Lemma C6_witness :
  K6.default (Examples.k6_env 500 200 200) []
  = (Ret tt,
     [K6.HttpPost "http://localhost:8080/register"
                  (JSON_stringify (K6.regBody (Examples.k6_env 500 200 200)))
                  [("Content-Type", "application/json")];
      K6.Checked "register 200" false;
      K6.TrendAdd "register_latency" 12%float;
      K6.Sleep (100 / 1000)%float]).
Proof.
  apply (proj1 (C6_failed_step_ends_iteration (Examples.k6_env 500 200 200) [])).
  vm_compute. discriminate.
Defined.

Example iteration_proof_fails :
  map (fun e => match e with
                | K6.HttpPost url _ _ => url
                | K6.Checked label true => (label ++ " passed")%string
                | K6.Checked label false => (label ++ " failed")%string
                | K6.TrendAdd trend _ => trend
                | K6.Sleep _ => "sleep"
                end)
      (snd (K6.default (Examples.k6_env 200 503 200) []))
  = ["http://localhost:8080/register"; "register 200 passed"; "register_latency";
     "http://localhost:8080/proof"; "proof 200 failed"; "proof_latency";
     "sleep"].
Proof. reflexivity. Qed.

Example iteration_verify_fails :
  map (fun e => match e with
                | K6.HttpPost url _ _ => url
                | K6.Checked label true => (label ++ " passed")%string
                | K6.Checked label false => (label ++ " failed")%string
                | K6.TrendAdd trend _ => trend
                | K6.Sleep _ => "sleep"
                end)
      (snd (K6.default (Examples.k6_env 200 200 500) []))
  = ["http://localhost:8080/register"; "register 200 passed"; "register_latency";
     "http://localhost:8080/proof"; "proof 200 passed"; "proof_latency";
     "http://localhost:8080/verify"; "verify 200 failed"; "verify_latency";
     "sleep"].
Proof. reflexivity. Qed.

(** ** Reasoning about computations *)

Section Rules.

Context {W : Type}.
Implicit Types (P I : W -> Prop).

Lemma hoare_consequence {A} P P' (m : M W A) (Q Q' : result A -> W -> Prop) :
  hoare P' m Q' ->
  (forall w, P w -> P' w) ->
  (forall r w, Q' r w -> Q r w) ->
  hoare P m Q.
Proof. intros Hm Hp Hq w Hw. apply Hq, Hm, Hp, Hw. Qed.

Lemma hoare_ret {A} P (a : A) (Q : result A -> W -> Prop) :
  (forall w, P w -> Q (Ret a) w) -> hoare P (ret a) Q.
Proof. intros H w Hw. apply H, Hw. Qed.

Lemma hoare_throw {A} P (e : error) (Q : result A -> W -> Prop) :
  (forall w, P w -> Q (Throw e) w) -> hoare P (throw e) Q.
Proof. intros H w Hw. apply H, Hw. Qed.

Lemma hoare_bind {A B} P (m : M W A) (k : A -> M W B)
      (R : A -> W -> Prop) (Q : result B -> W -> Prop) :
  hoare P m (fun r w => match r with
                        | Ret a => R a w
                        | Throw e => Q (Throw e) w
                        end) ->
  (forall a, hoare (R a) (k a) Q) ->
  hoare P (bind m k) Q.
Proof.
  intros Hm Hk w Hw. specialize (Hm w Hw). unfold bind.
  destruct (m w) as [[a|e] w']; simpl in *.
  - apply Hk, Hm.
  - exact Hm.
Qed.

Lemma hoare_try_catch {A} P (m : M W A) (h : error -> M W A)
      (R : error -> W -> Prop) (Q : result A -> W -> Prop) :
  hoare P m (fun r w => match r with
                        | Ret a => Q (Ret a) w
                        | Throw e => R e w
                        end) ->
  (forall e, hoare (R e) (h e) Q) ->
  hoare P (try_catch m h) Q.
Proof.
  intros Hm Hh w Hw. specialize (Hm w Hw). unfold try_catch.
  destruct (m w) as [[a|e] w']; simpl in *.
  - exact Hm.
  - apply Hh, Hm.
Qed.

Lemma stable_ret {A} I (a : A) : stable I (ret a).
Proof. intros w Hw. exact Hw. Qed.

Lemma stable_throw {A} I (e : error) : stable I (@throw W A e).
Proof. intros w Hw. exact Hw. Qed.

Lemma stable_lift {A} I (r : result A) : stable I (lift r).
Proof. intros w Hw. exact Hw. Qed.

Lemma stable_bind {A B} I (m : M W A) (k : A -> M W B) :
  stable I m -> (forall a, stable I (k a)) -> stable I (bind m k).
Proof.
  intros Hm Hk. apply hoare_bind with (R := fun _ => I).
  - intros w Hw. specialize (Hm w Hw). now destruct (fst (m w)).
  - exact Hk.
Qed.

Lemma stable_try_catch {A} I (m : M W A) (h : error -> M W A) :
  stable I m -> (forall e, stable I (h e)) -> stable I (try_catch m h).
Proof.
  intros Hm Hh. apply hoare_try_catch with (R := fun _ => I).
  - intros w Hw. specialize (Hm w Hw). now destruct (fst (m w)).
  - exact Hh.
Qed.

Lemma stable_for_of {A} I (l : list A) (body : A -> M W unit) :
  (forall x, In x l -> stable I (body x)) -> stable I (for_of l body).
Proof.
  induction l as [|x l IH]; intros Hbody; simpl.
  - apply stable_ret.
  - apply stable_bind.
    + apply Hbody. now left.
    + intros _. apply IH. intros y Hy. apply Hbody. now right.
Qed.

(** A computation that returns what [r] says, in every world. *)
Lemma stable_value {A} I (m : M W A) (V : A -> Prop) (k : A -> M W unit) :
  stable I m ->
  (forall w a, fst (m w) = Ret a -> V a) ->
  (forall a, V a -> stable I (k a)) ->
  stable I (bind m k).
Proof.
  intros Hm Hv Hk w Hw. unfold bind.
  specialize (Hm w Hw). specialize (Hv w).
  destruct (m w) as [[a|e] w']; simpl in *.
  - apply Hk; [now apply Hv | exact Hm].
  - exact Hm.
Qed.

End Rules.

(** ** What the parts of [main] keep *)

Section Frame.

Variable env : Env.
Variable I : World -> Prop.

(** [I] does not depend on the count of GET requests, and a plain event
    does not break it. *)
Hypothesis I_plain :
  forall e, plain_event e = true -> stable I (emit e).
Hypothesis I_get_calls :
  forall w n,
    I w ->
    I {| events := events w; summaries := summaries w;
         random_calls := random_calls w; get_calls := n |}.

Lemma console_log_stable args : stable I (console_log args).
Proof. now apply I_plain. Qed.

Lemma console_warn_stable args : stable I (console_warn args).
Proof. now apply I_plain. Qed.

Lemma console_error_stable args : stable I (console_error args).
Proof. now apply I_plain. Qed.

Lemma waitForServer_stable n delayMs : stable I (waitForServer env n delayMs).
Proof.
  destruct n as [|n].
  - apply stable_ret.
  - intros w Hw. rewrite waitForServer_first_attempt. simpl.
    apply (I_get_calls
             {| events := events w ++ [HttpGet (BASE_URL env)];
                summaries := summaries w;
                random_calls := random_calls w;
                get_calls := get_calls w |}).
    exact (I_plain (HttpGet (BASE_URL env)) eq_refl w Hw).
Qed.

Lemma axios_post_stable url body : stable I (axios_post env url body).
Proof.
  apply stable_bind; [now apply I_plain | intros _; apply stable_lift].
Qed.

Lemma findServerPid_stable : stable I (findServerPid env).
Proof.
  unfold findServerPid. apply stable_try_catch.
  - apply stable_bind.
    + destruct (new_URL env (BASE_URL env)); [apply stable_ret | apply stable_throw].
    + intros url. apply stable_bind.
      * unfold execPromise. apply stable_bind; [now apply I_plain|].
        intros _. destruct (child_exec env _); [apply stable_ret | apply stable_throw].
      * intros stdout. apply stable_ret.
  - intros e. apply stable_ret.
Qed.

Lemma toFixed2_stable x : stable I (toFixed2 x).
Proof. destruct x; [apply stable_ret | apply stable_throw]. Qed.

Lemma print_summary_stable s : stable I (print_summary s).
Proof.
  unfold print_summary.
  repeat (first [ apply console_log_stable
                | apply toFixed2_stable
                | apply stable_bind; [|intros ?] ]).
  destruct (Summary.cpu s).
  - apply stable_bind; [apply console_log_stable|intros _; apply console_log_stable].
  - apply console_log_stable.
Qed.

Lemma print_table_stable : stable I print_table.
Proof.
  unfold print_table.
  apply stable_bind; [apply console_log_stable|intros _].
  apply stable_bind; [|intros _; apply console_log_stable].
  intros w Hw.
  exact (stable_for_of I (summaries w) print_summary
           (fun s _ => print_summary_stable s) w Hw).
Qed.

(** The requests of a run, when building and sending each of them keeps
    [I]. *)
Lemma issue_stable (requests : list RequestSpec.t) n k :
  (forall r, In r requests ->
             stable I (bind (resolve r) (fun req => emit (LoadRequest req)))) ->
  stable I (issue n k requests).
Proof.
  intros Hreq. revert k.
  induction n as [|n IH]; intros k; simpl.
  - apply stable_ret.
  - apply stable_bind; [|intros _; apply IH].
    destruct (nth_error requests (k mod List.length requests)) as [r|] eqn:Hr.
    + apply Hreq. eapply nth_error_In, Hr.
    + apply stable_ret.
Qed.

Lemma runAutocannon_stable c d (requests : list RequestSpec.t) :
  (forall r, In r requests ->
             stable I (bind (resolve r) (fun req => emit (LoadRequest req)))) ->
  stable I (runAutocannon env c d requests).
Proof.
  intros Hreq. unfold runAutocannon.
  apply stable_bind; [now apply I_plain|intros _].
  apply stable_bind; [now apply issue_stable|intros _].
  destruct (AcRun.outcome _); [apply stable_ret | apply stable_throw].
Qed.

End Frame.

Section FramePhases.

Variable env : Env.
Variable I : World -> Prop.

Hypothesis I_plain :
  forall e, plain_event e = true -> stable I (emit e).
Hypothesis I_get_calls :
  forall w n,
    I w ->
    I {| events := events w; summaries := summaries w;
         random_calls := random_calls w; get_calls := n |}.

Lemma buildUser_stable : random_free I -> stable I (buildUser env).
Proof.
  intros Hr w Hw. unfold buildUser, bind, Math_random_toString36, ret. simpl.
  apply (Hr w). exact Hw.
Qed.

Lemma preflight_stable : random_free I -> stable I (preflight env).
Proof.
  intros Hr. unfold preflight. apply stable_try_catch.
  - repeat (first [ apply buildUser_stable; exact Hr
                  | apply (axios_post_stable env I I_plain)
                  | apply stable_lift
                  | apply stable_bind; [|intros ?] ]).
    destruct (negb (to_boolean _)); [apply stable_throw | apply stable_ret].
  - intros e. apply stable_bind; [now apply I_plain | intros _; apply stable_throw].
Qed.

(** The requests of the three endpoints: a random draw and a load
    request, or a load request alone. *)
Lemma endpoints_requests_stable secretHex commitment proof :
  random_free I ->
  (forall req, stable I (emit (LoadRequest req))) ->
  forall ep r,
    In ep (endpoints env secretHex commitment proof) ->
    In r (Endpoint.requests ep) ->
    stable I (bind (resolve r) (fun req => emit (LoadRequest req))).
Proof.
  intros Hr Hload ep r Hep Hin.
  destruct Hep as [<-|[<-|[<-|[]]]]; destruct Hin as [<-|[]];
    unfold resolve; simpl.
  - apply stable_bind; [|intros req; apply Hload].
    apply stable_bind; [now apply buildUser_stable | intros u; apply stable_ret].
  - apply stable_bind; [apply stable_ret | intros req; apply Hload].
  - apply stable_bind; [apply stable_ret | intros req; apply Hload].
Qed.

Lemma phase_stable (serverPid : option Z) (ep : Endpoint.t) (c : Z) :
  (pid_truthy serverPid = true ->
   (forall p, stable I (emit (SetInterval SAMPLE_INTERVAL_MS p)))
   /\ stable I (emit ClearInterval)) ->
  (forall result avg,
      (pid_truthy serverPid = false -> avg = None) ->
      stable I (summaries_push (summary ep c result avg))) ->
  (forall r, In r (Endpoint.requests ep) ->
             stable I (bind (resolve r) (fun req => emit (LoadRequest req)))) ->
  stable I (phase env serverPid ep c).
Proof.
  intros Hmon Hpush Hreq. unfold phase.
  apply stable_bind; [now apply I_plain | intros _].
  apply stable_value
    with (V := fun monitor : option Monitor.state =>
                 pid_truthy serverPid = false -> monitor = None).
  - destruct serverPid as [p|]; [|apply stable_ret].
    destruct (pid_truthy (Some p)) eqn:Hp; [|apply stable_ret].
    apply stable_bind; [|intros m; apply stable_ret].
    unfold startResourceMonitor.
    apply stable_bind; [apply (proj1 (Hmon eq_refl)) | intros _; apply stable_ret].
  - intros w monitor Hret Hfalsy.
    destruct serverPid as [p|]; cbv beta iota in Hret.
    + rewrite Hfalsy in Hret. simpl in Hret. now injection Hret as <-.
    + now injection Hret as <-.
  - intros monitor Hmonitor.
    apply stable_bind;
      [now apply (runAutocannon_stable env I I_plain) | intros result].
    apply stable_value
      with (V := fun monitor' : option Monitor.state =>
                   pid_truthy serverPid = false -> monitor' = None).
    + destruct monitor as [m|]; simpl; [|apply stable_ret].
      apply stable_bind; [|intros m'; apply stable_ret].
      unfold monitor_stop.
      destruct (pid_truthy serverPid) eqn:Hp.
      * apply stable_bind; [apply (proj2 (Hmon eq_refl)) | intros _; apply stable_ret].
      * now specialize (Hmonitor eq_refl).
    + intros w monitor' Hret Hfalsy.
      rewrite (Hmonitor Hfalsy) in Hret. simpl in Hret. now injection Hret as <-.
    + intros monitor' Hmonitor'. apply Hpush.
      intros Hfalsy. now rewrite (Hmonitor' Hfalsy).
Qed.

Lemma sweep_stable (serverPid : option Z) (eps : list Endpoint.t) :
  (pid_truthy serverPid = true ->
   (forall p, stable I (emit (SetInterval SAMPLE_INTERVAL_MS p)))
   /\ stable I (emit ClearInterval)) ->
  (forall ep c result avg,
      (pid_truthy serverPid = false -> avg = None) ->
      stable I (summaries_push (summary ep c result avg))) ->
  (forall ep r, In ep eps -> In r (Endpoint.requests ep) ->
             stable I (bind (resolve r) (fun req => emit (LoadRequest req)))) ->
  stable I (sweep env serverPid eps).
Proof.
  intros Hmon Hpush Hreq. unfold sweep.
  apply stable_for_of. intros ep Hep.
  apply stable_bind; [now apply I_plain | intros _].
  apply stable_for_of. intros c _.
  apply phase_stable; [exact Hmon | apply Hpush |].
  intros r Hr. now apply (Hreq ep r).
Qed.

(** The world in which the result of [findServerPid] is computed does
    not matter. *)
Lemma findServerPid_result (w w' : World) :
  fst (findServerPid env w) = fst (findServerPid env w').
Proof.
  unfold findServerPid, try_catch, bind, execPromise, emit, ret, throw.
  destruct (new_URL env (BASE_URL env)) as [url|]; simpl; [|reflexivity].
  destruct (child_exec env _); reflexivity.
Qed.

Lemma run_all_benchmarks_stable (eps : list Endpoint.t) :
  (forall serverPid,
      fst (findServerPid env initial) = Ret serverPid ->
      (pid_truthy serverPid = true ->
       (forall p, stable I (emit (SetInterval SAMPLE_INTERVAL_MS p)))
       /\ stable I (emit ClearInterval))
      /\ (forall ep c result avg,
             (pid_truthy serverPid = false -> avg = None) ->
             stable I (summaries_push (summary ep c result avg)))) ->
  (forall ep r, In ep eps -> In r (Endpoint.requests ep) ->
             stable I (bind (resolve r) (fun req => emit (LoadRequest req)))) ->
  stable I (run_all_benchmarks env eps).
Proof.
  intros Hpid Hreq. unfold run_all_benchmarks.
  apply stable_value
    with (V := fun serverPid => fst (findServerPid env initial) = Ret serverPid).
  - apply (findServerPid_stable env I I_plain).
  - intros w serverPid Hret. now rewrite (findServerPid_result initial w).
  - intros serverPid Hret. destruct (Hpid serverPid Hret) as [Hmon Hpush].
    apply stable_bind.
    + destruct serverPid as [p|]; [|now apply I_plain].
      destruct (pid_truthy (Some p)); now apply I_plain.
    + intros _. now apply sweep_stable.
Qed.

Lemma startup_stable : stable I (startup env).
Proof.
  unfold startup.
  apply stable_bind; [now apply I_plain | intros _].
  apply stable_bind; [|intros _; now apply I_plain].
  now apply waitForServer_stable.
Qed.

Lemma main_stable :
  random_free I ->
  (forall secretHex commitment proof,
      stable I (run_all_benchmarks env (endpoints env secretHex commitment proof))) ->
  stable I (main env).
Proof.
  intros Hr Hrun. unfold main.
  apply stable_bind; [apply startup_stable | intros _].
  apply stable_bind; [now apply preflight_stable | intros [[s c] p]].
  apply stable_bind; [apply Hrun | intros _].
  now apply print_table_stable.
Qed.

End FramePhases.

(** ** Invariants on the events and on the summaries *)

Section Local.

Variables (okE : Event -> Prop) (okS : Summary.t -> Prop).

Lemma local_emit (e : Event) : okE e -> stable (local okE okS) (emit e).
Proof.
  intros He w [Hev Hsum]. split; simpl.
  - apply Forall_app. split; [exact Hev | now constructor].
  - exact Hsum.
Qed.

Lemma local_push (s : Summary.t) :
  okS s -> stable (local okE okS) (summaries_push s).
Proof.
  intros Hs w [Hev Hsum]. split; simpl.
  - exact Hev.
  - apply Forall_app. split; [exact Hsum | now constructor].
Qed.

Lemma local_get_calls (w : World) (n : nat) :
  local okE okS w ->
  local okE okS {| events := events w; summaries := summaries w;
                   random_calls := random_calls w; get_calls := n |}.
Proof. intros H. exact H. Qed.

Lemma local_random_free : random_free (local okE okS).
Proof. intros w n H. exact H. Qed.

Lemma local_initial : local okE okS initial.
Proof. split; constructor. Qed.

End Local.

(** ** When the server's process is not found *)

Lemma never_sampled_run (env : Env) :
  fst (findServerPid env initial) = Ret None ->
  Spec.never_sampled (snd (run env)).
Proof.
  intros Hnull. unfold run, Spec.never_sampled.
  set (okE := fun e => is_monitor_start e = false).
  assert (Hplain : forall e, plain_event e = true ->
                             stable (local okE Spec.resources_absent) (emit e)).
  { intros e He. apply local_emit. now destruct e. }
  apply (stable_try_catch (local okE Spec.resources_absent)).
  - apply main_stable.
    + exact Hplain.
    + apply local_get_calls.
    + apply local_random_free.
    + intros s c p. apply run_all_benchmarks_stable.
      * exact Hplain.
      * intros serverPid Hpid. rewrite Hnull in Hpid. injection Hpid as <-.
        split; [discriminate|].
        intros ep c0 result avg Havg. rewrite (Havg eq_refl).
        apply local_push. split; reflexivity.
      * intros ep r Hep Hr.
        apply (endpoints_requests_stable env _ s c p
                 (local_random_free okE Spec.resources_absent)
                 (fun req => local_emit okE Spec.resources_absent
                               (LoadRequest req) eq_refl)
                 ep r Hep Hr).
  - intros e. apply stable_bind; [now apply Hplain | intros _].
    now apply local_emit.
  - apply local_initial.
Qed.

(** ** The preflight chain *)

Lemma axios_post_eq (env : Env) (url : string) (body : value) (w : World) :
  axios_post env url body w
  = (settle (http_post env url body), with_events w [HttpPost url body]).
Proof.
  unfold axios_post, bind, emit, lift. reflexivity.
Qed.

Lemma startup_eq (env : Env) (w : World) :
  startup env w
  = (Ret tt,
     {| events :=
          events w
          ++ [ConsoleLog [LStr "Waiting for "; LStr (BASE_URL env); LStr " …"];
              HttpGet (BASE_URL env);
              ConsoleLog
                [LStr "Server is up, pre‑computing proof/verification payloads …"]];
        summaries := summaries w;
        random_calls := random_calls w;
        get_calls := S (get_calls w) |}).
Proof.
  unfold startup, bind, console_log, emit.
  rewrite waitForServer_first_attempt. simpl.
  now rewrite <- !app_assoc.
Qed.

Section Preflight.

Variable env : Env.

(** The world after the [catch] clause of the preflight. *)
Let failed (e : error) (w : World) : result (value * value * value) * World :=
  (Throw e, with_events w [ConsoleError [LStr Spec.preflight_failed_message]]).

Let drawn (w : World) : World :=
  {| events := events w; summaries := summaries w;
     random_calls := 1; get_calls := get_calls w |}.

(** The preflight, step by step, from a world in which no random number
    was drawn yet. *)
Lemma preflight_steps (w : World) :
  random_calls w = 0 ->
  preflight env w
  = let w1 := with_events (drawn w)
                [HttpPost (BASE_URL env ++ "/register")%string
                          (user (math_random_36 env 0))] in
    match settle (Spec.register_answer env) with
    | Throw e => failed e w1
    | Ret reg =>
        match get (data reg) "secret" with
        | Throw e => failed e w1
        | Ret secret =>
            match get (data reg) "commitment" with
            | Throw e => failed e w1
            | Ret commitment =>
                let w2 := with_events w1
                            [HttpPost (BASE_URL env ++ "/proof")%string
                                      (proof_payload secret commitment)] in
                match settle (Spec.proof_answer env secret commitment) with
                | Throw e => failed e w2
                | Ret prf =>
                    match get (data prf) "proof" with
                    | Throw e => failed e w2
                    | Ret proof =>
                        let w3 := with_events w2
                                    [HttpPost (BASE_URL env ++ "/verify")%string
                                              (verify_payload commitment proof)] in
                        match settle (Spec.verify_answer env commitment proof) with
                        | Throw e => failed e w3
                        | Ret ver =>
                            match get (data ver) "valid" with
                            | Throw e => failed e w3
                            | Ret valid =>
                                if negb (to_boolean valid)
                                then failed
                                       (Error "Initial verification failed; proof or commitment invalid")
                                       w3
                                else (Ret (secret, commitment, proof), w3)
                            end
                        end
                    end
                end
            end
        end
    end.
Proof.
  intros Hdraw.
  cbv [preflight try_catch bind buildUser Math_random_toString36 ret lift throw].
  rewrite Hdraw. rewrite axios_post_eq. cbv beta iota zeta.
  unfold Spec.register_answer.
  destruct (settle (http_post env _ (user (math_random_36 env 0))))
    as [reg|e]; [|reflexivity].
  destruct (get (data reg) "secret") as [secret|e]; [|reflexivity].
  destruct (get (data reg) "commitment") as [commitment|e]; [|reflexivity].
  rewrite axios_post_eq. cbv beta iota zeta. unfold Spec.proof_answer.
  destruct (settle (http_post env _ (proof_payload secret commitment)))
    as [prf|e]; [|reflexivity].
  destruct (get (data prf) "proof") as [proof|e]; [|reflexivity].
  rewrite axios_post_eq. cbv beta iota zeta. unfold Spec.verify_answer.
  destruct (settle (http_post env _ (verify_payload commitment proof)))
    as [ver|e]; [|reflexivity].
  destruct (get (data ver) "valid") as [valid|e]; [|reflexivity].
  destruct (negb (to_boolean valid)); reflexivity.
Qed.

Lemma settle_answered (x : wire) (r : response) :
  Spec.answered x r -> settle x = Ret r.
Proof. intros [-> Hst]. simpl. now rewrite Hst. Qed.

Lemma settle_failed (x : wire) :
  Spec.request_failed x -> exists e, settle x = Throw e.
Proof.
  destruct x as [code|r]; simpl.
  - intros _. now eexists.
  - intros ->. now eexists.
Qed.

Lemma get_unreadable (v : value) (key : string) :
  v = VUndefined \/ v = VNull -> exists e, get v key = Throw e.
Proof. intros [->| ->]; simpl; now eexists. Qed.

Lemma step_fault_cases (x : wire) (key : string) :
  Spec.step_fault x ->
  (exists e, settle x = Throw e)
  \/ (exists r e, settle x = Ret r /\ get (data r) key = Throw e).
Proof.
  intros [Hfail|[r [Hans Hbody]]].
  - left. now apply settle_failed.
  - right. exists r.
    destruct (get_unreadable (data r) key Hbody) as [e He].
    exists e. split; [now apply settle_answered | exact He].
Qed.

(** A fault makes the preflight throw, after some of its three requests
    and the message of the [catch] clause. *)
Lemma preflight_fault_throws (w : World) :
  random_calls w = 0 ->
  Spec.preflight_fault env ->
  exists e posts,
    forallb is_post posts = true
    /\ preflight env w
       = (Throw e,
          with_events (drawn w)
            (posts ++ [ConsoleError [LStr Spec.preflight_failed_message]])).
Proof.
  intros Hdraw Hfault. rewrite (preflight_steps w Hdraw). cbv zeta.
  destruct Hfault
    as [Hreg
       | secret commitment [reg [Hreg [Hs Hc]]] Hprf
       | secret commitment proof [[reg [Hreg [Hs Hc]]] [prf [Hprf Hp]]] Hver
       | secret commitment proof ver valid
           [[reg [Hreg [Hs Hc]]] [prf [Hprf Hp]]] Hver Hv Hvalid].
  - destruct (step_fault_cases _ "secret" Hreg) as [[e He]|[r [e [Hr He]]]];
      [rewrite He | rewrite Hr, He];
      exists e, [HttpPost (BASE_URL env ++ "/register")%string
                          (user (math_random_36 env 0))];
      (split; [reflexivity|]);
      unfold failed, with_events; simpl; now rewrite <- ?app_assoc.
  - rewrite (settle_answered _ reg Hreg), Hs, Hc.
    destruct (step_fault_cases _ "proof" Hprf) as [[e He]|[r [e [Hr He]]]];
      [rewrite He | rewrite Hr, He];
      exists e, [HttpPost (BASE_URL env ++ "/register")%string
                          (user (math_random_36 env 0));
                 HttpPost (BASE_URL env ++ "/proof")%string
                          (proof_payload secret commitment)];
      (split; [reflexivity|]);
      unfold failed, with_events; simpl; now rewrite <- ?app_assoc.
  - rewrite (settle_answered _ reg Hreg), Hs, Hc.
    rewrite (settle_answered _ prf Hprf), Hp.
    destruct (step_fault_cases _ "valid" Hver) as [[e He]|[r [e [Hr He]]]];
      [rewrite He | rewrite Hr, He];
      exists e, [HttpPost (BASE_URL env ++ "/register")%string
                          (user (math_random_36 env 0));
                 HttpPost (BASE_URL env ++ "/proof")%string
                          (proof_payload secret commitment);
                 HttpPost (BASE_URL env ++ "/verify")%string
                          (verify_payload commitment proof)];
      (split; [reflexivity|]);
      unfold failed, with_events; simpl; now rewrite <- ?app_assoc.
  - rewrite (settle_answered _ reg Hreg), Hs, Hc.
    rewrite (settle_answered _ prf Hprf), Hp.
    rewrite (settle_answered _ ver Hver), Hv, Hvalid. simpl.
    exists (Error "Initial verification failed; proof or commitment invalid"),
      [HttpPost (BASE_URL env ++ "/register")%string
                (user (math_random_36 env 0));
       HttpPost (BASE_URL env ++ "/proof")%string
                (proof_payload secret commitment);
       HttpPost (BASE_URL env ++ "/verify")%string
                (verify_payload commitment proof)].
    split; [reflexivity|].
    unfold failed, with_events. simpl. now rewrite <- ?app_assoc.
Qed.

End Preflight.

(** Requests sent with axios are no load, no timer and no exit. *)
Lemma find_after_posts (p : Event -> bool) (posts rest : list Event) :
  (forall e, is_post e = true -> p e = false) ->
  forallb is_post posts = true ->
  find p (posts ++ rest) = find p rest.
Proof.
  intros Hp. induction posts as [|e posts IH]; simpl; intros Hposts.
  - reflexivity.
  - apply andb_true_iff in Hposts as [He Hposts].
    rewrite (Hp e He). now apply IH.
Qed.

Lemma existsb_after_posts (p : Event -> bool) (posts rest : list Event) :
  (forall e, is_post e = true -> p e = false) ->
  forallb is_post posts = true ->
  existsb p (posts ++ rest) = existsb p rest.
Proof.
  intros Hp. induction posts as [|e posts IH]; simpl; intros Hposts.
  - reflexivity.
  - apply andb_true_iff in Hposts as [He Hposts].
    rewrite (Hp e He). now apply IH.
Qed.

(** C1, amended: if a step of the preflight chain fails, by getting no
    response, by a status that is not 2xx, by a body that is [null] or
    [undefined], or by a verify response whose [valid] is false or absent,
    then the run is aborted: the failure message and the error are written
    to the error console, the process exits with status 1, no load request
    is sent, no timer of the monitor is set and no summary is produced. *)
Theorem C1_preflight_fault_aborts_run :
  forall env : Env,
    Spec.preflight_fault env ->
    exists e, Spec.aborted_on e (snd (run env)).
Proof.
  intros env Hfault.
  unfold run, try_catch, main. unfold bind at 1. rewrite startup_eq.
  cbv beta iota. unfold bind at 1.
  match goal with
  | |- context [preflight env ?w] =>
      destruct (preflight_fault_throws env w eq_refl Hfault)
        as [e [posts [Hposts Heq]]];
      rewrite Heq
  end.
  exists e. cbv beta iota.
  unfold console_error, bind, emit, with_events, Spec.aborted_on, exit_status.
  simpl.
  assert (Hexit : forall ev, is_post ev = true -> is_exit ev = false)
    by (now intros []).
  assert (Hload : forall ev, is_post ev = true -> is_load ev = false)
    by (now intros []).
  assert (Hmon : forall ev, is_post ev = true -> is_monitor_start ev = false)
    by (now intros []).
  rewrite <- !app_assoc. simpl.
  rewrite (find_after_posts is_exit posts _ Hexit Hposts).
  rewrite (existsb_after_posts is_load posts _ Hload Hposts).
  rewrite (existsb_after_posts is_monitor_start posts _ Hmon Hposts).
  simpl. repeat split.
  eexists
    ([ConsoleLog [LStr "Waiting for "; LStr (BASE_URL env); LStr " …"];
      HttpGet (BASE_URL env);
      ConsoleLog
        [LStr "Server is up, pre‑computing proof/verification payloads …"]]
       ++ posts).
  now rewrite <- !app_assoc.
Qed.

(** The claim C1 as it is written fails on a service whose registration
    answers 200 without [secret] and [commitment], and which then proves
    and verifies: the run is not aborted, it reaches its end with status 0,
    having run the 18 load phases. *)
Lemma C1_counterexample :
  Spec.claimed_fault Examples.env_forgetful
  /\ (forall e, ~ Spec.aborted_on e (snd (run Examples.env_forgetful)))
  /\ exit_status (snd (run Examples.env_forgetful)) = 0%Z
  /\ List.length (summaries (snd (run Examples.env_forgetful))) = 18.
Proof.
  split; [|split; [|split]].
  - right. apply Spec.missing_secret with (commitment := VUndefined).
    exists {| status := 200; data := VObj [] |}.
    repeat split.
  - intros e [_ [Hexit _]]. vm_compute in Hexit. discriminate Hexit.
  - vm_compute. reflexivity.
  - vm_compute. reflexivity.
Qed.

Lemma rejecting_service_is_a_fault : Spec.preflight_fault Examples.env_rejecting.
Proof.
  apply Spec.fault_invalid
    with (secret := VStr "0xAA") (commitment := VStr "123") (proof := VStr "pi")
         (ver := {| status := 200; data := VObj [("valid", VBool false)] |})
         (valid := VBool false).
  - split.
    + exists {| status := 200;
                data := VObj [("secret", VStr "0xAA"); ("commitment", VStr "123")] |}.
      repeat split.
    + exists {| status := 200; data := VObj [("proof", VStr "pi")] |}.
      repeat split.
  - repeat split.
  - reflexivity.
  - reflexivity.
Qed.

Lemma C1_witness :
  Spec.preflight_fault Examples.env_rejecting
  /\ exists e, Spec.aborted_on e (snd (run Examples.env_rejecting)).
Proof.
  split.
  - exact rejecting_service_is_a_fault.
  - apply (C1_preflight_fault_aborts_run Examples.env_rejecting).
    exact rejecting_service_is_a_fault.
Defined.

(** The run against a service whose proof endpoint answers 500 is
    aborted after two requests. *)
Example failing_proof_run :
  map is_post (events (snd (run Examples.env_failing_proof)))
  = [false; false; false; true; true; false; false; false]
  /\ exit_status (snd (run Examples.env_failing_proof)) = 1%Z
  /\ summaries (snd (run Examples.env_failing_proof)) = [].
Proof. repeat split. Qed.

(** The aborted run of the service that answers [{ valid: false }]. *)
Example rejected_run :
  events (snd (run Examples.env_rejecting))
  = [ConsoleLog [LStr "Waiting for "; LStr "http://localhost:8080"; LStr " …"];
     HttpGet "http://localhost:8080";
     ConsoleLog [LStr "Server is up, pre‑computing proof/verification payloads …"];
     HttpPost "http://localhost:8080/register" (user "0.r");
     HttpPost "http://localhost:8080/proof"
              (proof_payload (VStr "0xAA") (VStr "123"));
     HttpPost "http://localhost:8080/verify"
              (verify_payload (VStr "123") (VStr "pi"));
     ConsoleError [LStr Spec.preflight_failed_message];
     ConsoleError
       [LErr (Error "Initial verification failed; proof or commitment invalid")];
     ProcessExit 1].
Proof. reflexivity. Qed.

(** ** When the server's process is not found: the claim *)

(** C4: when [findServerPid] returns [null], no timer of the monitor is set
    in the whole run, and every summary has [null] for its CPU and memory
    fields, so neither is [0]. *)
Theorem C4_no_pid_no_sampling :
  forall env : Env,
    fst (findServerPid env initial) = Ret None ->
    (forall e, In e (events (snd (run env))) -> is_monitor_start e = false)
    /\ (forall s,
           In s (summaries (snd (run env))) ->
           Summary.cpu s = None /\ Summary.memory s = None
           /\ Summary.cpu s <> Some 0%float /\ Summary.memory s <> Some 0%float).
Proof.
  intros env Hnull.
  destruct (never_sampled_run env Hnull) as [Hev Hsum].
  split.
  - intros e He. exact (proj1 (Forall_forall _ _) Hev e He).
  - intros s Hs.
    destruct (proj1 (Forall_forall _ _) Hsum s Hs) as [Hcpu Hmem].
    rewrite Hcpu, Hmem. repeat split; discriminate.
Qed.

Lemma C4_witness :
  fst (findServerPid Examples.env_no_pid initial) = Ret None
  /\ forall s,
       In s (summaries (snd (run Examples.env_no_pid))) ->
       Summary.cpu s = None /\ Summary.memory s = None.
Proof.
  assert (Hnull : fst (findServerPid Examples.env_no_pid initial) = Ret None)
    by (vm_compute; reflexivity).
  split; [exact Hnull|].
  intros s Hs.
  pose proof (proj2 (C4_no_pid_no_sampling Examples.env_no_pid Hnull) s Hs) as H.
  exact (conj (proj1 H) (proj1 (proj2 H))).
Defined.

(** ** The records of a sweep *)

Lemma hoare_after_stable {W A B} (I : W -> Prop) (m : M W A) (k : A -> M W B)
      (Q : result B -> W -> Prop) :
  stable I m ->
  (forall e w, I w -> Q (Throw e) w) ->
  (forall a, hoare I (k a) Q) ->
  hoare I (bind m k) Q.
Proof.
  intros Hm Hthrow Hk. apply hoare_bind with (R := fun _ => I); [|exact Hk].
  intros w Hw. specialize (Hm w Hw).
  destruct (fst (m w)); [exact Hm | now apply Hthrow].
Qed.

Lemma stable_on_return {W A} (I : W -> Prop) (m : M W A) :
  stable I m -> hoare I m (on_return I).
Proof.
  intros Hm w Hw. specialize (Hm w Hw). unfold on_return.
  now destruct (fst (m w)).
Qed.

Lemma hoare_seq {W A B} (P R Q : W -> Prop) (m : M W A) (k : A -> M W B) :
  hoare P m (on_return R) ->
  (forall a, hoare R (k a) (on_return Q)) ->
  hoare P (bind m k) (on_return Q).
Proof.
  intros Hm Hk. apply hoare_bind with (R := fun _ => R); [|exact Hk].
  intros w Hw. specialize (Hm w Hw). unfold on_return in *.
  now destruct (fst (m w)).
Qed.

Lemma hoare_seq_stable {W A B} (I Q : W -> Prop) (m : M W A) (k : A -> M W B) :
  stable I m ->
  (forall a, hoare I (k a) (on_return Q)) ->
  hoare I (bind m k) (on_return Q).
Proof.
  intros Hm Hk. apply hoare_seq with (R := I); [|exact Hk].
  now apply stable_on_return.
Qed.

Section Keys.

Variable env : Env.

(** The summaries are [l], up to their resource and latency figures. *)
Let has_keys (l : list (string * Z)) (w : World) : Prop := Spec.keys w = l.

Lemma keys_emit l e : stable (has_keys l) (emit e).
Proof. intros w Hw. exact Hw. Qed.

Lemma keys_get_calls l (w : World) (n : nat) :
  has_keys l w ->
  has_keys l {| events := events w; summaries := summaries w;
                random_calls := random_calls w; get_calls := n |}.
Proof. intros H. exact H. Qed.

Lemma keys_random_free l : random_free (has_keys l).
Proof. intros w n H. exact H. Qed.

Lemma keys_requests l secretHex commitment proof ep r :
  In ep (endpoints env secretHex commitment proof) ->
  In r (Endpoint.requests ep) ->
  stable (has_keys l) (bind (resolve r) (fun req => emit (LoadRequest req))).
Proof.
  apply (endpoints_requests_stable env (has_keys l) secretHex commitment proof
           (keys_random_free l) (fun req => keys_emit l (LoadRequest req))).
Qed.

(** A phase that returns has pushed the summary of its pair, and only
    that. *)
Lemma phase_keys l serverPid ep c :
  (forall r, In r (Endpoint.requests ep) ->
             stable (has_keys l)
                    (bind (resolve r) (fun req => emit (LoadRequest req)))) ->
  hoare (has_keys l) (phase env serverPid ep c)
        (on_return (has_keys (l ++ [(Endpoint.name ep, c)]))).
Proof.
  intros Hreq. unfold phase.
  apply hoare_seq_stable; [apply keys_emit | intros _].
  apply hoare_seq_stable; [|intros monitor].
  { destruct serverPid as [p|]; [|apply stable_ret].
    destruct (pid_truthy (Some p)); [|apply stable_ret].
    apply stable_bind; [|intros m; apply stable_ret].
    apply stable_bind; [apply keys_emit | intros _; apply stable_ret]. }
  apply hoare_seq_stable; [|intros result].
  { apply (runAutocannon_stable env (has_keys l)
             (fun e _ => keys_emit l e) c TEST_DURATION _ Hreq). }
  apply hoare_seq_stable; [|intros monitor'].
  { destruct (option_map _ monitor) as [m|]; [|apply stable_ret].
    apply stable_bind; [|intros m'; apply stable_ret].
    apply stable_bind; [apply keys_emit | intros _; apply stable_ret]. }
  intros w Hw. unfold on_return, has_keys, Spec.keys in *. simpl.
  rewrite map_app, Hw. reflexivity.
Qed.

Lemma levels_keys serverPid ep (levels : list Z) :
  (forall l r, In r (Endpoint.requests ep) ->
               stable (has_keys l)
                      (bind (resolve r) (fun req => emit (LoadRequest req)))) ->
  forall l,
    hoare (has_keys l) (for_of levels (fun c => phase env serverPid ep c))
          (on_return (has_keys (l ++ map (pair (Endpoint.name ep)) levels))).
Proof.
  intros Hreq.
  induction levels as [|c levels IH]; intros l; cbn [for_of map].
  - apply hoare_ret. intros w Hw. unfold on_return. now rewrite app_nil_r.
  - apply hoare_seq with (R := has_keys (l ++ [(Endpoint.name ep, c)])).
    + apply (phase_keys l serverPid ep c (Hreq l)).
    + intros _. specialize (IH (l ++ [(Endpoint.name ep, c)])).
      now rewrite <- app_assoc in IH.
Qed.

Lemma pairs_cons (ep : Endpoint.t) (eps : list Endpoint.t) :
  Spec.pairs (ep :: eps)
  = map (pair (Endpoint.name ep)) CONCURRENCY_LEVELS ++ Spec.pairs eps.
Proof. reflexivity. Qed.

Lemma sweep_keys serverPid (eps : list Endpoint.t) :
  (forall l ep r, In ep eps -> In r (Endpoint.requests ep) ->
                  stable (has_keys l)
                         (bind (resolve r) (fun req => emit (LoadRequest req)))) ->
  forall l,
    hoare (has_keys l) (sweep env serverPid eps)
          (on_return (has_keys (l ++ Spec.pairs eps))).
Proof.
  unfold sweep.
  induction eps as [|ep eps IH]; intros Hreq l; cbn [for_of].
  - apply hoare_ret. intros w Hw. unfold on_return.
    change (Spec.pairs []) with (@nil (string * Z)). now rewrite app_nil_r.
  - rewrite pairs_cons.
    apply hoare_seq
      with (R := has_keys (l ++ map (pair (Endpoint.name ep)) CONCURRENCY_LEVELS)).
    + apply hoare_seq_stable; [apply keys_emit | intros _].
      apply levels_keys. intros l' r Hr. apply (Hreq l' ep r); [now left|exact Hr].
    + intros _.
      specialize (IH (fun l' ep' r Hep => Hreq l' ep' r (or_intror Hep))
                     (l ++ map (pair (Endpoint.name ep)) CONCURRENCY_LEVELS)).
      now rewrite <- app_assoc in IH.
Qed.

(** [main], when it returns, has pushed one summary for each of the 18
    pairs, in the order of the loops. *)
Lemma main_keys :
  hoare (has_keys []) (main env)
        (on_return
           (has_keys (list_prod ["register"; "generateProof"; "verifyProof"]
                                CONCURRENCY_LEVELS))).
Proof.
  assert (Hplain : forall l e, plain_event e = true -> stable (has_keys l) (emit e))
    by (intros l e _; apply keys_emit).
  unfold main.
  apply hoare_seq_stable;
    [apply (startup_stable env _ (Hplain []) (keys_get_calls [])) | intros _].
  apply hoare_seq_stable;
    [apply (preflight_stable env _ (Hplain []) (keys_random_free []))
    | intros [[s c] p]].
  apply hoare_seq
    with (R := has_keys (list_prod ["register"; "generateProof"; "verifyProof"]
                                   CONCURRENCY_LEVELS)).
  - unfold run_all_benchmarks.
    apply hoare_seq_stable;
      [apply (findServerPid_stable env _ (Hplain [])) | intros serverPid].
    apply hoare_seq_stable; [|intros _].
    { destruct serverPid as [pid|]; [|apply keys_emit].
      destruct (pid_truthy (Some pid)); apply keys_emit. }
    apply (sweep_keys serverPid (endpoints env s c p)
             (fun l ep r => keys_requests l s c p ep r) []).
  - intros _. apply stable_on_return.
    apply (print_table_stable _ (Hplain _)).
Qed.

(** [main] does not call [process.exit]. *)
Lemma main_no_exit : stable Spec.no_exit (main env).
Proof.
  unfold Spec.no_exit.
  set (okE := fun e => is_exit e = false).
  set (okS := fun _ : Summary.t => True).
  assert (Hplain : forall e, plain_event e = true -> stable (local okE okS) (emit e)).
  { intros e He. apply local_emit. now destruct e. }
  apply main_stable.
  - exact Hplain.
  - apply local_get_calls.
  - apply local_random_free.
  - intros s c p. apply run_all_benchmarks_stable.
    + exact Hplain.
    + intros serverPid _. split.
      * intros _. split; [intros pid|]; now apply local_emit.
      * intros ep c0 result avg _. now apply local_push.
    + intros ep r Hep Hr.
      apply (endpoints_requests_stable env _ s c p
               (local_random_free okE okS)
               (fun req => local_emit okE okS (LoadRequest req) eq_refl)
               ep r Hep Hr).
Qed.

End Keys.

Lemma find_exit_after (evs : list Event) (rest : list Event) :
  Forall (fun e => is_exit e = false) evs ->
  find is_exit (evs ++ rest) = find is_exit rest.
Proof.
  induction 1 as [|e evs He _ IH]; simpl.
  - reflexivity.
  - now rewrite He.
Qed.

(** When [main] throws, the process exits with status 1. *)
Lemma run_exit_status (env : Env) :
  match fst (main env initial) with
  | Ret _ => snd (run env) = snd (main env initial)
  | Throw _ => exit_status (snd (run env)) = 1%Z
  end.
Proof.
  pose proof (main_no_exit env initial (local_initial _ _)) as [Hexit _].
  unfold run, try_catch.
  destruct (main env initial) as [[[]|e] w]; simpl in *.
  - reflexivity.
  - unfold exit_status. simpl.
    now rewrite <- app_assoc, (find_exit_after (events w) _ Hexit).
Qed.

(** C8: a sweep over the three endpoints that returns has pushed exactly
    one summary for each pair of an endpoint and a concurrency level, in
    the order of the two loops, that is 3 x 6 = 18 summaries; and a run that
    ends with status 0 leaves exactly these 18 summaries. *)
Theorem C8_one_record_per_pair :
  forall env : Env,
    (forall serverPid secretHex commitment proof w,
        let eps := endpoints env secretHex commitment proof in
        fst (sweep env serverPid eps w) = Ret tt ->
        Spec.keys (snd (sweep env serverPid eps w))
        = Spec.keys w
          ++ list_prod ["register"; "generateProof"; "verifyProof"]
                       [1; 10; 15; 20; 25; 30]%Z
        /\ List.length (summaries (snd (sweep env serverPid eps w)))
           = List.length (summaries w)
             + List.length eps * List.length CONCURRENCY_LEVELS)
    /\ (exit_status (snd (run env)) = 0%Z ->
        Spec.keys (snd (run env))
        = list_prod ["register"; "generateProof"; "verifyProof"]
                    [1; 10; 15; 20; 25; 30]%Z
        /\ List.length (summaries (snd (run env))) = 18).
Proof.
  intros env. split.
  - intros serverPid s c p w eps Hret.
    pose proof (sweep_keys env serverPid eps
                  (fun l ep r => keys_requests env l s c p ep r)
                  (Spec.keys w) w eq_refl) as Hkeys.
    unfold on_return in Hkeys. rewrite Hret in Hkeys.
    split; [exact Hkeys|].
    apply (f_equal (@List.length _)) in Hkeys.
    unfold Spec.keys in Hkeys. rewrite length_app, !length_map in Hkeys.
    exact Hkeys.
  - intros Hexit.
    pose proof (run_exit_status env) as Hrun.
    pose proof (main_keys env initial eq_refl) as Hkeys.
    unfold on_return in Hkeys.
    destruct (fst (main env initial)) as [[]|e].
    + rewrite Hrun. split; [exact Hkeys|].
      apply (f_equal (@List.length _)) in Hkeys.
      unfold Spec.keys in Hkeys. rewrite length_map in Hkeys. exact Hkeys.
    + rewrite Hrun in Hexit. discriminate Hexit.
Qed.

Lemma C8_witness :
  exit_status (snd (run Examples.env_up)) = 0%Z
  /\ List.length (summaries (snd (run Examples.env_up))) = 18.
Proof.
  assert (Hexit : exit_status (snd (run Examples.env_up)) = 0%Z)
    by (vm_compute; reflexivity).
  split; [exact Hexit|].
  exact (proj2 (proj2 (C8_one_record_per_pair Examples.env_up) Hexit)).
Defined.

(** ** The payloads of the load requests *)


Section Payloads.

Variable env : Env.







End Payloads.

Lemma hoare_then_stable {W A B} (P I : W -> Prop) (m : M W A) (k : A -> M W B) :
  hoare P m (fun _ => I) ->
  (forall a, stable I (k a)) ->
  hoare P (bind m k) (fun _ => I).
Proof.
  intros Hm Hk. apply hoare_bind with (R := fun _ => I); [|exact Hk].
  intros w Hw. specialize (Hm w Hw). now destruct (fst (m w)).
Qed.

Lemma hoare_catch_stable {W A} (P I : W -> Prop) (m : M W A)
      (h : error -> M W A) :
  hoare P m (fun _ => I) ->
  (forall e, stable I (h e)) ->
  hoare P (try_catch m h) (fun _ => I).
Proof.
  intros Hm Hh. apply hoare_try_catch with (R := fun _ => I); [|exact Hh].
  intros w Hw. specialize (Hm w Hw). now destruct (fst (m w)).
Qed.

Section Fixture.

Variable env : Env.




Lemma settle_ret (x : wire) (r : response) :
  settle x = Ret r -> Spec.answered x r.
Proof.
  destruct x as [code|r']; simpl; [discriminate|].
  destruct (validateStatus (status r')) eqn:Hst; [|discriminate].
  intros H. injection H as <-. now split.
Qed.







End Fixture.

Lemma list_ascii_of_append (a b : string) :
  list_ascii_of_string (a ++ b)%string
  = list_ascii_of_string a ++ list_ascii_of_string b.
Proof. induction a as [|c a IH]; simpl; [reflexivity | now rewrite IH]. Qed.

Lemma append_inj_r (a b s : string) : (a ++ s)%string = (b ++ s)%string -> a = b.
Proof.
  intros H. apply (f_equal list_ascii_of_string) in H.
  rewrite !list_ascii_of_append in H. apply app_inv_tail in H.
  apply (f_equal string_of_list_ascii) in H.
  now rewrite !string_of_list_ascii_of_string in H.
Qed.





(** The users of the first phase of a run: two requests, two draws. *)
Example first_register_loads :
  firstn 2 (Spec.register_loads (events (snd (run Examples.env_up))))
  = [Some (JSON_stringify (user "0.rx")); Some (JSON_stringify (user "0.rxx"))]
  /\ List.length (Spec.register_loads (events (snd (run Examples.env_up)))) = 12.
Proof. split; vm_compute; reflexivity. Qed.

(* ================================================================== *)
(** * Further properties of bench.js *)
(* ================================================================== *)

(** ** Strings: [trim] and [parseInt] *)

Lemma string_of_list_ascii_app (l1 l2 : list ascii) :
  string_of_list_ascii (l1 ++ l2)
  = (string_of_list_ascii l1 ++ string_of_list_ascii l2)%string.
Proof. induction l1 as [|c l1 IH]; simpl; [reflexivity | now rewrite IH]. Qed.

Lemma reverse_cons (c : ascii) (s : string) :
  reverse (String c s) = (reverse s ++ String c EmptyString)%string.
Proof. unfold reverse. simpl. now rewrite string_of_list_ascii_app. Qed.

Lemma reverse_snoc (c : ascii) (s : string) :
  reverse (s ++ String c EmptyString) = String c (reverse s).
Proof.
  unfold reverse. rewrite list_ascii_of_append, rev_app_distr. reflexivity.
Qed.

Lemma reverse_involutive (s : string) : reverse (reverse s) = s.
Proof.
  unfold reverse.
  now rewrite list_ascii_of_string_of_list_ascii, rev_involutive,
    string_of_list_ascii_of_string.
Qed.

Lemma reverse_empty (s : string) : reverse s = EmptyString -> s = EmptyString.
Proof. intros H. rewrite <- (reverse_involutive s), H. reflexivity. Qed.

(** [trim_start] gives the empty text or a text that begins with a
    character that is not white space. *)
Lemma trim_start_head (s : string) :
  trim_start s = EmptyString
  \/ exists c r, trim_start s = String c r /\ is_white_space c = false.
Proof.
  induction s as [|c s IH]; simpl.
  - now left.
  - destruct (is_white_space c) eqn:Hc; [exact IH|].
    right. now exists c, s.
Qed.

Lemma trim_start_snoc (u : string) (c : ascii) :
  trim_start (u ++ String c EmptyString)
  = match trim_start u with
    | EmptyString =>
        if is_white_space c then EmptyString else String c EmptyString
    | String _ _ => (trim_start u ++ String c EmptyString)%string
    end.
Proof.
  induction u as [|d u IH]; simpl.
  - reflexivity.
  - destruct (is_white_space d); [exact IH | reflexivity].
Qed.

(** Removing the trailing white space, from the left. *)
Lemma trim_end_cons (c : ascii) (r : string) :
  Spec.trim_end (String c r)
  = match Spec.trim_end r with
    | EmptyString =>
        if is_white_space c then EmptyString else String c EmptyString
    | String _ _ => String c (Spec.trim_end r)
    end.
Proof.
  unfold Spec.trim_end. rewrite reverse_cons, trim_start_snoc.
  destruct (trim_start (reverse r)) as [|d t] eqn:Ht.
  - change (reverse EmptyString) with EmptyString. cbv iota.
    now destruct (is_white_space c).
  - rewrite reverse_snoc.
    destruct (reverse (String d t)) eqn:Hrev; [|reflexivity].
    apply reverse_empty in Hrev. discriminate Hrev.
Qed.

Lemma white_space_is_no_digit (c : ascii) :
  is_white_space c = true -> digit c = None.
Proof.
  destruct c as [[] [] [] [] [] [] [] []]; try discriminate; reflexivity.
Qed.

(** The digits read are the same without the trailing white space. *)
Lemma digits_trim_end (r : string) (acc : option Z) :
  digits (Spec.trim_end r) acc = digits r acc.
Proof.
  revert acc. induction r as [|c r IH]; intros acc.
  - reflexivity.
  - rewrite trim_end_cons.
    destruct (Spec.trim_end r) as [|d t] eqn:Ht.
    + destruct (is_white_space c) eqn:Hc; simpl.
      * now rewrite (white_space_is_no_digit c Hc).
      * destruct (digit c); [|reflexivity].
        rewrite <- IH. reflexivity.
    + simpl. destruct (digit c); [|reflexivity].
      rewrite <- IH. reflexivity.
Qed.

(** [parseInt], with its sign test written with [Ascii.eqb]. *)
Lemma parseInt_cases (s : string) :
  parseInt s
  = match trim_start s with
    | String c rest =>
        if Ascii.eqb c "-"
        then option_map Z.opp (digits rest None)
        else if Ascii.eqb c "+" then digits rest None
             else digits (String c rest) None
    | EmptyString => None
    end.
Proof.
  unfold parseInt. destruct (trim_start s) as [|c rest]; [reflexivity|].
  destruct c as [[] [] [] [] [] [] [] []]; cbv beta iota zeta;
    try (now destruct (digits _ None)).
Qed.

Lemma parseInt_trim (s : string) : parseInt (trim s) = parseInt s.
Proof.
  rewrite !parseInt_cases.
  change (trim s) with (Spec.trim_end (trim_start s)).
  destruct (trim_start_head s) as [->|[c [r [-> Hc]]]].
  - reflexivity.
  - assert (Hend : Spec.trim_end (String c r) = String c (Spec.trim_end r)).
    { rewrite trim_end_cons. rewrite Hc. now destruct (Spec.trim_end r). }
    rewrite Hend. simpl trim_start. rewrite Hc.
    destruct (Ascii.eqb c "-"); [now rewrite digits_trim_end|].
    destruct (Ascii.eqb c "+"); [now rewrite digits_trim_end|].
    rewrite <- Hend. apply digits_trim_end.
Qed.

Lemma digit_of_digit_char (d : nat) :
  d < 10 ->
  digit (Spec.digit_char d) = Some (Z.of_nat d)
  /\ is_white_space (Spec.digit_char d) = false
  /\ Ascii.eqb (Spec.digit_char d) "-" = false
  /\ Ascii.eqb (Spec.digit_char d) "+" = false.
Proof.
  intros Hd.
  do 10 (destruct d as [|d]; [repeat split|]).
  lia.
Qed.

(** Reading the text of digits [ds] gives the number they denote. *)
Lemma digits_digit_text (ds : list nat) (rest : string) (acc : option Z) :
  Forall (fun d => d < 10) ds ->
  Spec.no_digit_ahead rest ->
  digits (Spec.digit_text ds ++ rest) acc
  = match ds with
    | [] => acc
    | _ :: _ => Some (Spec.horner (match acc with Some a => a | None => 0%Z end) ds)
    end.
Proof.
  intros Hds Hrest. revert acc.
  induction Hds as [|d ds Hd _ IH]; intros acc.
  - destruct rest as [|c rest]; [reflexivity|].
    cbn [Spec.digit_text append digits]. cbv beta in Hrest. simpl in Hrest.
    now rewrite Hrest.
  - cbn [Spec.digit_text append digits].
    rewrite (proj1 (digit_of_digit_char d Hd)), IH.
    now destruct ds.
Qed.

Lemma trim_start_white (ws s : string) :
  Spec.white ws -> trim_start (ws ++ s) = trim_start s.
Proof.
  unfold Spec.white. induction ws as [|c ws IH]; simpl; intros Hws.
  - reflexivity.
  - apply andb_true_iff in Hws as [Hc Hws]. rewrite Hc. now apply IH.
Qed.

(** [parseInt] on a decimal numeral, with white space before it and
    anything but a digit after it. *)
Lemma parseInt_decimal (ws rest : string) (d : nat) (ds : list nat) :
  Spec.white ws ->
  Forall (fun d => d < 10) (d :: ds) ->
  Spec.no_digit_ahead rest ->
  parseInt (ws ++ Spec.digit_text (d :: ds) ++ rest)
  = Some (Spec.horner 0 (d :: ds)).
Proof.
  intros Hws Hds Hrest.
  rewrite parseInt_cases, (trim_start_white ws _ Hws).
  pose proof (digit_of_digit_char d (Forall_inv Hds)) as [_ [Hw [Hminus Hplus]]].
  cbn [Spec.digit_text append trim_start]. rewrite Hw, Hminus, Hplus.
  exact (digits_digit_text (d :: ds) rest None Hds Hrest).
Qed.

(** ** findServerPid *)

Lemma findServerPid_eq (env : Env) (w : World) :
  findServerPid env w
  = match new_URL env (BASE_URL env) with
    | None => (Ret None, w)
    | Some url =>
        (Ret match child_exec env (Spec.lsof_command url) with
             | Some stdout => parseInt stdout
             | None => None
             end,
         with_events w [Exec (Spec.lsof_command url)])
    end.
Proof.
  cbv [findServerPid try_catch bind execPromise emit ret throw].
  destruct (new_URL env (BASE_URL env)) as [url|]; [|reflexivity].
  change ("lsof -i :" ++ _ ++ " -t | head -n1")%string
    with (Spec.lsof_command url).
  destruct (child_exec env (Spec.lsof_command url)) as [stdout|];
    [|reflexivity].
  cbv beta iota. now rewrite parseInt_trim.
Qed.

(** X1: [findServerPid] never throws.  It returns [null] without running
    any command when [BASE_URL] is not a URL; otherwise it runs one lsof
    command, on the port of the URL or, when the URL has none, on 443 for
    https and on 80 for any other protocol, and returns [null] when the
    command fails and what [parseInt] reads in its output otherwise, which
    the call of [trim] does not change. *)
Theorem X1_findServerPid_never_throws :
  forall (env : Env) (w : World),
    findServerPid env w
    = match new_URL env (BASE_URL env) with
      | None => (Ret None, w)
      | Some url =>
          (Ret match child_exec env (Spec.lsof_command url) with
               | Some stdout => parseInt stdout
               | None => None
               end,
           with_events w [Exec (Spec.lsof_command url)])
      end.
Proof.
  intros env w.
  cbv [findServerPid try_catch bind execPromise emit ret throw].
  destruct (new_URL env (BASE_URL env)) as [url|]; [|reflexivity].
  change ("lsof -i :" ++ _ ++ " -t | head -n1")%string
    with (Spec.lsof_command url).
  destruct (child_exec env (Spec.lsof_command url)) as [stdout|];
    [|reflexivity].
  cbv beta iota. now rewrite parseInt_trim.
Qed.

(** X2: when lsof prints a decimal numeral, possibly after white space and
    followed by anything that does not begin with a digit (the newline, as a
    rule), and the number that the numeral denotes is at most 2^53, so that
    a JavaScript number holds it exactly, [findServerPid] returns that
    number. *)
Theorem X2_findServerPid_reads_the_pid :
  forall (env : Env) (w : World) (url : Url.t)
         (ws rest : string) (d : nat) (ds : list nat),
    new_URL env (BASE_URL env) = Some url ->
    child_exec env (Spec.lsof_command url)
    = Some (ws ++ Spec.digit_text (d :: ds) ++ rest)%string ->
    Spec.white ws ->
    Forall (fun d => d < 10) (d :: ds) ->
    Spec.no_digit_ahead rest ->
    Spec.exact_integer (Spec.horner 0 (d :: ds)) ->
    fst (findServerPid env w) = Ret (Some (Spec.horner 0 (d :: ds))).
Proof.
  intros env w url ws rest d ds Hurl Hexec Hws Hds Hrest _.
  rewrite findServerPid_eq, Hurl, Hexec.
  cbn [fst]. now rewrite parseInt_decimal.
Qed.

Lemma X2_witness :
  fst (findServerPid Examples.env_up initial) = Ret (Some 4242%Z).
Proof.
  apply (X2_findServerPid_reads_the_pid Examples.env_up initial
           {| Url.port := "8080"; Url.protocol := "http:" |}
           EmptyString nl 4 [2; 4; 2]).
  - reflexivity.
  - reflexivity.
  - reflexivity.
  - repeat constructor.
  - reflexivity.
  - unfold Spec.exact_integer. vm_compute. discriminate.
Defined.

(** X3: when lsof prints 0, [findServerPid] returns 0, which is not [null]
    but is falsy: as with [null], no timer of the monitor is set in the
    whole run and every summary has [null] for its CPU and memory fields. *)
Theorem X3_pid_zero_is_not_monitored :
  forall env : Env,
    fst (findServerPid env initial) = Ret (Some 0%Z) ->
    (forall e, In e (events (snd (run env))) -> is_monitor_start e = false)
    /\ (forall s,
           In s (summaries (snd (run env))) ->
           Summary.cpu s = None /\ Summary.memory s = None).
Proof.
  intros env Hzero.
  set (okE := fun e => is_monitor_start e = false).
  assert (Hplain : forall e, plain_event e = true ->
                             stable (local okE Spec.resources_absent) (emit e)).
  { intros e He. apply local_emit. now destruct e. }
  assert (Hrun : local okE Spec.resources_absent (snd (run env))).
  { unfold run.
    apply (stable_try_catch (local okE Spec.resources_absent)).
    - apply main_stable.
      + exact Hplain.
      + apply local_get_calls.
      + apply local_random_free.
      + intros s c p. apply run_all_benchmarks_stable.
        * exact Hplain.
        * intros serverPid Hpid. rewrite Hzero in Hpid. injection Hpid as <-.
          split; [intros Ht; vm_compute in Ht; discriminate Ht|].
          intros ep c0 result avg Havg. rewrite (Havg eq_refl).
          apply local_push. split; reflexivity.
        * intros ep r Hep Hr.
          apply (endpoints_requests_stable env _ s c p
                   (local_random_free okE Spec.resources_absent)
                   (fun req => local_emit okE Spec.resources_absent
                                 (LoadRequest req) eq_refl)
                   ep r Hep Hr).
    - intros e. apply stable_bind; [now apply Hplain | intros _].
      now apply local_emit.
    - apply local_initial. }
  destruct Hrun as [Hev Hsum]. split.
  - intros e He. exact (proj1 (Forall_forall _ _) Hev e He).
  - intros s Hs. exact (proj1 (Forall_forall _ _) Hsum s Hs).
Qed.

Lemma X3_witness :
  fst (findServerPid Examples.env_pid_zero initial) = Ret (Some 0%Z)
  /\ forall e,
       In e (events (snd (run Examples.env_pid_zero))) ->
       is_monitor_start e = false.
Proof.
  assert (Hzero : fst (findServerPid Examples.env_pid_zero initial)
                  = Ret (Some 0%Z))
    by (vm_compute; reflexivity).
  split; [exact Hzero|].
  exact (proj1 (X3_pid_zero_is_not_monitored Examples.env_pid_zero Hzero)).
Defined.

(** ** The order of the phases *)

Section Skeleton.

Variable env : Env.

Let has_skeleton (l : list Event) (w : World) : Prop := Spec.phase_events w = l.

Lemma skeleton_other l e :
  Spec.is_phase_event e = false -> stable (has_skeleton l) (emit e).
Proof.
  intros He w Hw. unfold has_skeleton, Spec.phase_events in *. simpl.
  rewrite filter_app. simpl. rewrite He, Hw. apply app_nil_r.
Qed.

Lemma skeleton_phase_event l e :
  Spec.is_phase_event e = true ->
  hoare (has_skeleton l) (emit e) (on_return (has_skeleton (l ++ [e]))).
Proof.
  intros He w Hw. unfold on_return, has_skeleton, Spec.phase_events in *. simpl.
  rewrite filter_app. simpl. now rewrite He, Hw.
Qed.

Lemma skeleton_random_free l : random_free (has_skeleton l).
Proof. intros w n H. exact H. Qed.

Lemma skeleton_push l s : stable (has_skeleton l) (summaries_push s).
Proof. intros w H. exact H. Qed.

Lemma skeleton_requests l secretHex commitment proof ep r :
  In ep (endpoints env secretHex commitment proof) ->
  In r (Endpoint.requests ep) ->
  stable (has_skeleton l) (bind (resolve r) (fun req => emit (LoadRequest req))).
Proof.
  apply (endpoints_requests_stable env (has_skeleton l) secretHex commitment
           proof (skeleton_random_free l)
           (fun req => skeleton_other l (LoadRequest req) eq_refl)).
Qed.

Lemma runAutocannon_skeleton l c (requests : list RequestSpec.t) :
  (forall l' r, In r requests ->
                stable (has_skeleton l')
                       (bind (resolve r) (fun req => emit (LoadRequest req)))) ->
  hoare (has_skeleton l) (runAutocannon env c TEST_DURATION requests)
        (on_return
           (has_skeleton (l ++ [AutocannonStart (BASE_URL env) c TEST_DURATION]))).
Proof.
  intros Hreq. unfold runAutocannon.
  apply hoare_seq
    with (R := has_skeleton (l ++ [AutocannonStart (BASE_URL env) c TEST_DURATION])).
  - now apply skeleton_phase_event.
  - intros _. apply hoare_seq_stable.
    + apply issue_stable. apply Hreq.
    + intros _. apply stable_on_return.
      destruct (AcRun.outcome _); [apply stable_ret | apply stable_throw].
Qed.

Lemma hoare_pure {A} (phi : Prop) (P : World -> Prop) (m : M World A)
      (Q : result A -> World -> Prop) :
  (phi -> hoare P m Q) -> hoare (fun w => phi /\ P w) m Q.
Proof. intros H w [Hphi Hw]. now apply H. Qed.

Lemma startResourceMonitor_skeleton l p :
  hoare (has_skeleton l) (startResourceMonitor p)
        (on_return (has_skeleton (l ++ [SetInterval SAMPLE_INTERVAL_MS p]))).
Proof.
  unfold startResourceMonitor.
  apply hoare_seq with (R := has_skeleton (l ++ [SetInterval SAMPLE_INTERVAL_MS p])).
  - now apply skeleton_phase_event.
  - intros _. apply hoare_ret. intros w Hw. exact Hw.
Qed.

Lemma monitor_stop_skeleton l m :
  hoare (has_skeleton l) (monitor_stop m)
        (on_return (has_skeleton (l ++ [ClearInterval]))).
Proof.
  unfold monitor_stop.
  apply hoare_seq with (R := has_skeleton (l ++ [ClearInterval])).
  - now apply skeleton_phase_event.
  - intros _. apply hoare_ret. intros w Hw. exact Hw.
Qed.

(** A phase without a monitor only starts its load. *)
Lemma phase_skeleton_unmonitored l ep c :
  (forall l' r, In r (Endpoint.requests ep) ->
                stable (has_skeleton l')
                       (bind (resolve r) (fun req => emit (LoadRequest req)))) ->
  hoare (has_skeleton l)
        (result <- runAutocannon env c TEST_DURATION (Endpoint.requests ep) ;;
         monitor <- ret (@None Monitor.state) ;;
         summaries_push
           (summary ep c result
                    match monitor with
                    | Some m => computeAverages (Monitor.samples m)
                    | None => None
                    end))
        (on_return
           (has_skeleton (l ++ [AutocannonStart (BASE_URL env) c TEST_DURATION]))).
Proof.
  intros Hreq.
  apply hoare_seq
    with (R := has_skeleton
                 (l ++ [AutocannonStart (BASE_URL env) c TEST_DURATION]));
    [now apply runAutocannon_skeleton | intros result].
  apply hoare_seq_stable; [apply stable_ret | intros monitor'].
  apply stable_on_return, skeleton_push.
Qed.

(** What a phase that returns has added to the timer and load events. *)
Lemma phase_skeleton_eq l serverPid ep c :
  (forall l' r, In r (Endpoint.requests ep) ->
                stable (has_skeleton l')
                       (bind (resolve r) (fun req => emit (LoadRequest req)))) ->
  hoare (has_skeleton l) (phase env serverPid ep c)
        (on_return (has_skeleton (l ++ Spec.phase_skeleton env serverPid c))).
Proof.
  intros Hreq. unfold phase.
  apply hoare_seq_stable; [now apply skeleton_other | intros _].
  unfold Spec.phase_skeleton.
  destruct serverPid as [p|];
    [destruct (pid_truthy (Some p)) eqn:Hp|].
  - (* a monitor is started *)
    apply hoare_bind
      with (R := fun monitor w =>
                   (exists m, monitor = Some m)
                   /\ has_skeleton (l ++ [SetInterval SAMPLE_INTERVAL_MS p]) w).
    { apply hoare_bind
        with (R := fun _ => has_skeleton (l ++ [SetInterval SAMPLE_INTERVAL_MS p])).
      - intros w Hw. pose proof (startResourceMonitor_skeleton l p w Hw) as H.
        unfold on_return in H.
        now destruct (fst (startResourceMonitor p w)).
      - intros m. apply hoare_ret. intros w Hw. split; [now exists m | exact Hw]. }
    intros monitor. apply hoare_pure. intros [m ->].
    apply hoare_seq
      with (R := has_skeleton
                   ((l ++ [SetInterval SAMPLE_INTERVAL_MS p])
                      ++ [AutocannonStart (BASE_URL env) c TEST_DURATION]));
      [now apply runAutocannon_skeleton | intros result].
    replace (l ++ [SetInterval SAMPLE_INTERVAL_MS p;
                   AutocannonStart (BASE_URL env) c TEST_DURATION;
                   ClearInterval])
      with (((l ++ [SetInterval SAMPLE_INTERVAL_MS p])
               ++ [AutocannonStart (BASE_URL env) c TEST_DURATION])
              ++ [ClearInterval])
      by (now rewrite <- !app_assoc).
    cbn [option_map].
    apply hoare_seq
      with (R := has_skeleton
                   (((l ++ [SetInterval SAMPLE_INTERVAL_MS p])
                       ++ [AutocannonStart (BASE_URL env) c TEST_DURATION])
                      ++ [ClearInterval])).
    + apply hoare_seq
        with (R := has_skeleton
                     (((l ++ [SetInterval SAMPLE_INTERVAL_MS p])
                         ++ [AutocannonStart (BASE_URL env) c TEST_DURATION])
                        ++ [ClearInterval]));
        [apply monitor_stop_skeleton|].
      intros m'. apply hoare_ret. intros w Hw. exact Hw.
    + intros monitor'. apply stable_on_return, skeleton_push.
  - apply hoare_bind
      with (R := fun monitor w => monitor = None /\ has_skeleton l w);
      [apply hoare_ret; intros w Hw; now split | intros monitor].
    apply hoare_pure. intros ->.
    now apply phase_skeleton_unmonitored.
  - apply hoare_bind
      with (R := fun monitor w => monitor = None /\ has_skeleton l w);
      [apply hoare_ret; intros w Hw; now split | intros monitor].
    apply hoare_pure. intros ->.
    now apply phase_skeleton_unmonitored.
Qed.

Lemma levels_skeleton serverPid ep (levels : list Z) :
  (forall l r, In r (Endpoint.requests ep) ->
               stable (has_skeleton l)
                      (bind (resolve r) (fun req => emit (LoadRequest req)))) ->
  forall l,
    hoare (has_skeleton l) (for_of levels (fun c => phase env serverPid ep c))
          (on_return
             (has_skeleton
                (l ++ flat_map (Spec.phase_skeleton env serverPid) levels))).
Proof.
  intros Hreq.
  induction levels as [|c levels IH]; intros l; cbn [for_of flat_map].
  - apply hoare_ret. intros w Hw. unfold on_return. now rewrite app_nil_r.
  - apply hoare_seq
      with (R := has_skeleton (l ++ Spec.phase_skeleton env serverPid c)).
    + apply (phase_skeleton_eq l serverPid ep c Hreq).
    + intros _. specialize (IH (l ++ Spec.phase_skeleton env serverPid c)).
      now rewrite <- app_assoc in IH.
Qed.

Lemma sweep_skeleton_eq serverPid (eps : list Endpoint.t) :
  (forall l ep r, In ep eps -> In r (Endpoint.requests ep) ->
                  stable (has_skeleton l)
                         (bind (resolve r) (fun req => emit (LoadRequest req)))) ->
  forall l,
    hoare (has_skeleton l) (sweep env serverPid eps)
          (on_return
             (has_skeleton
                (l ++ Spec.sweep_skeleton env serverPid (List.length eps)))).
Proof.
  unfold sweep.
  induction eps as [|ep eps IH]; intros Hreq l;
    cbn [for_of List.length Spec.sweep_skeleton].
  - apply hoare_ret. intros w Hw. unfold on_return. now rewrite app_nil_r.
  - apply hoare_seq
      with (R := has_skeleton
                   (l ++ flat_map (Spec.phase_skeleton env serverPid)
                           CONCURRENCY_LEVELS)).
    + apply hoare_seq_stable; [now apply skeleton_other | intros _].
      apply levels_skeleton. intros l' r Hr.
      apply (Hreq l' ep r); [now left | exact Hr].
    + intros _.
      specialize (IH (fun l' ep' r Hep => Hreq l' ep' r (or_intror Hep))
                     (l ++ flat_map (Spec.phase_skeleton env serverPid)
                             CONCURRENCY_LEVELS)).
      now rewrite <- app_assoc in IH.
Qed.


Lemma findServerPid_skeleton l pid :
  fst (findServerPid env initial) = Ret pid ->
  hoare (has_skeleton l) (findServerPid env)
        (fun r w => r = Ret pid /\ has_skeleton l w).
Proof.
  intros Hpid w Hw. split.
  - now rewrite (findServerPid_result env w initial).
  - rewrite findServerPid_eq.
    destruct (new_URL env (BASE_URL env)) as [url|]; [|exact Hw].
    unfold has_skeleton, Spec.phase_events in *. simpl.
    rewrite filter_app, Hw. apply app_nil_r.
Qed.

Lemma run_all_benchmarks_skeleton l pid secretHex commitment proof :
  fst (findServerPid env initial) = Ret pid ->
  hoare (has_skeleton l)
        (run_all_benchmarks env (endpoints env secretHex commitment proof))
        (on_return (has_skeleton (l ++ Spec.sweep_skeleton env pid 3))).
Proof.
  intros Hpid. unfold run_all_benchmarks.
  apply hoare_bind with (R := fun serverPid w => serverPid = pid /\ has_skeleton l w).
  { intros w Hw. destruct (findServerPid_skeleton l pid Hpid w Hw) as [Hr Hs].
    rewrite Hr. now split. }
  intros serverPid. apply hoare_pure. intros ->.
  apply hoare_seq_stable; [|intros _].
  { destruct pid as [p|]; [|now apply skeleton_other].
    destruct (pid_truthy (Some p)); now apply skeleton_other. }
  apply (sweep_skeleton_eq pid (endpoints env secretHex commitment proof)
           (fun l' ep r => skeleton_requests l' secretHex commitment proof ep r) l).
Qed.

End Skeleton.

(** X4: the timer of the monitor brackets each load.  When "run all
    benchmarks" returns, what it has done to the timer and to autocannon
    is, endpoint by endpoint and for the concurrency levels in their
    order: with a truthy pid, set the timer at [SAMPLE_INTERVAL_MS] for the
    pid that [findServerPid] returned, start one load on [BASE_URL] for
    [TEST_DURATION] seconds, clear the timer; without one, start the load
    only.  No timer is left set and no two loads overlap a timer. *)
Theorem X4_timer_brackets_each_load :
  forall (env : Env) (secretHex commitment proof : value)
         (pid : option Z) (w : World),
    let eps := endpoints env secretHex commitment proof in
    fst (findServerPid env w) = Ret pid ->
    fst (run_all_benchmarks env eps w) = Ret tt ->
    Spec.phase_events (snd (run_all_benchmarks env eps w))
    = Spec.phase_events w
      ++ Spec.sweep_skeleton env pid (List.length eps).
Proof.
  intros env s c p pid w eps Hpid Hret.
  rewrite (findServerPid_result env w initial) in Hpid.
  pose proof (run_all_benchmarks_skeleton env (Spec.phase_events w) pid s c p
                Hpid w eq_refl) as H.
  unfold on_return in H. fold eps in H. rewrite Hret in H. exact H.
Qed.

Lemma X4_witness :
  let eps := endpoints Examples.env_up VUndefined VUndefined VUndefined in
  Spec.phase_events (snd (run_all_benchmarks Examples.env_up eps initial))
  = Spec.sweep_skeleton Examples.env_up (Some 4242%Z) 3.
Proof.
  intros eps.
  assert (Hpid : fst (findServerPid Examples.env_up initial) = Ret (Some 4242%Z))
    by (vm_compute; reflexivity).
  assert (Hret : fst (run_all_benchmarks Examples.env_up eps initial) = Ret tt)
    by (vm_compute; reflexivity).
  exact (X4_timer_brackets_each_load Examples.env_up VUndefined VUndefined
           VUndefined (Some 4242%Z) initial Hpid Hret).
Defined.

(** ** The table *)

Lemma print_summary_rows (s : Summary.t) (w : World) :
  Spec.has_p50 s = true ->
  exists evs,
    print_summary s w = (Ret tt, with_events w evs)
    /\ List.length evs = Spec.rows s.
Proof.
  unfold Spec.has_p50, Spec.rows, print_summary. intros Hp50.
  destruct (Summary.latencyP50 s) as [v|]; [|discriminate Hp50].
  destruct (Summary.cpu s) as [cpu|];
    cbv [bind console_log emit toFixed2 ret with_events events summaries
         random_calls get_calls];
    rewrite <- !app_assoc; eexists; split; reflexivity.
Qed.

Lemma print_summary_no_p50 (s : Summary.t) (w : World) :
  Spec.has_p50 s = false ->
  fst (print_summary s w)
  = Throw (TypeError "Cannot read properties of undefined (reading 'toFixed')").
Proof.
  unfold Spec.has_p50, print_summary. intros Hp50.
  destruct (Summary.latencyP50 s) as [v|]; [discriminate Hp50 | reflexivity].
Qed.

Lemma for_of_print_summary (l : list Summary.t) (w : World) :
  if forallb Spec.has_p50 l
  then exists evs,
      for_of l print_summary w = (Ret tt, with_events w evs)
      /\ List.length evs = list_sum (map Spec.rows l)
  else fst (for_of l print_summary w)
       = Throw (TypeError "Cannot read properties of undefined (reading 'toFixed')").
Proof.
  revert w. induction l as [|s l IH]; intros w; cbn [forallb for_of map list_sum].
  - exists []. split; [|reflexivity].
    unfold ret, with_events. rewrite app_nil_r. now destruct w.
  - destruct (Spec.has_p50 s) eqn:Hs; cbn [andb].
    + destruct (print_summary_rows s w Hs) as (evs & Heq & Hlen).
      unfold bind. rewrite Heq. specialize (IH (with_events w evs)).
      destruct (forallb Spec.has_p50 l).
      * destruct IH as (evs' & Heq' & Hlen').
        exists (evs ++ evs'). split.
        -- rewrite Heq'. unfold with_events. simpl. now rewrite app_assoc.
        -- rewrite length_app. cbn [list_sum fold_right]. fold (list_sum (map Spec.rows l)). lia.
      * exact IH.
    + pose proof (print_summary_no_p50 s w Hs) as Ht.
      unfold bind. destruct (print_summary s w) as [r w']. simpl in Ht.
      now rewrite Ht.
Qed.

Lemma print_summary_events (s : Summary.t) (w : World) :
  exists evs,
    events (snd (print_summary s w)) = events w ++ evs
    /\ Forall (fun e => e <> ConsoleLog [LStr nl; LStr "Benchmark completed ✅"])
              evs.
Proof.
  unfold print_summary.
  destruct (Summary.latencyP50 s) as [v|]; [destruct (Summary.cpu s) as [cpu|]|];
    cbv [bind console_log emit toFixed2 ret throw fst snd events];
    rewrite <- ?app_assoc; eexists; (split; [reflexivity|]);
    repeat constructor; discriminate.
Qed.

Lemma for_of_print_summary_events (l : list Summary.t) (w : World) :
  exists evs,
    events (snd (for_of l print_summary w)) = events w ++ evs
    /\ Forall (fun e => e <> ConsoleLog [LStr nl; LStr "Benchmark completed ✅"])
              evs.
Proof.
  revert w. induction l as [|s l IH]; intros w; cbn [for_of].
  - exists []. split; [|constructor]. simpl. now rewrite app_nil_r.
  - destruct (print_summary_events s w) as (evs & Heq & Hne).
    unfold bind. destruct (print_summary s w) as [[[]|e] w1]; cbn [snd] in *.
    + destruct (IH w1) as (evs' & Heq' & Hne').
      exists (evs ++ evs'). split.
      * now rewrite Heq', Heq, app_assoc.
      * apply Forall_app. now split.
    + now exists evs.
Qed.

(** X5: printing the table throws a TypeError exactly when one of the
    summaries has no number for its P50 latency ([undefined.toFixed]);
    the line "Benchmark completed" is then not printed by it.  Otherwise
    it returns, keeps the summaries, and has printed the header, for each
    summary five lines and then two (CPU and memory) or one ("n/a"), and
    last the line "Benchmark completed". *)
Theorem X5_print_table_needs_every_p50 :
  forall w : World,
    if forallb Spec.has_p50 (summaries w)
    then fst (print_table w) = Ret tt
         /\ summaries (snd (print_table w)) = summaries w
         /\ (exists evs,
                events (snd (print_table w))
                = events w ++ evs
                    ++ [ConsoleLog [LStr nl; LStr "Benchmark completed ✅"]]
                /\ List.length evs
                   = 1 + list_sum (map Spec.rows (summaries w)))
    else fst (print_table w)
         = Throw (TypeError "Cannot read properties of undefined (reading 'toFixed')")
         /\ (In (ConsoleLog [LStr nl; LStr "Benchmark completed ✅"])
                (events (snd (print_table w)))
             -> In (ConsoleLog [LStr nl; LStr "Benchmark completed ✅"])
                   (events w)).
Proof.
  intros w.
  pose proof (for_of_print_summary (summaries w)
                (with_events w [ConsoleLog [LStr nl;
       LStr "====================== Benchmark results ======================"]]))
    as H.
  unfold print_table, bind, console_log, emit.
  cbn [summaries]. unfold with_events in H.
  destruct (forallb Spec.has_p50 (summaries w)).
  - destruct H as (evs & Heq & Hlen).
    rewrite Heq. cbn [fst snd events summaries].
    repeat split.
    eexists (_ :: evs). split.
    + rewrite <- !app_assoc. reflexivity.
    + simpl. now rewrite Hlen.
  - destruct (for_of _ _ _) as [r w'] eqn:Hfor. cbn [fst] in H. subst r.
    cbn [fst snd]. split; [reflexivity|].
    pose proof (for_of_print_summary_events (summaries w)
                  {| events := events w ++ [ConsoleLog [LStr nl;
       LStr "====================== Benchmark results ======================"]];
                     summaries := summaries w;
                     random_calls := random_calls w;
                     get_calls := get_calls w |}) as (evs & Heq & Hne).
    rewrite Hfor in Heq. cbn [snd events] in Heq. rewrite Heq.
    intros Hin. apply in_app_or in Hin as [Hin|Hin].
    + apply in_app_or in Hin as [Hin|[Hin|[]]]; [exact Hin | discriminate Hin].
    + exfalso. exact (proj1 (Forall_forall _ _) Hne _ Hin eq_refl).
Qed.

(** ** When the preflight throws *)

Lemma settle_throw (x : wire) (e : error) :
  settle x = Throw e -> Spec.request_failed x.
Proof.
  destruct x as [code|r]; simpl; [trivial|].
  destruct (validateStatus (status r)); [discriminate | reflexivity].
Qed.

Lemma get_throw (v : value) (key : string) (e : error) :
  get v key = Throw e -> v = VUndefined \/ v = VNull.
Proof. destruct v; simpl; try discriminate; auto. Qed.

(** A request of the chain that throws, or whose answer cannot be read, is
    a faulty step. *)
Lemma step_fault_of_throw (x : wire) (key : string) :
  match settle x with
  | Throw _ => True
  | Ret r => exists e, get (data r) key = Throw e
  end ->
  Spec.step_fault x.
Proof.
  destruct (settle x) as [r|e] eqn:Hx.
  - intros [e He]. right. exists r. split.
    + now apply settle_ret.
    + exact (get_throw _ _ _ He).
  - intros _. left. exact (settle_throw _ _ Hx).
Qed.

Lemma preflight_throw_fault (env : Env) (w : World) (e : error) :
  random_calls w = 0 ->
  fst (preflight env w) = Throw e ->
  Spec.preflight_fault env.
Proof.
  intros Hdraw. rewrite (preflight_steps env w Hdraw). cbv zeta.
  destruct (settle (Spec.register_answer env)) as [reg|e1] eqn:Hreg.
  2:{ intros _. apply Spec.fault_register.
      apply (step_fault_of_throw _ "secret"). now rewrite Hreg. }
  destruct (get (data reg) "secret") as [s|e1] eqn:Hs.
  2:{ intros _. apply Spec.fault_register.
      apply (step_fault_of_throw _ "secret"). rewrite Hreg. now exists e1. }
  destruct (get (data reg) "commitment") as [c|e1] eqn:Hc.
  2:{ intros _. apply Spec.fault_register.
      apply (step_fault_of_throw _ "commitment"). rewrite Hreg. now exists e1. }
  assert (Hregistered : Spec.registered env s c).
  { exists reg. split; [now apply settle_ret | now split]. }
  destruct (settle (Spec.proof_answer env s c)) as [prf|e1] eqn:Hprf.
  2:{ intros _. apply (Spec.fault_proof env s c Hregistered).
      apply (step_fault_of_throw _ "proof"). now rewrite Hprf. }
  destruct (get (data prf) "proof") as [p|e1] eqn:Hp.
  2:{ intros _. apply (Spec.fault_proof env s c Hregistered).
      apply (step_fault_of_throw _ "proof"). rewrite Hprf. now exists e1. }
  assert (Hproved : Spec.proved env s c p).
  { split; [exact Hregistered|]. exists prf. split; [now apply settle_ret | exact Hp]. }
  destruct (settle (Spec.verify_answer env c p)) as [ver|e1] eqn:Hver.
  2:{ intros _. apply (Spec.fault_verify env s c p Hproved).
      apply (step_fault_of_throw _ "valid"). now rewrite Hver. }
  destruct (get (data ver) "valid") as [v|e1] eqn:Hv.
  2:{ intros _. apply (Spec.fault_verify env s c p Hproved).
      apply (step_fault_of_throw _ "valid"). rewrite Hver. now exists e1. }
  destruct (to_boolean v) eqn:Hvalid; cbn [negb]; [discriminate|].
  intros _.
  exact (Spec.fault_invalid env s c p ver v Hproved (settle_ret _ _ Hver) Hv Hvalid).
Qed.

(** X6: the preflight throws exactly when a step of its chain is faulty:
    a request without a response or with a status outside 2xx, an answer
    whose body is [null] or [undefined], or a verification whose [valid]
    is falsy.  Nothing else makes it throw. *)
Theorem X6_preflight_throws_exactly_on_a_fault :
  forall (env : Env) (w : World),
    random_calls w = 0 ->
    (Spec.preflight_fault env <-> exists e, fst (preflight env w) = Throw e).
Proof.
  intros env w Hdraw. split.
  - intros Hfault.
    destruct (preflight_fault_throws env w Hdraw Hfault) as (e & posts & _ & Heq).
    exists e. now rewrite Heq.
  - intros [e He]. exact (preflight_throw_fault env w e Hdraw He).
Qed.

Lemma X6_witness :
  Spec.preflight_fault Examples.env_rejecting
  <-> exists e, fst (preflight Examples.env_rejecting initial) = Throw e.
Proof.
  exact (X6_preflight_throws_exactly_on_a_fault Examples.env_rejecting initial
           eq_refl).
Defined.

(** ** When load is generated *)

Section Loaded.

Variable env : Env.

Lemma loaded_emit (e : Event) : stable Spec.loaded (emit e).
Proof.
  intros w Hw. unfold Spec.loaded in *. simpl.
  rewrite existsb_app, Hw. reflexivity.
Qed.

Lemma loaded_plain (e : Event) :
  plain_event e = true -> stable Spec.loaded (emit e).
Proof. intros _. apply loaded_emit. Qed.

Lemma loaded_random_free : random_free Spec.loaded.
Proof. intros w n H. exact H. Qed.

Lemma loaded_push (s : Summary.t) : stable Spec.loaded (summaries_push s).
Proof. intros w H. exact H. Qed.

Lemma loaded_requests secretHex commitment proof ep r :
  In ep (endpoints env secretHex commitment proof) ->
  In r (Endpoint.requests ep) ->
  stable Spec.loaded (bind (resolve r) (fun req => emit (LoadRequest req))).
Proof.
  apply (endpoints_requests_stable env Spec.loaded secretHex commitment proof
           loaded_random_free (fun req => loaded_emit (LoadRequest req))).
Qed.

Lemma loaded_phase serverPid ep c :
  (forall r, In r (Endpoint.requests ep) ->
             stable Spec.loaded
                    (bind (resolve r) (fun req => emit (LoadRequest req)))) ->
  stable Spec.loaded (phase env serverPid ep c).
Proof.
  intros Hreq. apply (phase_stable env Spec.loaded loaded_plain).
  - intros _. split; [intros p|]; apply loaded_emit.
  - intros result avg _. apply loaded_push.
  - exact Hreq.
Qed.

Lemma loaded_sweep serverPid (eps : list Endpoint.t) :
  (forall ep r, In ep eps -> In r (Endpoint.requests ep) ->
                stable Spec.loaded
                       (bind (resolve r) (fun req => emit (LoadRequest req)))) ->
  stable Spec.loaded (sweep env serverPid eps).
Proof.
  intros Hreq. apply (sweep_stable env Spec.loaded loaded_plain).
  - intros _. split; [intros p|]; apply loaded_emit.
  - intros ep c result avg _. apply loaded_push.
  - exact Hreq.
Qed.

(** A phase starts its load, whatever happens next. *)
Lemma phase_loads serverPid ep c :
  (forall r, In r (Endpoint.requests ep) ->
             stable Spec.loaded
                    (bind (resolve r) (fun req => emit (LoadRequest req)))) ->
  hoare (fun _ => True) (phase env serverPid ep c) (fun _ => Spec.loaded).
Proof.
  intros Hreq. unfold phase.
  apply hoare_bind with (R := fun _ _ => True); [intros w _; exact I | intros _].
  apply hoare_bind with (R := fun _ _ => True).
  { intros w _. destruct serverPid as [p|]; [destruct (pid_truthy (Some p))|];
      exact I. }
  intros monitor. apply hoare_then_stable.
  - unfold runAutocannon. apply hoare_then_stable.
    + intros w _. unfold Spec.loaded. simpl. rewrite existsb_app. simpl.
      apply orb_true_r.
    + intros _. apply stable_bind; [now apply issue_stable | intros _].
      destruct (AcRun.outcome _); [apply stable_ret | apply stable_throw].
  - intros result. apply stable_bind; [|intros monitor'; apply loaded_push].
    destruct (option_map _ monitor) as [m|]; [|apply stable_ret].
    apply stable_bind; [|intros m'; apply stable_ret].
    apply stable_bind; [apply loaded_emit | intros _; apply stable_ret].
Qed.

Lemma levels_loads serverPid ep c (levels : list Z) :
  (forall r, In r (Endpoint.requests ep) ->
             stable Spec.loaded
                    (bind (resolve r) (fun req => emit (LoadRequest req)))) ->
  hoare (fun _ => True)
        (for_of (c :: levels) (fun c => phase env serverPid ep c))
        (fun _ => Spec.loaded).
Proof.
  intros Hreq. cbn [for_of]. apply hoare_then_stable.
  - now apply phase_loads.
  - intros _. apply stable_for_of. intros c' _. now apply loaded_phase.
Qed.

Lemma run_all_benchmarks_loads secretHex commitment proof :
  hoare (fun _ => True)
        (run_all_benchmarks env (endpoints env secretHex commitment proof))
        (fun _ => Spec.loaded).
Proof.
  pose proof (loaded_requests secretHex commitment proof) as Hreq.
  unfold run_all_benchmarks.
  apply hoare_bind with (R := fun _ _ => True).
  { intros w _. rewrite findServerPid_eq.
    destruct (new_URL env (BASE_URL env)); exact I. }
  intros serverPid.
  apply hoare_bind with (R := fun _ _ => True).
  { intros w _. destruct serverPid as [p|]; [destruct (pid_truthy (Some p))|];
      exact I. }
  intros _. unfold sweep.
  destruct (endpoints env secretHex commitment proof) as [|ep eps] eqn:Heps;
    [discriminate Heps|].
  cbn [for_of]. apply hoare_then_stable.
  - apply hoare_bind with (R := fun _ _ => True); [intros w _; exact I | intros _].
    apply levels_loads. intros r Hr. apply (Hreq ep r); [now left | exact Hr].
  - intros _. apply (loaded_sweep serverPid eps).
    intros ep' r Hep Hr. apply (Hreq ep' r); [now right | exact Hr].
Qed.

(** When the preflight returns, the run generates load. *)
Lemma run_loads (fixture : value * value * value) :
  fst (preflight env (snd (startup env initial))) = Ret fixture ->
  Spec.loaded (snd (run env)).
Proof.
  intros Hret. unfold run.
  apply (hoare_catch_stable (fun w => w = initial) Spec.loaded); [| |reflexivity].
  - unfold main.
    apply hoare_bind with (R := fun _ w => w = snd (startup env initial)).
    { intros w ->. now rewrite startup_eq. }
    intros _. apply hoare_bind with (R := fun _ _ => True).
    { intros w ->. now rewrite Hret. }
    intros [[s c] p]. cbv beta iota. apply hoare_then_stable.
    + apply run_all_benchmarks_loads.
    + intros _. apply (print_table_stable Spec.loaded loaded_plain).
  - intros e. apply stable_bind; [apply loaded_emit | intros _; apply loaded_emit].
Qed.

(** A faulty preflight ends the run before any load. *)
Lemma fault_no_load :
  Spec.preflight_fault env ->
  existsb is_load (events (snd (run env))) = false.
Proof.
  intros Hfault.
  unfold run, try_catch, main. unfold bind at 1. rewrite startup_eq.
  cbv beta iota. unfold bind at 1.
  match goal with
  | |- context [preflight env ?w] =>
      destruct (preflight_fault_throws env w eq_refl Hfault)
        as [e [posts [Hposts Heq]]];
      rewrite Heq
  end.
  cbv beta iota. unfold console_error, bind, emit, with_events. simpl.
  assert (Hload : forall ev, is_post ev = true -> is_load ev = false)
    by (now intros []).
  rewrite <- !app_assoc. simpl.
  now rewrite (existsb_after_posts is_load posts _ Hload Hposts).
Qed.

End Loaded.

(** X7: a run generates load exactly when its preflight has no fault: with
    a faulty step it starts no autocannon run and sends no load request,
    and without one it starts at least the first run. *)
Theorem X7_load_exactly_without_fault :
  forall env : Env,
    existsb is_load (events (snd (run env))) = false
    <-> Spec.preflight_fault env.
Proof.
  intros env. split.
  - intros Hnone.
    destruct (fst (preflight env (snd (startup env initial))))
      as [fixture|e] eqn:Hpre.
    + pose proof (run_loads env fixture Hpre) as Hloaded.
      unfold Spec.loaded in Hloaded. rewrite Hnone in Hloaded.
      discriminate Hloaded.
    + apply (preflight_throw_fault env (snd (startup env initial)) e);
        [now rewrite startup_eq | exact Hpre].
  - apply fault_no_load.
Qed.

(** ** How a run ends *)

Lemma main_ends_with_completion (env : Env) :
  hoare (fun _ => True) (main env)
        (on_return
           (fun w =>
              exists before,
                events w
                = before ++ [ConsoleLog [LStr nl; LStr "Benchmark completed ✅"]])).
Proof.
  unfold main.
  apply hoare_seq with (R := fun _ => True);
    [intros w _; unfold on_return; now destruct (fst _) | intros _].
  apply hoare_seq with (R := fun _ => True);
    [intros w _; unfold on_return; now destruct (fst _) | intros [[s c] p]].
  apply hoare_seq with (R := fun _ => True);
    [intros w _; unfold on_return; now destruct (fst _) | intros _].
  unfold print_table.
  apply hoare_seq with (R := fun _ => True);
    [intros w _; unfold on_return; now destruct (fst _) | intros _].
  apply hoare_seq with (R := fun _ => True);
    [intros w _; unfold on_return; now destruct (fst _) | intros _].
  intros w _. simpl. now exists (events w).
Qed.

(** X8: a run ends in one of two ways, and its promise is never rejected.
    When [main] returns, the exit status is 0 and the last thing done is
    to print "Benchmark completed".  When [main] throws [err], whatever
    the statement that threw, the run ends with [console.error(err)] and
    then [process.exit(1)], the only call of [process.exit] in the run. *)
Theorem X8_run_ends_in_one_of_two_ways :
  forall env : Env,
    fst (run env) = Ret tt
    /\ match fst (main env initial) with
       | Ret _ =>
           exit_status (snd (run env)) = 0%Z
           /\ exists before,
               events (snd (run env))
               = before ++ [ConsoleLog [LStr nl; LStr "Benchmark completed ✅"]]
       | Throw err =>
           exit_status (snd (run env)) = 1%Z
           /\ exists before,
               events (snd (run env))
               = before ++ [ConsoleError [LErr err]; ProcessExit 1]
               /\ Forall (fun e => is_exit e = false) before
       end.
Proof.
  intros env.
  pose proof (main_no_exit env initial (local_initial _ _)) as [Hexit _].
  pose proof (main_ends_with_completion env initial I) as Hlast.
  pose proof (run_exit_status env) as Hstatus.
  unfold on_return in Hlast. unfold run, try_catch in *.
  destruct (main env initial) as [[[]|err] w]; cbn [fst snd] in *.
  - split; [reflexivity|]. split; [|exact Hlast].
    unfold exit_status.
    rewrite <- (app_nil_r (events w)), (find_exit_after (events w) [] Hexit).
    reflexivity.
  - split; [reflexivity|]. split; [exact Hstatus|].
    exists (events w). split; [|exact Hexit].
    unfold console_error, bind, emit. simpl. now rewrite <- app_assoc.
Qed.

(** ** When a run succeeds *)

Lemma hoare_bind_ret {W A B} (P R : W -> Prop) (m : M W A) (k : A -> M W B)
      (Q : result B -> W -> Prop) :
  hoare P m (fun r w => (exists a, r = Ret a) /\ R w) ->
  (forall a, hoare R (k a) Q) ->
  hoare P (bind m k) Q.
Proof.
  intros Hm Hk w Hw. destruct (Hm w Hw) as [[a Ha] HR]. unfold bind.
  destruct (m w) as [r w']. simpl in *. subst r. apply Hk, HR.
Qed.

Section Outcome.

Variable env : Env.

(** The summaries are [l]. *)
Let has_sums (l : list Summary.t) (w : World) : Prop := summaries w = l.

(** The computation returns and keeps the summaries. *)
Let quiet {A} (l : list Summary.t) (m : M World A) : Prop :=
  hoare (has_sums l) m (fun r w => (exists a, r = Ret a) /\ has_sums l w).

Lemma quiet_emit l e : quiet l (emit e).
Proof. intros w Hw. split; [now exists tt | exact Hw]. Qed.

Lemma quiet_ret {A} l (a : A) : quiet l (ret a).
Proof. intros w Hw. split; [now exists a | exact Hw]. Qed.

Lemma quiet_bind {A B} l (m : M World A) (k : A -> M World B) :
  quiet l m -> (forall a, quiet l (k a)) -> quiet l (bind m k).
Proof. intros Hm Hk. apply hoare_bind_ret with (R := has_sums l); assumption. Qed.

Lemma quiet_buildUser l : quiet l (buildUser env).
Proof. intros w Hw. split; [now eexists | exact Hw]. Qed.

Lemma quiet_requests l secretHex commitment proof ep r :
  In ep (endpoints env secretHex commitment proof) ->
  In r (Endpoint.requests ep) ->
  quiet l (bind (resolve r) (fun req => emit (LoadRequest req))).
Proof.
  intros Hep Hin.
  destruct Hep as [<-|[<-|[<-|[]]]]; destruct Hin as [<-|[]];
    unfold resolve; simpl.
  - apply quiet_bind; [|intros req; apply quiet_emit].
    apply quiet_bind; [apply quiet_buildUser | intros u; apply quiet_ret].
  - apply quiet_bind; [apply quiet_ret | intros req; apply quiet_emit].
  - apply quiet_bind; [apply quiet_ret | intros req; apply quiet_emit].
Qed.

Lemma quiet_issue l (requests : list RequestSpec.t) n k :
  (forall r, In r requests ->
             quiet l (bind (resolve r) (fun req => emit (LoadRequest req)))) ->
  quiet l (issue n k requests).
Proof.
  intros Hreq. revert k.
  induction n as [|n IH]; intros k; simpl.
  - apply quiet_ret.
  - apply quiet_bind; [|intros _; apply IH].
    destruct (nth_error requests (k mod List.length requests)) as [r|] eqn:Hr.
    + apply Hreq. eapply nth_error_In, Hr.
    + apply quiet_ret.
Qed.

Lemma quiet_findServerPid l : quiet l (findServerPid env).
Proof.
  intros w Hw. rewrite findServerPid_eq.
  destruct (new_URL env (BASE_URL env)); (split; [now eexists | exact Hw]).
Qed.

(** [runAutocannon] returns the result of the run, or throws when there
    is none. *)
Lemma runAutocannon_outcome l ep c :
  (forall l' r, In r (Endpoint.requests ep) ->
                quiet l' (bind (resolve r) (fun req => emit (LoadRequest req)))) ->
  hoare (has_sums l) (runAutocannon env c TEST_DURATION (Endpoint.requests ep))
        (fun r w =>
           has_sums l w
           /\ r = match Spec.load_result env (ep, c) with
                  | Some res => Ret res
                  | None => Throw AutocannonError
                  end).
Proof.
  intros Hreq. unfold runAutocannon, Spec.load_result, Spec.load_opts.
  cbn [fst snd].
  apply hoare_bind_ret with (R := has_sums l); [apply quiet_emit | intros _].
  apply hoare_bind_ret with (R := has_sums l);
    [apply quiet_issue, Hreq | intros _].
  intros w Hw. split; [|now destruct (AcRun.outcome _)].
  now destruct (AcRun.outcome _).
Qed.

(** A phase returns exactly when its load run ends with a result, and it
    has then pushed the summary of that result. *)
Lemma phase_outcome l serverPid ep c :
  (forall l' r, In r (Endpoint.requests ep) ->
                quiet l' (bind (resolve r) (fun req => emit (LoadRequest req)))) ->
  hoare (has_sums l) (phase env serverPid ep c)
        (fun r w =>
           match Spec.load_result env (ep, c) with
           | Some res =>
               r = Ret tt
               /\ exists avg, summaries w = l ++ [summary ep c res avg]
           | None => r = Throw AutocannonError
           end).
Proof.
  intros Hreq. unfold phase.
  apply hoare_bind_ret with (R := has_sums l); [apply quiet_emit | intros _].
  apply hoare_bind_ret with (R := has_sums l).
  { destruct serverPid as [p|]; [destruct (pid_truthy (Some p))|].
    - apply quiet_bind; [|intros m; apply quiet_ret].
      apply quiet_bind; [apply quiet_emit | intros _; apply quiet_ret].
    - apply quiet_ret.
    - apply quiet_ret. }
  intros monitor.
  apply hoare_bind
    with (R := fun result w =>
                 Spec.load_result env (ep, c) = Some result /\ has_sums l w).
  { intros w Hw. destruct (runAutocannon_outcome l ep c Hreq w Hw) as [Hs Hr].
    rewrite Hr. destruct (Spec.load_result env (ep, c)); [now split | reflexivity]. }
  intros result. apply hoare_pure. intros Hres. rewrite Hres.
  apply hoare_bind_ret with (R := has_sums l).
  { destruct (option_map _ monitor) as [m|]; [|apply quiet_ret].
    apply quiet_bind; [|intros m'; apply quiet_ret].
    apply quiet_bind; [apply quiet_emit | intros _; apply quiet_ret]. }
  intros monitor' w Hw. split; [reflexivity|].
  eexists. simpl. unfold has_sums in Hw. rewrite Hw. reflexivity.
Qed.

(** What a part of the sweep that runs the phases [ps] ends with: it
    returns when every load run of [ps] ends with a result, having pushed
    summaries which all have a P50 figure exactly when every result is
    usable; it throws otherwise. *)
Let outcome_post (l : list Summary.t) (ps : list (Endpoint.t * Z))
    (r : result unit) (w : World) : Prop :=
  if forallb (fun p => Spec.ended (Spec.load_result env p)) ps
  then r = Ret tt
       /\ exists sums,
           summaries w = l ++ sums
           /\ forallb Spec.has_p50 sums
              = forallb (fun p => Spec.usable (Spec.load_result env p)) ps
  else r = Throw AutocannonError.

Lemma outcome_nil l : hoare (has_sums l) (ret tt) (outcome_post l []).
Proof.
  intros w Hw. split; [reflexivity|]. exists []. split; [|reflexivity].
  simpl. now rewrite app_nil_r.
Qed.

Lemma outcome_app {A} ps1 ps2 (m : M World A) (k : A -> M World unit) :
  (forall l, hoare (has_sums l) (bind m (fun _ => ret tt)) (outcome_post l ps1)) ->
  (forall l a, hoare (has_sums l) (k a) (outcome_post l ps2)) ->
  forall l, hoare (has_sums l) (bind m k) (outcome_post l (ps1 ++ ps2)).
Proof.
  intros Hm Hk l w Hw. specialize (Hm l w Hw).
  unfold outcome_post, bind, ret in *. rewrite !forallb_app.
  destruct (m w) as [[a|e] w1]; cbn [fst snd] in *.
  - destruct (forallb (fun p => Spec.ended (Spec.load_result env p)) ps1);
      [|discriminate Hm].
    destruct Hm as [_ (sums1 & Hsums1 & Hp1)].
    specialize (Hk (l ++ sums1) a w1 Hsums1). cbn [andb].
    destruct (forallb (fun p => Spec.ended (Spec.load_result env p)) ps2);
      [|exact Hk].
    destruct Hk as [Hret (sums2 & Hsums2 & Hp2)].
    split; [exact Hret|]. exists (sums1 ++ sums2). split.
    + now rewrite Hsums2, app_assoc.
    + now rewrite forallb_app, Hp1, Hp2.
  - destruct (forallb (fun p => Spec.ended (Spec.load_result env p)) ps1).
    + destruct Hm as [Hm _]. discriminate Hm.
    + exact Hm.
Qed.

Lemma bind_ret_tt (m : M World unit) (w : World) : bind m (fun _ => ret tt) w = m w.
Proof. unfold bind, ret. now destruct (m w) as [[[]|e] w']. Qed.

Lemma phase_outcome_post serverPid ep c :
  (forall l' r, In r (Endpoint.requests ep) ->
                quiet l' (bind (resolve r) (fun req => emit (LoadRequest req)))) ->
  forall l,
    hoare (has_sums l) (bind (phase env serverPid ep c) (fun _ => ret tt))
          (outcome_post l [(ep, c)]).
Proof.
  intros Hreq l w Hw. rewrite bind_ret_tt.
  pose proof (phase_outcome l serverPid ep c Hreq w Hw) as H.
  unfold outcome_post. cbn [forallb].
  destruct (Spec.load_result env (ep, c)) as [res|]; cbn [Spec.ended andb].
  - destruct H as [Hret [avg Hsums]]. split; [exact Hret|].
    exists [summary ep c res avg]. split; [exact Hsums | reflexivity].
  - exact H.
Qed.

Lemma levels_outcome serverPid ep (levels : list Z) :
  (forall l' r, In r (Endpoint.requests ep) ->
                quiet l' (bind (resolve r) (fun req => emit (LoadRequest req)))) ->
  forall l,
    hoare (has_sums l) (for_of levels (fun c => phase env serverPid ep c))
          (outcome_post l (map (pair ep) levels)).
Proof.
  intros Hreq. induction levels as [|c levels IH]; cbn [for_of map].
  - apply outcome_nil.
  - apply (outcome_app [(ep, c)] (map (pair ep) levels)).
    + now apply phase_outcome_post.
    + intros l _. apply IH.
Qed.

Lemma sweep_outcome serverPid (eps : list Endpoint.t) :
  (forall l' ep r, In ep eps -> In r (Endpoint.requests ep) ->
                   quiet l' (bind (resolve r) (fun req => emit (LoadRequest req)))) ->
  forall l,
    hoare (has_sums l) (sweep env serverPid eps) (outcome_post l (Spec.phases eps)).
Proof.
  unfold sweep, Spec.phases.
  induction eps as [|ep eps IH]; intros Hreq; cbn [for_of flat_map].
  - apply outcome_nil.
  - apply (outcome_app (map (pair ep) CONCURRENCY_LEVELS)
                       (flat_map (fun ep => map (pair ep) CONCURRENCY_LEVELS) eps)).
    + intros l w Hw. rewrite bind_ret_tt. revert w Hw.
      apply hoare_bind_ret with (R := has_sums l);
        [apply quiet_emit | intros _].
      apply levels_outcome. intros l' r Hr.
      apply (Hreq l' ep r); [now left | exact Hr].
    + intros l _. apply IH. intros l' ep' r Hep.
      apply (Hreq l' ep' r). now right.
Qed.

Lemma run_all_benchmarks_outcome secretHex commitment proof l :
  hoare (has_sums l)
        (run_all_benchmarks env (endpoints env secretHex commitment proof))
        (outcome_post l (Spec.phases (endpoints env secretHex commitment proof))).
Proof.
  unfold run_all_benchmarks.
  apply hoare_bind_ret with (R := has_sums l);
    [apply quiet_findServerPid | intros serverPid].
  apply hoare_bind_ret with (R := has_sums l).
  { destruct serverPid as [p|]; [destruct (pid_truthy (Some p))|];
      apply quiet_emit. }
  intros _. apply sweep_outcome. intros l' ep r.
  apply (quiet_requests l' secretHex commitment proof ep r).
Qed.

Lemma usable_ended (ps : list (Endpoint.t * Z)) :
  forallb (fun p => Spec.usable (Spec.load_result env p)) ps = true ->
  forallb (fun p => Spec.ended (Spec.load_result env p)) ps = true.
Proof.
  induction ps as [|p ps IH]; cbn [forallb]; [reflexivity|].
  intros H. apply andb_true_iff in H as [Hp Hps].
  rewrite (IH Hps). now destruct (Spec.load_result env p).
Qed.

Lemma print_table_returns (w : World) :
  fst (print_table w)
  = if forallb Spec.has_p50 (summaries w)
    then Ret tt
    else Throw (TypeError "Cannot read properties of undefined (reading 'toFixed')").
Proof.
  pose proof (for_of_print_summary (summaries w)
                (with_events w [ConsoleLog [LStr nl;
       LStr "====================== Benchmark results ======================"]]))
    as H.
  unfold print_table, bind, console_log, emit.
  cbn [summaries]. unfold with_events in H.
  destruct (forallb Spec.has_p50 (summaries w)).
  - destruct H as (evs & Heq & _). now rewrite Heq.
  - destruct (for_of _ _ _) as [r w']. cbn [fst] in *. now subst r.
Qed.

(** After a preflight that returned, [main] returns exactly when every
    load run is usable. *)
Lemma main_outcome (secretHex commitment proof : value) :
  fst (preflight env (snd (startup env initial)))
  = Ret (secretHex, commitment, proof) ->
  (exists e,
      fst (main env initial)
      = if Spec.all_loads_usable env (endpoints env secretHex commitment proof)
        then Ret tt
        else Throw e).
Proof.
  intros Hpre. rewrite startup_eq in Hpre. cbn [snd] in Hpre.
  unfold main. unfold bind at 1. rewrite startup_eq.
  cbv beta iota. unfold bind at 1.
  match goal with
  | |- context [preflight env ?w] =>
      pose proof (preflight_stable env (has_sums [])
                    (fun e _ w' Hw' => Hw') (fun w' n Hw' => Hw') w eq_refl)
        as Hsums;
      destruct (preflight env w) as [r1 w1]
  end.
  cbn [fst snd] in *. subst r1. cbv beta iota.
  pose proof (run_all_benchmarks_outcome secretHex commitment proof [] w1 Hsums)
    as Hrun.
  unfold outcome_post in Hrun. unfold bind, Spec.all_loads_usable.
  destruct (run_all_benchmarks env _ w1) as [r2 w2]. cbn [fst snd] in Hrun.
  destruct (forallb (fun p => Spec.ended (Spec.load_result env p)) _) eqn:Hended.
  - destruct Hrun as [-> (sums & Hsums2 & Hp50)]. cbn [app] in Hsums2.
    rewrite print_table_returns, Hsums2, Hp50.
    eexists. reflexivity.
  - subst r2. exists AutocannonError. cbn [fst].
    destruct (forallb (fun p => Spec.usable (Spec.load_result env p)) _) eqn:Hus;
      [|reflexivity].
    apply usable_ended in Hus. rewrite Hus in Hended. discriminate Hended.
Qed.

(** A monitored phase whose load run ends with [res]: the averages of its
    summary are those of the samples that its own monitor, started empty,
    got while the run lasted. *)
Lemma phase_monitored l p ep c res :
  (forall l' r, In r (Endpoint.requests ep) ->
                quiet l' (bind (resolve r) (fun req => emit (LoadRequest req)))) ->
  pid_truthy (Some p) = true ->
  Spec.load_result env (ep, c) = Some res ->
  hoare (has_sums l) (phase env (Some p) ep c)
        (fun r w =>
           r = Ret tt
           /\ summaries w
              = l ++ [summary ep c res
                        (computeAverages
                           (Monitor.samples
                              (Monitor.run
                                 (AcRun.background
                                    (autocannon env (Spec.load_opts env ep c)))
                                 (Monitor.start p))))]).
Proof.
  intros Hreq Hp Hres. unfold phase. rewrite Hp.
  apply hoare_bind_ret with (R := has_sums l); [apply quiet_emit | intros _].
  apply hoare_bind
    with (R := fun monitor w => monitor = Some (Monitor.start p) /\ has_sums l w).
  { intros w Hw. split; [reflexivity | exact Hw]. }
  intros monitor. apply hoare_pure. intros ->.
  apply hoare_bind
    with (R := fun result w => result = res /\ has_sums l w).
  { intros w Hw. destruct (runAutocannon_outcome l ep c Hreq w Hw) as [Hs Hr].
    rewrite Hr, Hres. now split. }
  intros result. apply hoare_pure. intros ->.
  cbn [option_map].
  apply hoare_bind
    with (R := fun monitor' w =>
                 monitor' = Some (Monitor.stop
                                    (during_run env c TEST_DURATION
                                       (Endpoint.requests ep) (Monitor.start p)))
                 /\ has_sums l w).
  { intros w Hw. split; [reflexivity | exact Hw]. }
  intros monitor'. apply hoare_pure. intros ->.
  intros w Hw. split; [reflexivity|].
  unfold has_sums in Hw. simpl. now rewrite Hw.
Qed.

End Outcome.

(** ** The 50th percentile of the summary that a phase pushes *)

(** A phase whose load run ends with [res] returns, and the record that
    it pushes is the summary of [res]. *)
Lemma phase_pushes_summary (env : Env) (secretHex commitment proof : value)
      (serverPid : option Z) (ep : Endpoint.t) (c : Z) (res : AcResult.t)
      (w : World) :
  In ep (endpoints env secretHex commitment proof) ->
  Spec.load_result env (ep, c) = Some res ->
  fst (phase env serverPid ep c w) = Ret tt
  /\ exists avg,
       summaries (snd (phase env serverPid ep c w))
       = summaries w ++ [summary ep c res avg].
Proof.
  intros Hep Hres.
  pose proof (phase_outcome env (summaries w) serverPid ep c
                (fun l' r Hr =>
                   quiet_requests env l' secretHex commitment proof ep r Hep Hr)
                w eq_refl) as H.
  rewrite Hres in H. exact H.
Qed.

(** The 50th percentile of a summary is the [||] chain on the latency of
    the result. *)
Lemma summary_latencyP50 (ep : Endpoint.t) (c : Z) (result : AcResult.t)
      (avg : option Usage.t) :
  Summary.latencyP50 (summary ep c result avg)
  = if opt_truthy (Latency.p50 (AcResult.latency result))
    then Latency.p50 (AcResult.latency result)
    else if opt_truthy (Latency.median (AcResult.latency result))
         then Latency.median (AcResult.latency result)
         else Latency.mean (AcResult.latency result).
Proof. cbn [summary Summary.latencyP50]. apply latencyP50_cases. Qed.

(** The claim C7 as it is written fails on a phase whose load run measures
    a 50th percentile that is available and is 0: the summary that the
    phase pushes reports the median. *)
Lemma C7_counterexample :
  let env := Examples.env_with_latency Examples.zero_p50 in
  Spec.load_result env (Examples.proof_endpoint, 1%Z)
  = Some (Examples.result_with Examples.zero_p50)
  /\ Latency.p50 Examples.zero_p50 = Some 0%float
  /\ map Summary.latencyP50
         (summaries (snd (phase env None Examples.proof_endpoint 1 initial)))
     = [Some 5%float]
  /\ Some 5%float <> Spec.first_available Examples.zero_p50.
Proof.
  split; [reflexivity|]. split; [reflexivity|]. split; [vm_compute; reflexivity|].
  change (Some 5%float <> Some 0%float).
  numbers_differ 0%float.
Qed.

(** C7, amended: for every phase result, the 50th percentile reported in
    the summary that the phase pushes is the measurement's [p50] when that
    is available and neither 0 nor NaN, otherwise its [median] when that
    is available and neither 0 nor NaN, otherwise its [mean].  This holds
    of the summary built from any result, and a phase whose load run ends
    with a result returns and pushes one record, for which it holds. *)
Theorem C7_latencyP50_fallback :
  (forall (ep : Endpoint.t) (c : Z) (result : AcResult.t)
          (avg : option Usage.t),
      let l := AcResult.latency result in
      let reported := Summary.latencyP50 (summary ep c result avg) in
      (forall x, Latency.p50 l = Some x -> number_truthy x = true ->
                 reported = Some x)
      /\ (forall m, opt_truthy (Latency.p50 l) = false ->
                    Latency.median l = Some m -> number_truthy m = true ->
                    reported = Some m)
      /\ (opt_truthy (Latency.p50 l) = false ->
          opt_truthy (Latency.median l) = false ->
          reported = Latency.mean l))
  /\ (forall (env : Env) (secretHex commitment proof : value)
             (serverPid : option Z) (ep : Endpoint.t) (c : Z)
             (res : AcResult.t) (w : World),
         In ep (endpoints env secretHex commitment proof) ->
         Spec.load_result env (ep, c) = Some res ->
         let l := AcResult.latency res in
         fst (phase env serverPid ep c w) = Ret tt
         /\ exists s,
              summaries (snd (phase env serverPid ep c w)) = summaries w ++ [s]
              /\ (forall x, Latency.p50 l = Some x -> number_truthy x = true ->
                            Summary.latencyP50 s = Some x)
              /\ (forall m, opt_truthy (Latency.p50 l) = false ->
                            Latency.median l = Some m ->
                            number_truthy m = true ->
                            Summary.latencyP50 s = Some m)
              /\ (opt_truthy (Latency.p50 l) = false ->
                  opt_truthy (Latency.median l) = false ->
                  Summary.latencyP50 s = Latency.mean l)).
Proof.
  assert (Hsummary :
            forall ep c result avg,
              let l := AcResult.latency result in
              let reported := Summary.latencyP50 (summary ep c result avg) in
              (forall x, Latency.p50 l = Some x -> number_truthy x = true ->
                         reported = Some x)
              /\ (forall m, opt_truthy (Latency.p50 l) = false ->
                            Latency.median l = Some m -> number_truthy m = true ->
                            reported = Some m)
              /\ (opt_truthy (Latency.p50 l) = false ->
                  opt_truthy (Latency.median l) = false ->
                  reported = Latency.mean l)).
  { intros ep c result avg l reported. subst reported l.
    rewrite summary_latencyP50. repeat split.
    - intros x Hx Ht. rewrite Hx. simpl. now rewrite Ht.
    - intros m Hp Hm Ht. rewrite Hp, Hm. simpl. now rewrite Ht.
    - intros Hp Hm. now rewrite Hp, Hm. }
  split; [exact Hsummary|].
  intros env s cm pr serverPid ep c res w Hep Hres l.
  destruct (phase_pushes_summary env s cm pr serverPid ep c res w Hep Hres)
    as [Hret [avg Hsums]].
  split; [exact Hret|].
  exists (summary ep c res avg). split; [exact Hsums|].
  exact (Hsummary ep c res avg).
Qed.

Lemma C7_witness :
  Summary.latencyP50
    (summary Examples.proof_endpoint 1
             (Examples.result_with Examples.plain_latency) None)
  = Some 2%float
  /\ Summary.latencyP50
       (summary Examples.proof_endpoint 1
                (Examples.result_with Examples.median_only) None)
     = Some 3%float
  /\ Summary.latencyP50
       (summary Examples.proof_endpoint 1
                (Examples.result_with Examples.mean_only) None)
     = Some 2.5%float
  /\ exists s,
       summaries (snd (phase Examples.env_up (Some 4242%Z)
                             Examples.proof_endpoint 10 initial))
       = [s]
       /\ Summary.latencyP50 s = Some 2%float.
Proof.
  split; [|split; [|split]].
  - apply (proj1 (proj1 C7_latencyP50_fallback Examples.proof_endpoint 1%Z
                    (Examples.result_with Examples.plain_latency) None));
      reflexivity.
  - apply (proj1 (proj2 (proj1 C7_latencyP50_fallback Examples.proof_endpoint 1%Z
                           (Examples.result_with Examples.median_only) None)));
      reflexivity.
  - apply (proj2 (proj2 (proj1 C7_latencyP50_fallback Examples.proof_endpoint 1%Z
                           (Examples.result_with Examples.mean_only) None)));
      reflexivity.
  - destruct (proj2 C7_latencyP50_fallback Examples.env_up
                (VStr "0xAA") (VStr "123") (VStr "pi") (Some 4242%Z)
                Examples.proof_endpoint 10%Z Examples.ok_result initial
                (or_intror (or_introl eq_refl)) eq_refl)
      as [_ [s [Hs [Hp50 _]]]].
    exists s. split; [exact Hs|].
    apply (Hp50 2%float); reflexivity.
Defined.

(** The claim C10 as it is written fails in its last clause on a phase
    whose load run measures a 50th percentile of 0, no median and a mean
    of 0: the reported value is the mean, 0, and so equals the measured
    50th percentile although that is 0. *)
Lemma C10_counterexample :
  let env := Examples.env_with_latency Examples.zero_p50_zero_mean in
  Spec.load_result env (Examples.proof_endpoint, 1%Z)
  = Some (Examples.result_with Examples.zero_p50_zero_mean)
  /\ Latency.p50 Examples.zero_p50_zero_mean = Some 0%float
  /\ PrimFloat.is_zero 0%float = true
  /\ map Summary.latencyP50
         (summaries (snd (phase env None Examples.proof_endpoint 1 initial)))
     = [Latency.p50 Examples.zero_p50_zero_mean].
Proof.
  split; [reflexivity|]. split; [reflexivity|]. split; [reflexivity|].
  vm_compute. reflexivity.
Qed.

(** C10, amended: a 50th percentile of exactly 0 ([+0] or [-0]) is skipped
    by the [||] chain: the value reported in the summary is then
    [median || mean], that is the median when it is neither absent, 0 nor
    NaN, and the mean otherwise; a 50th percentile that is neither 0 nor
    NaN is reported whatever the other two fields are.  The reported value
    equals a 50th percentile of 0 exactly when [median || mean] is itself
    that 0; and a 50th percentile that is reported whatever the other two
    fields are is not 0.  A phase whose load run ends with a result returns
    and pushes the summary of that result. *)
Theorem C10_zero_p50_is_skipped :
  (forall (ep : Endpoint.t) (c : Z) (usage : option Usage.t)
          (avg thr req : number) (md mn : option number),
      let measured p :=
        {| AcResult.latency :=
             {| Latency.average := avg; Latency.p50 := Some p;
                Latency.median := md; Latency.mean := mn |};
           AcResult.throughput_average := thr;
           AcResult.requests_average := req |} in
      let reported p := Summary.latencyP50 (summary ep c (measured p) usage) in
      reported 0%float = Js.or md mn
      /\ reported (-0)%float = Js.or md mn
      /\ (forall x, PrimFloat.is_zero x = true -> reported x = Js.or md mn)
      /\ (forall m, md = Some m -> number_truthy m = true ->
                    reported 0%float = Some m)
      /\ (opt_truthy md = false -> reported 0%float = mn)
      /\ (forall x, number_truthy x = true -> reported x = Some x)
      /\ (forall x, PrimFloat.is_zero x = true ->
                    (reported x = Some x <-> Js.or md mn = Some x))
      /\ (forall x,
            (forall md' mn',
                Summary.latencyP50
                  (summary ep c
                     {| AcResult.latency :=
                          {| Latency.average := avg; Latency.p50 := Some x;
                             Latency.median := md'; Latency.mean := mn' |};
                        AcResult.throughput_average := thr;
                        AcResult.requests_average := req |}
                     usage)
                = Some x) ->
            PrimFloat.is_zero x = false))
  /\ (forall (env : Env) (secretHex commitment proof : value)
             (serverPid : option Z) (ep : Endpoint.t) (c : Z)
             (res : AcResult.t) (w : World),
         In ep (endpoints env secretHex commitment proof) ->
         Spec.load_result env (ep, c) = Some res ->
         fst (phase env serverPid ep c w) = Ret tt
         /\ exists usage,
              summaries (snd (phase env serverPid ep c w))
              = summaries w ++ [summary ep c res usage]).
Proof.
  split; [|exact phase_pushes_summary].
  intros ep c usage avg thr req md mn measured reported.
  assert (Hzero : forall x, PrimFloat.is_zero x = true ->
                            reported x = Js.or md mn).
  { intros x Hz. subst reported measured. cbv beta.
    rewrite summary_latencyP50. cbn [AcResult.latency Latency.p50 Latency.median
                                     Latency.mean opt_truthy].
    unfold number_truthy. rewrite Hz. cbn [orb negb].
    unfold Js.or. now destruct (opt_truthy md). }
  split; [now apply Hzero|]. split; [now apply Hzero|]. split; [exact Hzero|].
  split.
  { intros m -> Ht. rewrite (Hzero 0%float eq_refl). unfold Js.or. simpl.
    now rewrite Ht. }
  split.
  { intros Hmd. rewrite (Hzero 0%float eq_refl). unfold Js.or. now rewrite Hmd. }
  split.
  { intros x Ht. subst reported measured. cbv beta.
    rewrite summary_latencyP50. simpl. now rewrite Ht. }
  split.
  { intros x Hz. now rewrite (Hzero x Hz). }
  intros x Hall.
  destruct (PrimFloat.is_zero x) eqn:Hz; [|reflexivity].
  specialize (Hall (Some 1%float) None).
  rewrite summary_latencyP50 in Hall. simpl in Hall.
  unfold number_truthy in Hall. rewrite Hz in Hall. simpl in Hall.
  apply Some_number_inj in Hall. rewrite <- Hall in Hz. discriminate Hz.
Qed.

Lemma C10_witness :
  Summary.latencyP50
    (summary Examples.proof_endpoint 1
             (Examples.result_with Examples.zero_p50) None)
  = Some 5%float
  /\ Summary.latencyP50
       (summary Examples.proof_endpoint 1
                (Examples.result_with Examples.plain_latency) None)
     = Some 2%float.
Proof.
  split.
  - exact (proj1 (proj2 (proj2 (proj2
             (proj1 C10_zero_p50_is_skipped Examples.proof_endpoint 1%Z None
                    7%float 1048576%float 10%float
                    (Some 5%float) (Some 7%float)))))
             5%float eq_refl eq_refl).
  - exact (proj1 (proj2 (proj2 (proj2 (proj2 (proj2
             (proj1 C10_zero_p50_is_skipped Examples.proof_endpoint 1%Z None
                    2.5%float 1048576%float 10%float
                    None (Some 2.5%float)))))))
             2%float eq_refl).
Defined.

Lemma exit_status_of_main (env : Env) :
  exit_status (snd (run env))
  = match fst (main env initial) with
    | Ret _ => 0%Z
    | Throw _ => 1%Z
    end.
Proof.
  pose proof (main_no_exit env initial (local_initial _ _)) as [Hexit _].
  pose proof (run_exit_status env) as Hstatus.
  destruct (fst (main env initial)); [|exact Hstatus].
  rewrite Hstatus. unfold exit_status.
  rewrite <- (app_nil_r (events _)), (find_exit_after _ [] Hexit).
  reflexivity.
Qed.

(** X9: after a preflight that returned the secret, the commitment and
    the proof, the run exits with status 0 exactly when each of the 18
    load runs ends with a result in which [p50 || median || mean] is a
    number: one run that ends with an error, or one result without such a
    figure, and the exit status is 1.  The run given to autocannon in a
    phase has [BASE_URL] for its url, the concurrency level for its
    connections, [TEST_DURATION] for its duration and the requests of the
    endpoint. *)
Theorem X9_success_needs_every_load_usable :
  forall (env : Env) (secretHex commitment proof : value),
    fst (preflight env (snd (startup env initial)))
    = Ret (secretHex, commitment, proof) ->
    (exit_status (snd (run env)) = 0%Z
     <-> Spec.all_loads_usable env (endpoints env secretHex commitment proof)
         = true).
Proof.
  intros env s c p Hpre.
  destruct (main_outcome env s c p Hpre) as [e Hmain].
  rewrite exit_status_of_main, Hmain.
  destruct (Spec.all_loads_usable env (endpoints env s c p)); split;
    intros H; try reflexivity; discriminate H.
Qed.

Lemma X9_witness :
  exit_status (snd (run Examples.env_up)) = 0%Z
  <-> Spec.all_loads_usable Examples.env_up
        (endpoints Examples.env_up (VStr "0xAA") (VStr "123") (VStr "pi"))
      = true.
Proof.
  assert (Hpre : fst (preflight Examples.env_up
                        (snd (startup Examples.env_up initial)))
                 = Ret (VStr "0xAA", VStr "123", VStr "pi"))
    by (vm_compute; reflexivity).
  exact (X9_success_needs_every_load_usable Examples.env_up (VStr "0xAA")
           (VStr "123") (VStr "pi") Hpre).
Defined.

(** X10: a phase with a monitor whose load run ends with a result returns,
    and the CPU and memory figures of the summary that it pushes are the
    averages of the samples collected by the monitor of this phase alone:
    a monitor started with an empty list for the pid, fed by the ticks and
    lookups that happened while the load run lasted, and read at once
    after [stop]. *)
Theorem X10_phase_averages_its_own_samples :
  forall (env : Env) (secretHex commitment proof : value)
         (ep : Endpoint.t) (c p : Z) (res : AcResult.t) (w : World),
    In ep (endpoints env secretHex commitment proof) ->
    pid_truthy (Some p) = true ->
    Spec.load_result env (ep, c) = Some res ->
    fst (phase env (Some p) ep c w) = Ret tt
    /\ summaries (snd (phase env (Some p) ep c w))
       = summaries w
         ++ [summary ep c res
               (computeAverages
                  (Monitor.samples
                     (Monitor.run
                        (AcRun.background
                           (autocannon env (Spec.load_opts env ep c)))
                        (Monitor.start p))))].
Proof.
  intros env s cm pr ep c p res w Hep Hp Hres.
  apply (phase_monitored env (summaries w) p ep c res); [|exact Hp|exact Hres|reflexivity].
  intros l' r Hr. exact (quiet_requests env l' s cm pr ep r Hep Hr).
Qed.

Lemma X10_witness :
  fst (phase Examples.env_up (Some 4242%Z) Examples.proof_endpoint 10 initial)
  = Ret tt
  /\ summaries
       (snd (phase Examples.env_up (Some 4242%Z) Examples.proof_endpoint 10
                   initial))
     = [summary Examples.proof_endpoint 10 Examples.ok_result
                (computeAverages [Examples.sample 10 100]%float)].
Proof.
  exact (X10_phase_averages_its_own_samples Examples.env_up
           (VStr "0xAA") (VStr "123") (VStr "pi") Examples.proof_endpoint
           10 4242 Examples.ok_result initial
           (or_intror (or_introl eq_refl)) eq_refl eq_refl).
Defined.

(** ** When lsof prints no pid *)

Lemma append_empty_r (s : string) : (s ++ EmptyString)%string = s.
Proof. induction s as [|c s IH]; simpl; [reflexivity | now rewrite IH]. Qed.

Lemma trim_start_all_white (ws : string) :
  Spec.white ws -> trim_start ws = EmptyString.
Proof.
  intros Hws. rewrite <- (append_empty_r ws).
  now rewrite (trim_start_white ws EmptyString Hws).
Qed.

(** X13: when lsof prints nothing, or white space only, as it does when
    no process listens on the port, [findServerPid] returns [null]. *)
Theorem X13_blank_lsof_output_gives_null :
  forall (env : Env) (w : World) (url : Url.t) (stdout : string),
    new_URL env (BASE_URL env) = Some url ->
    child_exec env (Spec.lsof_command url) = Some stdout ->
    Spec.white stdout ->
    fst (findServerPid env w) = Ret None.
Proof.
  intros env w url stdout Hurl Hexec Hwhite.
  rewrite findServerPid_eq, Hurl, Hexec. cbn [fst].
  now rewrite parseInt_cases, (trim_start_all_white stdout Hwhite).
Qed.

Lemma X13_witness : fst (findServerPid Examples.env_no_pid initial) = Ret None.
Proof.
  exact (X13_blank_lsof_output_gives_null Examples.env_no_pid initial
           {| Url.port := "8080"; Url.protocol := "http:" |} nl
           eq_refl eq_refl eq_refl).
Defined.

(** ** The users of the load *)

(** X14: two users built by [buildUser] are the same exactly when the
    texts of their random draws agree after the first two characters (the
    ["0."] that [slice(2)] removes): the e-mail address is the only field
    that depends on the draw, and it determines what follows the first two
    characters. *)
Theorem X14_users_differ_as_their_draws :
  forall random36 random36' : string,
    user random36 = user random36'
    <-> slice 2 random36 = slice 2 random36'.
Proof.
  intros r r'. unfold user. split.
  - intros H. injection H as H.
    exact (append_inj_r _ _ "@example.com" H).
  - intros H. now rewrite H.
Qed.

(** ** Lookups in flight when the monitor is stopped *)

Lemma step_stopped (m : Monitor.state) (ev : Monitor.event) :
  Monitor.active m = false ->
  Monitor.active (Monitor.step m ev) = false
  /\ exists more,
       Monitor.samples (Monitor.step m ev) = Monitor.samples m ++ more
       /\ List.length more + Monitor.pending (Monitor.step m ev)
          <= Monitor.pending m.
Proof.
  intros Hact. destruct ev as [|o]; simpl.
  - rewrite Hact. split; [exact Hact|]. exists []. rewrite app_nil_r.
    split; [reflexivity | simpl; lia].
  - destruct (Monitor.pending m) as [|k] eqn:Hk.
    + split; [exact Hact|]. exists []. rewrite app_nil_r.
      split; [reflexivity | simpl; lia].
    + rewrite callback_never_throws. simpl. split; [exact Hact|].
      destruct o as [s|].
      * exists [s]. split; [reflexivity | simpl; lia].
      * exists []. rewrite app_nil_r. split; [reflexivity | simpl; lia].
Qed.

Lemma run_stopped (evs : list Monitor.event) (m : Monitor.state) :
  Monitor.active m = false ->
  exists more,
    Monitor.samples (Monitor.run evs m) = Monitor.samples m ++ more
    /\ List.length more + Monitor.pending (Monitor.run evs m)
       <= Monitor.pending m.
Proof.
  unfold Monitor.run. revert m.
  induction evs as [|ev evs IH]; intros m Hact; simpl.
  - exists []. rewrite app_nil_r. split; [reflexivity | simpl; lia].
  - destruct (step_stopped m ev Hact) as [Hact' (more1 & Hs1 & Hl1)].
    destruct (IH (Monitor.step m ev) Hact') as (more2 & Hs2 & Hl2).
    exists (more1 ++ more2). split.
    + now rewrite Hs2, Hs1, app_assoc.
    + rewrite length_app. lia.
Qed.

(** X15: [stop] clears the timer and nothing else.  Whatever happens after
    it, the list of samples keeps what it had and gets at most one sample
    for each lookup that was in flight when the monitor was stopped; and a
    lookup in flight that succeeds after [stop] does push its sample. *)
Theorem X15_stop_keeps_lookups_in_flight :
  forall m : Monitor.state,
    (forall evs,
        exists more,
          Monitor.samples (Monitor.run evs (Monitor.stop m))
          = Monitor.samples m ++ more
          /\ List.length more <= Monitor.pending m)
    /\ (forall s,
           Monitor.pending m <> 0 ->
           Monitor.samples
             (Monitor.step (Monitor.stop m) (Monitor.Settle (Some s)))
           = Monitor.samples m ++ [s]).
Proof.
  intros m. split.
  - intros evs.
    destruct (run_stopped evs (Monitor.stop m) eq_refl) as (more & Hs & Hl).
    exists more. split; [exact Hs|]. simpl in Hl. lia.
  - intros s Hp. simpl. destruct (Monitor.pending m); [contradiction|].
    reflexivity.
Qed.

Lemma X15_witness :
  Monitor.samples
    (Monitor.step
       (Monitor.stop (Monitor.step (Monitor.start 4242) Monitor.Tick))
       (Monitor.Settle (Some (Examples.sample 10 100)%float)))
  = [Examples.sample 10 100]%float.
Proof.
  exact (proj2 (X15_stop_keeps_lookups_in_flight
                  (Monitor.step (Monitor.start 4242) Monitor.Tick))
               (Examples.sample 10 100)%float
               (fun H => O_S 0 (eq_sym H))).
Defined.

(** * Further properties of the k6 script *)

(** X11: in every iteration of the k6 script, whatever the service
    answers: between one and three requests are sent; each of them is
    checked and timed, so that the checks and the additions to the trends
    are as many as the requests; and the iteration paces exactly when it
    returns, the pause being then its last action.  An iteration that
    throws has not paced. *)
Theorem X11_iteration_checks_times_and_paces :
  forall (env : K6.Env) (w : K6.World),
  exists r evs,
    K6.default env w = (r, w ++ evs)
    /\ 1 <= Spec.count Spec.k6_is_post evs <= 3
    /\ Spec.count Spec.k6_is_check evs = Spec.count Spec.k6_is_post evs
    /\ Spec.count Spec.k6_is_trend evs = Spec.count Spec.k6_is_post evs
    /\ Spec.count Spec.k6_is_sleep evs
       = match r with Ret _ => 1 | Throw _ => 0 end
    /\ match r with
       | Ret _ =>
           exists before,
             evs = before ++ [K6.Sleep (K6.PACE_MS env / 1000)%float]
       | Throw _ => True
       end.
Proof.
  intros env w.
  assert (Hcount : forall evs : list K6.Event,
             Nat.leb 1 (Spec.count Spec.k6_is_post evs)
             && Nat.leb (Spec.count Spec.k6_is_post evs) 3
             && Nat.eqb (Spec.count Spec.k6_is_check evs) (Spec.count Spec.k6_is_post evs)
             && Nat.eqb (Spec.count Spec.k6_is_trend evs) (Spec.count Spec.k6_is_post evs)
             = true ->
             1 <= Spec.count Spec.k6_is_post evs <= 3
             /\ Spec.count Spec.k6_is_check evs = Spec.count Spec.k6_is_post evs
             /\ Spec.count Spec.k6_is_trend evs = Spec.count Spec.k6_is_post evs).
  { intros evs H. rewrite !andb_true_iff in H.
    destruct H as [[[H1 H2] H3] H4].
    apply Nat.leb_le in H1, H2. apply Nat.eqb_eq in H3, H4. repeat split; assumption. }
  assert (Hthrow : forall e (evs : list K6.Event),
             Nat.leb 1 (Spec.count Spec.k6_is_post evs)
             && Nat.leb (Spec.count Spec.k6_is_post evs) 3
             && Nat.eqb (Spec.count Spec.k6_is_check evs) (Spec.count Spec.k6_is_post evs)
             && Nat.eqb (Spec.count Spec.k6_is_trend evs) (Spec.count Spec.k6_is_post evs)
             = true ->
             Spec.count Spec.k6_is_sleep evs = 0 ->
             exists r evs',
               (@Throw unit e, w ++ evs) = (r, w ++ evs')
               /\ 1 <= Spec.count Spec.k6_is_post evs' <= 3
               /\ Spec.count Spec.k6_is_check evs' = Spec.count Spec.k6_is_post evs'
               /\ Spec.count Spec.k6_is_trend evs' = Spec.count Spec.k6_is_post evs'
               /\ Spec.count Spec.k6_is_sleep evs'
                  = match r with Ret _ => 1 | Throw _ => 0 end
               /\ match r with
                  | Ret _ =>
                      exists before,
                        evs' = before ++ [K6.Sleep (K6.PACE_MS env / 1000)%float]
                  | Throw _ => True
                  end).
  { intros e evs H Hs. exists (Throw e), evs.
    destruct (Hcount evs H) as (H1 & H2 & H3). repeat split; tauto. }
  assert (Hret : forall (before : list K6.Event),
             Nat.leb 1 (Spec.count Spec.k6_is_post before)
             && Nat.leb (Spec.count Spec.k6_is_post before) 3
             && Nat.eqb (Spec.count Spec.k6_is_check before)
                        (Spec.count Spec.k6_is_post before)
             && Nat.eqb (Spec.count Spec.k6_is_trend before)
                        (Spec.count Spec.k6_is_post before)
             = true ->
             Spec.count Spec.k6_is_sleep before = 0 ->
             exists r evs',
               (Ret tt, (w ++ before) ++ [K6.Sleep (K6.PACE_MS env / 1000)%float])
               = (r, w ++ evs')
               /\ 1 <= Spec.count Spec.k6_is_post evs' <= 3
               /\ Spec.count Spec.k6_is_check evs' = Spec.count Spec.k6_is_post evs'
               /\ Spec.count Spec.k6_is_trend evs' = Spec.count Spec.k6_is_post evs'
               /\ Spec.count Spec.k6_is_sleep evs'
                  = match r with Ret _ => 1 | Throw _ => 0 end
               /\ match r with
                  | Ret _ =>
                      exists before,
                        evs' = before ++ [K6.Sleep (K6.PACE_MS env / 1000)%float]
                  | Throw _ => True
                  end).
  { intros before H Hs.
    exists (Ret tt), (before ++ [K6.Sleep (K6.PACE_MS env / 1000)%float]).
    destruct (Hcount before H) as (H1 & H2 & H3).
    unfold Spec.count in *. rewrite !filter_app, !length_app. simpl.
    rewrite app_assoc. repeat split; try lia. now exists before. }
  unfold K6.default. unfold bind at 1. rewrite postJson_eq.
  destruct (Z.eqb (K6.Res.status _) 200);
    [|apply Hret; reflexivity].
  unfold bind at 1, lift at 1.
  destruct (K6.Res.json _) as [reg|e]; [|apply Hthrow; reflexivity].
  unfold bind at 1, lift at 1.
  destruct (get reg "secret") as [secret|e]; [|apply Hthrow; reflexivity].
  unfold bind at 1, lift at 1.
  destruct (get reg "commitment") as [commitment|e]; [|apply Hthrow; reflexivity].
  unfold bind at 1. rewrite postJson_eq. rewrite <- app_assoc.
  destruct (Z.eqb (K6.Res.status _) 200);
    [|apply Hret; reflexivity].
  unfold bind at 1, lift at 1.
  destruct (K6.Res.json _) as [prf|e]; [|apply Hthrow; reflexivity].
  unfold bind at 1, lift at 1.
  destruct (get prf "proof") as [proof|e]; [|apply Hthrow; reflexivity].
  unfold bind at 1. rewrite postJson_eq. rewrite <- app_assoc.
  apply Hret; reflexivity.
Qed.

(** X12: an iteration of the k6 script throws exactly when an answer with
    status 200 to the register request, or to the proof request that
    follows a readable registration, has a body that cannot be
    destructured: [json()] throws, or gives [null] or [undefined].  The
    answer to the verify request is never read, and a property that is
    missing from a body does not make the iteration throw. *)
Theorem X12_iteration_throws_on_unreadable_200 :
  forall (env : K6.Env) (w : K6.World),
    let reg := K6.http_post env "http://localhost:8080/register" (K6.regBody env) in
    (exists e, fst (K6.default env w) = Throw e)
    <-> K6.Res.status reg = 200%Z
        /\ (Spec.unreadable reg
            \/ exists j secret commitment,
                K6.Res.json reg = Ret j
                /\ get j "secret" = Ret secret
                /\ get j "commitment" = Ret commitment
                /\ let prf :=
                     K6.http_post env "http://localhost:8080/proof"
                       (VObj [("secret_hex", secret); ("commitment", commitment)]) in
                   K6.Res.status prf = 200%Z /\ Spec.unreadable prf).
Proof.
  intros env w reg.
  unfold K6.default. unfold bind at 1. rewrite postJson_eq. fold reg.
  unfold Spec.unreadable.
  destruct (Z.eqb (K6.Res.status reg) 200) eqn:Hst.
  2:{ apply Z.eqb_neq in Hst. split.
      - intros [e He]. discriminate He.
      - intros [H _]. contradiction. }
  apply Z.eqb_eq in Hst.
  unfold bind at 1, lift at 1.
  destruct (K6.Res.json reg) as [j|e] eqn:Hj.
  2:{ split; [intros _; split; [exact Hst | now left] | intros _; now exists e]. }
  unfold bind at 1, lift at 1.
  destruct (get j "secret") as [secret|e] eqn:Hs.
  2:{ split; [intros _ | intros _; now exists e].
      split; [exact Hst | left]. exact (get_throw _ _ _ Hs). }
  unfold bind at 1, lift at 1.
  destruct (get j "commitment") as [commitment|e] eqn:Hc.
  2:{ split; [intros _ | intros _; now exists e].
      split; [exact Hst | left]. exact (get_throw _ _ _ Hc). }
  assert (Hreadable : ~ (j = VUndefined \/ j = VNull)).
  { intros H. destruct (get_unreadable j "secret" H) as [e He].
    rewrite He in Hs. discriminate Hs. }
  unfold bind at 1. rewrite postJson_eq.
  set (prf := K6.http_post env "http://localhost:8080/proof"
                (VObj [("secret_hex", secret); ("commitment", commitment)])).
  assert (Hinner :
            forall P : Prop,
              (P <-> K6.Res.status prf = 200%Z
                     /\ match K6.Res.json prf with
                        | Ret j' => j' = VUndefined \/ j' = VNull
                        | Throw _ => True
                        end) ->
              (P <-> K6.Res.status reg = 200%Z
                     /\ ((j = VUndefined \/ j = VNull)
                         \/ exists j0 secret0 commitment0,
                             Ret j = Ret j0
                             /\ get j0 "secret" = Ret secret0
                             /\ get j0 "commitment" = Ret commitment0
                             /\ let prf0 :=
                                  K6.http_post env "http://localhost:8080/proof"
                                    (VObj [("secret_hex", secret0);
                                           ("commitment", commitment0)]) in
                                K6.Res.status prf0 = 200%Z
                                /\ match K6.Res.json prf0 with
                                   | Ret j' => j' = VUndefined \/ j' = VNull
                                   | Throw _ => True
                                   end))).
  { intros P HP. rewrite HP. split.
    - intros H. split; [exact Hst | right].
      exists j, secret, commitment. repeat split; try assumption; apply H.
    - intros [_ [H|(j0 & s0 & c0 & Hj0 & Hs0 & Hc0 & H)]]; [contradiction|].
      injection Hj0 as <-. rewrite Hs in Hs0. rewrite Hc in Hc0.
      injection Hs0 as <-. injection Hc0 as <-. exact H. }
  apply Hinner.
  destruct (Z.eqb (K6.Res.status prf) 200) eqn:Hst2.
  2:{ apply Z.eqb_neq in Hst2. split.
      - intros [e He]. discriminate He.
      - intros [H _]. contradiction. }
  apply Z.eqb_eq in Hst2.
  unfold bind at 1, lift at 1.
  destruct (K6.Res.json prf) as [j'|e] eqn:Hj'.
  2:{ split; [intros _; now split | intros _; now exists e]. }
  unfold bind at 1, lift at 1.
  destruct (get j' "proof") as [proof|e] eqn:Hp.
  2:{ split; [intros _ | intros _; now exists e].
      split; [exact Hst2 | exact (get_throw _ _ _ Hp)]. }
  unfold bind at 1. rewrite postJson_eq. split.
  - intros [e He]. discriminate He.
  - intros [_ H]. destruct (get_unreadable j' "proof" H) as [e He].
    rewrite He in Hp. discriminate Hp.
Qed.
